(** * The bounded buffer of assign4 (buffer.h, buffer.cpp, main.cpp)

    A shallow embedding of class [Buffer], of [main] and of the producer
    and consumer threads, and the properties of the specification and of
    the code that are about them.

    The class owns a heap array through the pointer [items]; copies,
    assignment and the self-assignment test [this == &other] are about
    object identity, so objects and arrays live in an explicit store and
    the member functions are state transformers over it.  The internal
    mutex serialises the member functions: a call is modelled as one atomic
    step, and a call that would wait on a condition variable with nobody
    left to signal it is the outcome [Blocks].  The threads of main.cpp
    are a transition system over the store, the two semaphores and the
    mutex, run by an arbitrary scheduler. *)

From Stdlib Require Import ZArith List Lia.
From stdpp Require Import gmap list strings pretty.

Local Open Scope Z_scope.

(** ** Machine integers: [int] is 32 bits wide *)

Module Int.

Definition INT_MIN : Z := -2147483648.
Definition INT_MAX : Z := 2147483647.

(** Two's complement wrap-around of a mathematical integer into [int]. *)
Definition wrap (z : Z) : Z := (z + 2147483648) mod 4294967296 - 2147483648.

Definition in_range (z : Z) : Prop := INT_MIN <= z <= INT_MAX.

(** [a + b] on [int]. *)
Definition add (a b : Z) : Z := wrap (a + b).

(** [a - b] on [int]. *)
Definition sub (a b : Z) : Z := wrap (a - b).

End Int.

(** ** The store *)

(** [typedef int buffer_item;] *)
Abbreviation buffer_item := Z (only parsing).

(** A slot of an array made by [new buffer_item[n]]: the elements are
    default-initialised, so a slot holds an indeterminate value ([None])
    until something is assigned to it. *)
Abbreviation cell := (option buffer_item) (only parsing).

(** Addresses of objects and of heap arrays. *)
Abbreviation addr := positive (only parsing).

(** The data members of [class Buffer] (buffer.h); the mutex and the two
    condition variables carry no data. *)
Record Buffer : Type := mkBuffer {
  items : addr;
  max_size : Z;
  current_count : Z;
  front_idx : Z;
  rear_idx : Z
}.

Record memory : Type := mkMemory {
  objects : gmap addr Buffer;
  arrays : gmap addr (list cell)
}.

Definition empty_memory : memory := mkMemory ∅ ∅.

(** What a call does, run on its own from a given store. *)
Inductive exn : Type := bad_array_new_length.

Inductive outcome (A : Type) : Type :=
| Ret (a : A) (m : memory)   (* the call returns [a] *)
| Blocks (m : memory)        (* the call waits on a condition variable *)
| Throws (e : exn)           (* the call leaves by an exception *)
| Undefined.                 (* the call has undefined behaviour *)

Arguments Ret {A} a m.
Arguments Blocks {A} m.
Arguments Throws {A} e.
Arguments Undefined {A}.

Definition M (A : Type) : Type := memory -> outcome A.

Definition ret {A} (a : A) : M A := fun m => Ret a m.

Definition bind {A B} (c : M A) (k : A -> M B) : M B :=
  fun m =>
    match c m with
    | Ret a m' => k a m'
    | Blocks m' => Blocks m'
    | Throws e => Throws e
    | Undefined => Undefined
    end.

Notation "'do' x <- c ; k" := (bind c (fun x => k))
  (at level 10, x name, c at level 100, k at level 200,
   format "'[v' 'do'  x  <-  c ; '/' k ']'").
Notation "'do_' c ; k" := (bind c (fun _ => k))
  (at level 10, c at level 100, k at level 200,
   format "'[v' 'do_'  c ; '/' k ']'").

Definition undefined {A} : M A := fun _ => Undefined.
Definition wait {A} : M A := fun m => Blocks m.

(** Reading and writing the members of the object at [this]. *)
Definition get_obj (this : addr) : M Buffer :=
  fun m =>
    match objects m !! this with
    | Some b => Ret b m
    | None => Undefined
    end.

Definition set_obj (this : addr) (b : Buffer) : M unit :=
  fun m => Ret tt (mkMemory (<[this := b]> (objects m)) (arrays m)).

(** [new buffer_item[n]]: a negative [n] throws [std::bad_array_new_length]
    (the code uses [std::mutex], so it is C++11 or later); otherwise a
    fresh array of [n] indeterminate slots, at an address no live array has
    ([n = 0] is a valid array of no elements).  The free store does not
    run out. *)
Definition new_array (n : Z) : M addr :=
  fun m =>
    if n <? 0 then Throws bad_array_new_length
    else
      let p := fresh (dom (arrays m)) in
      Ret p (mkMemory (objects m)
                      (<[p := replicate (Z.to_nat n) None]> (arrays m))).

(** [delete[] p] *)
Definition delete_array (p : addr) : M unit :=
  fun m =>
    match arrays m !! p with
    | Some _ => Ret tt (mkMemory (objects m) (delete p (arrays m)))
    | None => Undefined
    end.

(** [p[i]] as an rvalue: outside the array, through a dangling pointer or
    of an indeterminate slot it is undefined. *)
Definition read_array (p : addr) (i : Z) : M buffer_item :=
  fun m =>
    match arrays m !! p with
    | Some a =>
        if (0 <=? i) && (i <? Z.of_nat (length a)) then
          match a !! Z.to_nat i with
          | Some (Some v) => Ret v m
          | _ => Undefined
          end
        else Undefined
    | None => Undefined
    end.

(** [p[i] = v] *)
Definition write_array (p : addr) (i : Z) (v : buffer_item) : M unit :=
  fun m =>
    match arrays m !! p with
    | Some a =>
        if (0 <=? i) && (i <? Z.of_nat (length a)) then
          Ret tt (mkMemory (objects m)
                           (<[p := <[Z.to_nat i := Some v]> a]> (arrays m)))
        else Undefined
    | None => Undefined
    end.

(** [a % b] on [int]: truncated remainder, undefined for [b = 0]. *)
Definition int_rem (a b : Z) : M Z :=
  if b =? 0 then undefined else ret (Z.rem a b).

(** ** class Buffer (buffer.cpp) *)

(** Assignments to single members of the object at [this]. *)
Definition set_current_count (this : addr) (v : Z) : M unit :=
  do b <- get_obj this;
  set_obj this (mkBuffer (items b) (max_size b) v (front_idx b) (rear_idx b)).

Definition set_front_idx (this : addr) (v : Z) : M unit :=
  do b <- get_obj this;
  set_obj this (mkBuffer (items b) (max_size b) (current_count b) v (rear_idx b)).

Definition set_rear_idx (this : addr) (v : Z) : M unit :=
  do b <- get_obj this;
  set_obj this (mkBuffer (items b) (max_size b) (current_count b) (front_idx b) v).

(** [Buffer::Buffer(int size)].  The members are set and the array is
    allocated; the object exists once the constructor has returned, and
    when [new] throws there is no object. *)
Definition Buffer_ctor (this : addr) (size : Z) : M unit :=
  do p <- new_array size;
  set_obj this (mkBuffer p size 0 0 (-1)).

(** The loop shared by the copy constructor and [operator=]:
    [for (int i = 0, index = front_idx; i < current_count; i++)
       { items[i] = other.items[index]; index = (index + 1) % max_size; }]
    Nothing in the body changes [current_count], so the body runs
    [n = max 0 current_count] times; [dst] is [items], [src] is
    [other.items]. *)
Fixpoint copy_items (dst src : addr) (max : Z) (n : nat) (i index : Z)
  : M unit :=
  match n with
  | O => ret tt
  | S n' =>
      do v <- read_array src index;
      do_ write_array dst i v;
      do index' <- int_rem (Int.add index 1) max;
      copy_items dst src max n' (Int.add i 1) index'
  end.

(** [Buffer::Buffer(const Buffer& other)] *)
Definition Buffer_copy_ctor (this other : addr) : M unit :=
  do o <- get_obj other;
  do p <- new_array (max_size o);
  do_ set_obj this (mkBuffer p (max_size o) (current_count o)
                             (front_idx o) (rear_idx o));
  copy_items p (items o) (max_size o) (Z.to_nat (current_count o))
             0 (front_idx o).

(** [Buffer::operator=]; the reference it returns is the address [this]. *)
Definition Buffer_assign (this other : addr) : M addr :=
  if decide (this = other) then ret this
  else
    do t <- get_obj this;
    do_ delete_array (items t);
    do o <- get_obj other;
    do p <- new_array (max_size o);
    do_ set_obj this (mkBuffer p (max_size o) (current_count o)
                               (front_idx o) (rear_idx o));
    do_ copy_items p (items o) (max_size o) (Z.to_nat (current_count o))
                   0 (front_idx o);
    ret this.

(** [Buffer::~Buffer()]: the array is released and the object is gone. *)
Definition Buffer_dtor (this : addr) : M unit :=
  do b <- get_obj this;
  do_ delete_array (items b);
  fun m => Ret tt (mkMemory (delete this (objects m)) (arrays m)).

(** [Buffer::get_size], [get_count], [is_empty], [is_full]. *)
Definition get_size (this : addr) : M Z :=
  do b <- get_obj this; ret (max_size b).

Definition get_count (this : addr) : M Z :=
  do b <- get_obj this; ret (current_count b).

Definition is_empty (this : addr) : M bool :=
  do b <- get_obj this; ret (current_count b =? 0).

Definition is_full (this : addr) : M bool :=
  do b <- get_obj this; ret (current_count b =? max_size b).

(** [Buffer::insert_item].  [while (is_full()) empty_cond.wait(lock);]
    waits for another thread; run on its own the call blocks. *)
Definition insert_item (this : addr) (item : buffer_item) : M bool :=
  do full <- is_full this;
  if full then wait
  else
    do b <- get_obj this;
    do r <- int_rem (Int.add (rear_idx b) 1) (max_size b);
    do_ set_rear_idx this r;
    do_ write_array (items b) r item;
    do_ set_current_count this (Int.add (current_count b) 1);
    ret true.

(** [Buffer::remove_item]: the value stored through the pointer [item] is
    returned next to the [bool]. *)
Definition remove_item (this : addr) : M (buffer_item * bool) :=
  do empty <- is_empty this;
  if empty then wait
  else
    do b <- get_obj this;
    do v <- read_array (items b) (front_idx b);
    do f <- int_rem (Int.add (front_idx b) 1) (max_size b);
    do_ set_front_idx this f;
    do_ set_current_count this (Int.sub (current_count b) 1);
    ret (v, true).

(** [cout << v] for an [int]: decimal digits, with a minus sign. *)
Definition show_int (v : Z) : string := pretty v.

Definition newline : string := String (Ascii.ascii_of_nat 10) EmptyString.

(** The loop of [print_buffer]:
    [for (int i = 0, index = front_idx; i < current_count; i++)
       { cout << items[index]; if (i < current_count - 1) cout << ", ";
         index = (index + 1) % max_size; }]
    The text written by the remaining [n] rounds is returned. *)
Fixpoint print_items (p : addr) (max count : Z) (n : nat) (i index : Z)
  : M string :=
  match n with
  | O => ret ""
  | S n' =>
      do v <- read_array p index;
      let sep := if i <? Int.sub count 1 then ", " else "" in
      do index' <- int_rem (Int.add index 1) max;
      do rest <- print_items p max count n' (Int.add i 1) index';
      ret (show_int v +:+ sep +:+ rest)
  end.

(** [Buffer::print_buffer]: the text written to [cout]. *)
Definition print_buffer (this : addr) : M string :=
  do empty <- is_empty this;
  if empty then ret ("Buffer: [" +:+ "-- Buffer is empty --" +:+ "]" +:+ newline)
  else
    do b <- get_obj this;
    do s <- print_items (items b) (max_size b) (current_count b)
                        (Z.to_nat (current_count b)) 0 (front_idx b);
    ret ("Buffer: [" +:+ s +:+ "]" +:+ newline).

(** ** Sequential traces of calls on one buffer *)

(** With one producer and one consumer the mutex puts the calls that have
    returned in a sequence: each entry is a completed [insert_item] or
    [remove_item]. *)
Inductive op : Type :=
| Insert (item : buffer_item)
| Remove.

(** Runs the calls in order on the buffer at [this] and collects the
    values handed out by [remove_item]. *)
Fixpoint run (this : addr) (tr : list op) : M (list buffer_item) :=
  match tr with
  | [] => ret []
  | Insert item :: tr' =>
      do_ insert_item this item;
      run this tr'
  | Remove :: tr' =>
      do r <- remove_item this;
      do rs <- run this tr';
      ret (r.1 :: rs)
  end.

(** The values a trace inserts, in order, and the number it removes. *)
Fixpoint inserted (tr : list op) : list buffer_item :=
  match tr with
  | [] => []
  | Insert item :: tr' => item :: inserted tr'
  | Remove :: tr' => inserted tr'
  end.

Fixpoint removals (tr : list op) : nat :=
  match tr with
  | [] => O
  | Insert _ :: tr' => removals tr'
  | Remove :: tr' => S (removals tr')
  end.

(** The blocking contract for a buffer of capacity [C] holding [n] items:
    no [Insert] when [n = C], no [Remove] when [n = 0]. *)
Fixpoint respects (C n : Z) (tr : list op) : bool :=
  match tr with
  | [] => true
  | Insert _ :: tr' => (n <? C) && respects C (n + 1) tr'
  | Remove :: tr' => (0 <? n) && respects C (n - 1) tr'
  end.

(** [insert_item] for each value of a list, then [n] calls of
    [remove_item], each followed by [is_full()]. *)
Fixpoint insert_all (this : addr) (l : list buffer_item) : M unit :=
  match l with
  | [] => ret tt
  | item :: l' => do_ insert_item this item; insert_all this l'
  end.

Fixpoint drain (this : addr) (n : nat) : M (list (buffer_item * bool)) :=
  match n with
  | O => ret []
  | S n' =>
      do r <- remove_item this;
      do full <- is_full this;
      do rs <- drain this n';
      ret ((r.1, full) :: rs)
  end.

(** The memory a call leaves behind when it returns or blocks. *)
Definition final_memory {A} (o : outcome A) : option memory :=
  match o with
  | Ret _ m => Some m
  | Blocks m => Some m
  | Throws _ => None
  | Undefined => None
  end.

(** A call of any member function on an existing object; what the call
    returns is dropped. *)
Inductive call : Type :=
| call_insert_item (item : buffer_item)
| call_remove_item
| call_get_size
| call_get_count
| call_is_empty
| call_is_full
| call_print_buffer
| call_assign (other : addr)
| call_dtor.

Definition do_call (this : addr) (c : call) : M unit :=
  match c with
  | call_insert_item item => do_ insert_item this item; ret tt
  | call_remove_item => do_ remove_item this; ret tt
  | call_get_size => do_ get_size this; ret tt
  | call_get_count => do_ get_count this; ret tt
  | call_is_empty => do_ is_empty this; ret tt
  | call_is_full => do_ is_full this; ret tt
  | call_print_buffer => do_ print_buffer this; ret tt
  | call_assign other => do_ Buffer_assign this other; ret tt
  | call_dtor => Buffer_dtor this
  end.

Fixpoint do_calls (this : addr) (cs : list call) : M unit :=
  match cs with
  | [] => ret tt
  | c :: cs' => do_ do_call this c; do_calls this cs'
  end.

(** ** The start of [main] (main.cpp) *)

Inductive sem_name : Type := empty_slots | full_slots.

Inductive thread_fn : Type :=
| producer (producer_id : Z)
| consumer.

(** The calls of [main] that set up and tear down the coordination
    layer, in program order. *)
Inductive event : Type :=
| ev_cout (s : string)
| ev_sem_init (s : sem_name) (pshared : Z) (value : Z)
| ev_mutex_init
| ev_pthread_create (f : thread_fn)
| ev_sleep (seconds : Z)
| ev_sem_destroy (s : sem_name)
| ev_mutex_destroy.

(** Conversion of an [int] argument to [unsigned int]. *)
Definition to_unsigned (v : Z) : Z := v mod 4294967296.

(** [Buffer buffer(5);] at namespace scope: the object's address and its
    initialisation before [main]. *)
Definition buffer : addr := 1%positive.
Definition static_init : M unit := Buffer_ctor buffer 5.

(** The rounds [i = from, from + 1, ...] of a [for] loop that creates one
    thread per round. *)
Fixpoint create_producers (n : nat) (i : Z) : list event :=
  match n with
  | O => []
  | S n' => ev_pthread_create (producer (Int.add i 1))
            :: create_producers n' (Int.add i 1)
  end.

Section Main.

(** [atoi] of the C library. *)
Variable atoi : string -> Z.

(** [main].  The declaration
    [pthread_t producers[num_producers], consumers[num_consumers];]
    makes two arrays whose lengths are computed at run time; such a
    length has to be greater than zero, and with a count that is zero or
    negative the behaviour of the program is undefined.  [sleep] takes an
    [unsigned int], so [sleep_time] is converted. *)
Definition main (argc : Z) (argv : list string) : M (list event * Z) :=
  if negb (argc =? 4) then
    ret ([ev_cout ("Usage: ./producer_consumer <sleep_time> <num_producers> <num_consumers>"
                   +:+ newline)], 1)
  else
    let sleep_time := atoi (nth 1 argv "") in
    let num_producers := atoi (nth 2 argv "") in
    let num_consumers := atoi (nth 3 argv "") in
    do size <- get_size buffer;
    if (num_producers <=? 0) || (num_consumers <=? 0) then undefined
    else
      ret ([ev_sem_init empty_slots 0 (to_unsigned size);
            ev_sem_init full_slots 0 0;
            ev_mutex_init]
           ++ create_producers (Z.to_nat num_producers) 0
           ++ replicate (Z.to_nat num_consumers) (ev_pthread_create consumer)
           ++ [ev_sleep (to_unsigned sleep_time);
               ev_cout ("Main thread: Time's up! Shutting down..." +:+ newline);
               ev_sem_destroy empty_slots;
               ev_sem_destroy full_slots;
               ev_mutex_destroy], 0).

(** The whole program: static initialisation, then [main]. *)
Definition program (argc : Z) (argv : list string) : M (list event * Z) :=
  do_ static_init; main argc argv.

End Main.

(** ** The representation invariant *)

(** The array index of the [i]-th oldest live item. *)
Definition slot (b : Buffer) (i : nat) : nat :=
  Z.to_nat ((front_idx b + Z.of_nat i) mod max_size b).

(** What the array holds at the live indices [front_idx],
    [front_idx + 1], ..., [front_idx + current_count - 1] modulo
    [max_size], oldest first. *)
Definition live_slots (b : Buffer) (a : list cell) : list (option cell) :=
  (fun i => a !! slot b i) <$> seq 0 (Z.to_nat (current_count b)).

(** The object [b] with the array [a] represents the queue [l], oldest
    item first. *)
Record rep (b : Buffer) (a : list cell) (l : list buffer_item) : Prop := {
  rep_cap : 0 < max_size b <= Int.INT_MAX;
  rep_len : Z.of_nat (length a) = max_size b;
  rep_count : 0 <= current_count b <= max_size b;
  rep_front : 0 <= front_idx b < max_size b;
  rep_rear : -1 <= rear_idx b < max_size b;
  rep_rear_live : 0 < current_count b -> 0 <= rear_idx b;
  rep_next : (rear_idx b + 1) mod max_size b
             = (front_idx b + current_count b) mod max_size b;
  rep_live : live_slots b a = (fun v => Some (Some v)) <$> l
}.

(** The buffer at [this] is a well-formed buffer of capacity [C] holding
    the queue [l]. *)
Definition buffer_inv (m : memory) (this : addr) (C : Z)
  (l : list buffer_item) : Prop :=
  exists b a,
    objects m !! this = Some b /\ arrays m !! items b = Some a /\
    max_size b = C /\ rep b a l.

(** The bounds on the members alone, whatever the array holds. *)
Record shape (b : Buffer) (a : list cell) : Prop := {
  shape_cap : 0 < max_size b <= Int.INT_MAX;
  shape_len : Z.of_nat (length a) = max_size b;
  shape_count : 0 <= current_count b <= max_size b;
  shape_front : 0 <= front_idx b < max_size b;
  shape_rear : -1 <= rear_idx b < max_size b
}.

(** ** The states and texts the properties speak of *)

(** The object and the array after [insert_item(item)]. *)
Definition inserted_obj (b : Buffer) : Buffer :=
  mkBuffer (items b) (max_size b) (current_count b + 1) (front_idx b)
           ((rear_idx b + 1) mod max_size b).

Definition inserted_arr (b : Buffer) (a : list cell) (item : buffer_item)
  : list cell :=
  <[Z.to_nat ((rear_idx b + 1) mod max_size b) := Some item]> a.

(** The object after [remove_item]. *)
Definition removed_obj (b : Buffer) : Buffer :=
  mkBuffer (items b) (max_size b) (current_count b - 1)
           ((front_idx b + 1) mod max_size b) (rear_idx b).

(** The object and the array made by the copy constructor and by
    [operator=] from the object [o] holding the queue [l]: the members of
    [o], and the items of [l] at the indices [0], [1], ... *)
Definition copied_obj (p : addr) (o : Buffer) : Buffer :=
  mkBuffer p (max_size o) (current_count o) (front_idx o) (rear_idx o).

Definition copied_arr (o : Buffer) (l : list buffer_item) : list cell :=
  (Some <$> l) ++ replicate (Z.to_nat (max_size o) - length l) None.

(** The test of the specification: construct, insert the items of [l],
    then remove [length l] times, asking [is_full()] after each removal
    and [is_empty()] at the end. *)
Definition round_trip (this : addr) (C : Z) (l : list buffer_item)
  : M (list (buffer_item * bool) * bool) :=
  do_ Buffer_ctor this C;
  do_ insert_all this l;
  do rs <- drain this (length l);
  do e <- is_empty this;
  ret (rs, e).

(** From [m] to [m2] only the object at [this] and the array at [p] may
    have changed, and the object at [this] still owns the array at [p]. *)
Definition writes_only (this p : addr) (m m2 : memory) : Prop :=
  (forall x, x <> this -> objects m2 !! x = objects m !! x) /\
  (forall q, q <> p -> arrays m2 !! q = arrays m !! q) /\
  (exists t', objects m2 !! this = Some t' /\ items t' = p).

(** The buffer at [other] is the object [o] with the array [a], and the
    object at [this], while it exists, owns another array. *)
Definition apart (m : memory) (this other : addr) (o : Buffer)
  (a : list cell) : Prop :=
  this <> other /\
  objects m !! other = Some o /\ arrays m !! items o = Some a /\
  (forall t, objects m !! this = Some t -> items t <> items o).

(** A comma-separated list, as the specification words it. *)
Fixpoint comma_separated (ss : list string) : string :=
  match ss with
  | [] => ""
  | [s] => s
  | s :: ss' => s +:+ ", " +:+ comma_separated ss'
  end.

(** ** Sample states *)

(** A buffer of capacity 5 that holds [10, 20], as three calls leave it. *)
Definition holds_10_20 : memory :=
  mkMemory {[ 1%positive := mkBuffer 1%positive 5 2 0 1 ]}
           {[ 1%positive := [Some 10; Some 20; None; None; None] ]}.

(** A buffer of capacity 5 after [insert_item] of 1, 2, 3 and one
    [remove_item]: it holds [2, 3] and its [front_idx] is 1. *)
Definition holds_2_3 : memory :=
  mkMemory {[ 1%positive := mkBuffer 1%positive 5 2 1 2 ]}
           {[ 1%positive := [Some 1; Some 2; Some 3; None; None] ]}.

(** A buffer of capacity 3 after [insert_item] of 5, 10, 20 and one
    [remove_item]: it holds [10, 20] in the last two slots. *)
Definition holds_10_20_at_end : memory :=
  mkMemory {[ 1%positive := mkBuffer 1%positive 3 2 1 2 ]}
           {[ 1%positive := [Some 5; Some 10; Some 20] ]}.

(** Two buffers with arrays of their own: the one at address 1 has
    capacity 5 and holds [10, 20], the one at address 2 has capacity 3 and
    holds [7]. *)
Definition two_buffers : memory :=
  mkMemory {[ 1%positive := mkBuffer 1%positive 5 2 0 1;
              2%positive := mkBuffer 2%positive 3 1 0 0 ]}
           {[ 1%positive := [Some 10; Some 20; None; None; None];
              2%positive := [Some 7; None; None] ]}.

(** The outcome of a call that only looks: it returns with the store
    [m] it started from, or it is undefined; it neither waits nor
    throws. *)
Definition only_reads {A} (o : outcome A) (m : memory) : Prop :=
  match o with
  | Ret _ m' => m' = m
  | Undefined => True
  | Blocks _ => False
  | Throws _ => False
  end.

(** ** The producer and consumer threads (main.cpp) *)

(** Each thread runs its loop for ever:
    [usleep; sem_wait; pthread_mutex_lock; insert_item or remove_item;
     cout << ...; print_buffer; pthread_mutex_unlock; sem_post].
    A thread is at the statement it runs next, and each statement is a
    step of its own: another thread, or [main], may run between any two
    of them.  [usleep] only lets time pass and is part of waiting for the
    scheduler.  After the buffer call the thread keeps the [item] it
    inserted or was handed, in a local variable, for its line on
    [cout]. *)
Inductive pc : Type :=
| at_sem_wait
| at_mutex_lock
| at_buffer_call
| at_cout (item : buffer_item)
| at_print_buffer
| at_mutex_unlock
| at_sem_post.

Record thread : Type := mkThread {
  start_routine : thread_fn;
  next_call : pc
}.

(** The process: the store with the global [buffer], the two semaphores
    and the mutex ([None]: not initialised, or destroyed), the threads made
    by [pthread_create], the calls [main] has still to make, and the texts
    written to [cout]. *)
Record system : Type := mkSystem {
  heap_of : memory;
  empty_slots_value : option Z;
  full_slots_value : option Z;
  mutex_lock : option bool;
  threads : list thread;
  main_todo : list event;
  cout : list string
}.

Definition SEM_VALUE_MAX : Z := 2147483647.

(** What the scheduler finds when it lets one thread go on. *)
Inductive progress : Type :=
| Steps (s : system)   (* the call is made and returns *)
| Waits                (* blocked in sem_wait or pthread_mutex_lock *)
| Waits_in_buffer      (* inside the buffer, on its condition variable,
                          with mutex_lock held *)
| Faults               (* undefined behaviour *)
| Exited.              (* main has returned: the process is over *)

(** [cout << "Producer " << producer_id << ": Inserted item " << item
    << endl] and [cout << "Consumer: Removed item " << item << endl]. *)
Definition producer_line (producer_id item : Z) : string :=
  "Producer " +:+ show_int producer_id +:+ ": Inserted item "
  +:+ show_int item +:+ newline.

Definition consumer_line (item : Z) : string :=
  "Consumer: Removed item " +:+ show_int item +:+ newline.

(** [sem_init(&s, 0, value)]: a value above [SEM_VALUE_MAX] is refused
    and the semaphore stays as it was (the code does not look at the
    result). *)
Definition sem_init (value : Z) (old : option Z) : option Z :=
  if value <=? SEM_VALUE_MAX then Some value else old.

(** The next call of [main]. Thread creation is taken to succeed. *)
Definition main_step (s : system) : progress :=
  match main_todo s with
  | [] => Exited
  | e :: todo =>
      match e with
      | ev_cout txt =>
          Steps (mkSystem (heap_of s) (empty_slots_value s)
                   (full_slots_value s) (mutex_lock s) (threads s) todo
                   (cout s ++ [txt]))
      | ev_sem_init empty_slots _ v =>
          Steps (mkSystem (heap_of s) (sem_init v (empty_slots_value s))
                   (full_slots_value s) (mutex_lock s) (threads s) todo
                   (cout s))
      | ev_sem_init full_slots _ v =>
          Steps (mkSystem (heap_of s) (empty_slots_value s)
                   (sem_init v (full_slots_value s)) (mutex_lock s)
                   (threads s) todo (cout s))
      | ev_mutex_init =>
          Steps (mkSystem (heap_of s) (empty_slots_value s)
                   (full_slots_value s) (Some false) (threads s) todo
                   (cout s))
      | ev_pthread_create f =>
          Steps (mkSystem (heap_of s) (empty_slots_value s)
                   (full_slots_value s) (mutex_lock s)
                   (threads s ++ [mkThread f at_sem_wait]) todo (cout s))
      | ev_sleep _ =>
          Steps (mkSystem (heap_of s) (empty_slots_value s)
                   (full_slots_value s) (mutex_lock s) (threads s) todo
                   (cout s))
      | ev_sem_destroy empty_slots =>
          Steps (mkSystem (heap_of s) None (full_slots_value s)
                   (mutex_lock s) (threads s) todo (cout s))
      | ev_sem_destroy full_slots =>
          Steps (mkSystem (heap_of s) (empty_slots_value s) None
                   (mutex_lock s) (threads s) todo (cout s))
      | ev_mutex_destroy =>
          Steps (mkSystem (heap_of s) (empty_slots_value s)
                   (full_slots_value s) None (threads s) todo (cout s))
      end
  end.

(** The thread number [i] moves on to [next], in a system whose other
    parts are given. *)
Definition moved (s : system) (i : nat) (f : thread_fn) (next : pc)
  (m : memory) (e f' : option Z) (lk : option bool) (out : list string)
  : system :=
  mkSystem m e f' lk (<[i := mkThread f next]> (threads s)) (main_todo s)
           (cout s ++ out).

(** [sem_wait]: blocks at 0, undefined on a semaphore that is not
    alive. *)
Definition sem_wait (value : option Z) : option (option Z) :=
  match value with
  | None => None
  | Some v => if 0 <? v then Some (Some (v - 1)) else Some None
  end.

(** [sem_post]: at [SEM_VALUE_MAX] the call fails and the value stays. *)
Definition sem_post (value : option Z) : option Z :=
  match value with
  | None => None
  | Some v => if v <? SEM_VALUE_MAX then Some (v + 1) else Some v
  end.

(** The next call of the thread number [i]. *)
Definition thread_step (i : nat) (s : system) : progress :=
  match threads s !! i with
  | None => Waits
  | Some t =>
      let f := start_routine t in
      match next_call t, f with
      | at_sem_wait, producer _ =>
          match sem_wait (empty_slots_value s) with
          | None => Faults
          | Some None => Waits
          | Some (Some v) =>
              Steps (moved s i f at_mutex_lock (heap_of s) (Some v)
                       (full_slots_value s) (mutex_lock s) [])
          end
      | at_sem_wait, consumer =>
          match sem_wait (full_slots_value s) with
          | None => Faults
          | Some None => Waits
          | Some (Some v) =>
              Steps (moved s i f at_mutex_lock (heap_of s)
                       (empty_slots_value s) (Some v) (mutex_lock s) [])
          end
      | at_mutex_lock, _ =>
          match mutex_lock s with
          | None => Faults
          | Some true => Waits
          | Some false =>
              Steps (moved s i f at_buffer_call (heap_of s)
                       (empty_slots_value s) (full_slots_value s)
                       (Some true) [])
          end
      | at_buffer_call, producer producer_id =>
          let item := producer_id in
          match insert_item buffer item (heap_of s) with
          | Ret true m1 =>
              Steps (moved s i f (at_cout item) m1 (empty_slots_value s)
                       (full_slots_value s) (mutex_lock s) [])
          | Ret false m1 =>
              Steps (moved s i f at_mutex_unlock m1 (empty_slots_value s)
                       (full_slots_value s) (mutex_lock s) [])
          | Blocks _ => Waits_in_buffer
          | _ => Faults
          end
      | at_buffer_call, consumer =>
          match remove_item buffer (heap_of s) with
          | Ret (item, true) m1 =>
              Steps (moved s i f (at_cout item) m1 (empty_slots_value s)
                       (full_slots_value s) (mutex_lock s) [])
          | Ret (_, false) m1 =>
              Steps (moved s i f at_mutex_unlock m1 (empty_slots_value s)
                       (full_slots_value s) (mutex_lock s) [])
          | Blocks _ => Waits_in_buffer
          | _ => Faults
          end
      | at_cout item, producer producer_id =>
          Steps (moved s i f at_print_buffer (heap_of s)
                   (empty_slots_value s) (full_slots_value s) (mutex_lock s)
                   [producer_line producer_id item])
      | at_cout item, consumer =>
          Steps (moved s i f at_print_buffer (heap_of s)
                   (empty_slots_value s) (full_slots_value s) (mutex_lock s)
                   [consumer_line item])
      | at_print_buffer, _ =>
          match print_buffer buffer (heap_of s) with
          | Ret txt m1 =>
              Steps (moved s i f at_mutex_unlock m1 (empty_slots_value s)
                       (full_slots_value s) (mutex_lock s) [txt])
          | _ => Faults
          end
      | at_mutex_unlock, _ =>
          match mutex_lock s with
          | Some true =>
              Steps (moved s i f at_sem_post (heap_of s)
                       (empty_slots_value s) (full_slots_value s)
                       (Some false) [])
          | _ => Faults
          end
      | at_sem_post, producer _ =>
          match sem_post (full_slots_value s) with
          | None => Faults
          | Some v =>
              Steps (moved s i f at_sem_wait (heap_of s)
                       (empty_slots_value s) (Some v) (mutex_lock s) [])
          end
      | at_sem_post, consumer =>
          match sem_post (empty_slots_value s) with
          | None => Faults
          | Some v =>
              Steps (moved s i f at_sem_wait (heap_of s) (Some v)
                       (full_slots_value s) (mutex_lock s) [])
          end
      end
  end.

(** Who runs next: [main], or the thread number [i] in the order of
    creation. *)
Inductive actor : Type :=
| main_thread
| worker (i : nat).

Definition step (a : actor) (s : system) : progress :=
  match main_todo s with
  | [] => Exited
  | _ :: _ =>
      match a with
      | main_thread => main_step s
      | worker i => thread_step i s
      end
  end.

(** A schedule is the list of the actors the scheduler picks; picking
    one that is blocked changes nothing. *)
Inductive status : Type :=
| Running (s : system)
| Stuck_in_buffer (s : system)
| Undefined_behaviour (s : system).

Fixpoint exec (sched : list actor) (s : system) : status :=
  match sched with
  | [] => Running s
  | a :: sched' =>
      match step a s with
      | Steps s' => exec sched' s'
      | Waits => exec sched' s
      | Exited => exec sched' s
      | Waits_in_buffer => Stuck_in_buffer s
      | Faults => Undefined_behaviour s
      end
  end.

(** The process when [main] starts: the static initialisation is done,
    and [main] has all its calls to make. *)
Definition boot (atoi : string -> Z) (argc : Z) (argv : list string)
  : option system :=
  match program atoi argc argv empty_memory with
  | Ret (todo, _) m => Some (mkSystem m None None None [] todo [])
  | _ => None
  end.

(** ** Permits in flight *)

(** A producer between its [sem_wait] and its insertion has taken an
    empty-slot permit and not used it; a consumer between its removal and
    its [sem_post] has an empty-slot permit to give back. *)
Definition empty_in_flight (t : thread) : Z :=
  match start_routine t, next_call t with
  | producer _, at_mutex_lock => 1
  | producer _, at_buffer_call => 1
  | consumer, at_cout _ => 1
  | consumer, at_print_buffer => 1
  | consumer, at_mutex_unlock => 1
  | consumer, at_sem_post => 1
  | _, _ => 0
  end.

Definition full_in_flight (t : thread) : Z :=
  match start_routine t, next_call t with
  | producer _, at_cout _ => 1
  | producer _, at_print_buffer => 1
  | producer _, at_mutex_unlock => 1
  | producer _, at_sem_post => 1
  | consumer, at_mutex_lock => 1
  | consumer, at_buffer_call => 1
  | _, _ => 0
  end.

(** A thread between [pthread_mutex_lock] and [pthread_mutex_unlock]. *)
Definition in_region (t : thread) : Z :=
  match next_call t with
  | at_buffer_call => 1
  | at_cout _ => 1
  | at_print_buffer => 1
  | at_mutex_unlock => 1
  | _ => 0
  end.

Definition total (w : thread -> Z) (ts : list thread) : Z :=
  foldr (fun t acc => w t + acc) 0 ts.

(** The text of [print_buffer] for a buffer holding [l]. *)
Definition snapshot (l : list buffer_item) : string :=
  "Buffer: ["
  +:+ (if decide (l = []) then "-- Buffer is empty --"
       else comma_separated (show_int <$> l))
  +:+ "]" +:+ newline.

(** What the threads write to [cout] along a trace of buffer calls that
    starts with the queue [q]: for each call its line and the buffer
    printed after it.  A producer inserts its own id. *)
Fixpoint transcript (q : list buffer_item) (tr : list op) : list string :=
  match tr with
  | [] => []
  | Insert item :: tr' =>
      producer_line item item :: snapshot (q ++ [item])
      :: transcript (q ++ [item]) tr'
  | Remove :: tr' =>
      match q with
      | item :: q' => consumer_line item :: snapshot q' :: transcript q' tr'
      | [] => []
      end
  end.

(** What a thread that has made its buffer call has still to write
    before it unlocks, when the buffer holds [l]: its line, unless it is
    written, and the buffer as [print_buffer] shows it. *)
Definition to_write (l : list buffer_item) (t : thread) : list string :=
  match next_call t, start_routine t with
  | at_cout item, producer producer_id =>
      [producer_line producer_id item; snapshot l]
  | at_cout item, consumer => [consumer_line item; snapshot l]
  | at_print_buffer, _ => [snapshot l]
  | _, _ => []
  end.

Definition still_to_write (l : list buffer_item) (ts : list thread)
  : list string :=
  flat_map (to_write l) ts.

(** The thread is between its buffer call and [print_buffer]'s return. *)
Definition writing (t : thread) : bool :=
  match next_call t with
  | at_cout _ => true
  | at_print_buffer => true
  | _ => false
  end.

(** The threads [main] has still to create, in order. *)
Fixpoint pending_creates (todo : list event) : list thread_fn :=
  match todo with
  | [] => []
  | ev_pthread_create f :: todo' => f :: pending_creates todo'
  | _ :: todo' => pending_creates todo'
  end.

(** The routines of the threads in the order of their creation, those
    [main] has still to create included. *)
Definition roster (s : system) : list thread_fn :=
  (start_routine <$> threads s) ++ pending_creates (main_todo s).

(** The state a schedule ends in. *)
Definition last_state (st : status) : system :=
  match st with
  | Running s => s
  | Stuck_in_buffer s => s
  | Undefined_behaviour s => s
  end.

(** [main] has not yet come to [sem_destroy(&empty_slots)]. *)
Definition before_teardown (s : system) : Prop :=
  In (ev_sem_destroy empty_slots) (main_todo s).

(** [main] has not yet come back from [sleep]. *)
Definition main_asleep (s : system) : Prop :=
  exists seconds, In (ev_sleep seconds) (main_todo s).

(** The last three calls of [main]. *)
Definition teardown : list event :=
  [ev_sem_destroy empty_slots; ev_sem_destroy full_slots; ev_mutex_destroy].

(** What [main] has still to do once the semaphores and the mutex are set
    up: create threads, sleep, write the shutdown line, tear down. *)
Inductive live_todo : list event -> Prop :=
| live_create f todo :
    live_todo todo -> live_todo (ev_pthread_create f :: todo)
| live_sleep seconds txt :
    live_todo (ev_sleep seconds :: ev_cout txt :: teardown)
| live_cout txt : live_todo (ev_cout txt :: teardown)
| live_teardown : live_todo teardown.

(** [main] is setting up: no thread exists, nothing is written, and
    [main] is about to initialise [empty_slots], [full_slots] or
    [mutex_lock]. *)
Definition setting_up (C : Z) (s : system) : Prop :=
  threads s = [] /\ cout s = [] /\ mutex_lock s = None /\
  buffer_inv (heap_of s) buffer C [] /\
  exists todo,
    live_todo todo /\ main_asleep s /\
    ((main_todo s = ev_sem_init empty_slots 0 C :: ev_sem_init full_slots 0 0
                    :: ev_mutex_init :: todo /\
      empty_slots_value s = None /\ full_slots_value s = None) \/
     (main_todo s = ev_sem_init full_slots 0 0 :: ev_mutex_init :: todo /\
      empty_slots_value s = Some C /\ full_slots_value s = None) \/
     (main_todo s = ev_mutex_init :: todo /\
      empty_slots_value s = Some C /\ full_slots_value s = Some 0)).

(** The threads may run: the buffer holds a queue [l], empty as long as
    no thread exists; the permits of each kind, on the semaphore or in
    flight, add up with the items to the capacity and to the item count;
    the mutex is locked exactly when one thread is in the region; and
    while [main] sleeps, [cout] and what the thread in the region has
    still to write make the transcript of a trace that respects the
    blocking contract and leaves the queue [l]. *)
Definition coordinated (C : Z) (s : system) : Prop :=
  exists l e f lk,
    buffer_inv (heap_of s) buffer C l /\
    empty_slots_value s = Some e /\ full_slots_value s = Some f /\
    mutex_lock s = Some lk /\
    0 <= e /\ 0 <= f /\
    e + total empty_in_flight (threads s) + Z.of_nat (length l) = C /\
    f + total full_in_flight (threads s) = Z.of_nat (length l) /\
    total in_region (threads s) = (if lk then 1 else 0) /\
    live_todo (main_todo s) /\
    (threads s = [] -> l = []) /\
    (main_asleep s ->
     exists tr,
       respects C 0 tr = true /\
       cout s ++ still_to_write l (threads s) = transcript [] tr /\
       l = drop (removals tr) (inserted tr)).

Definition invariant (C : Z) (s : system) : Prop :=
  before_teardown s -> setting_up C s \/ coordinated C s.

(** The queue after the calls of [tr], run from the queue [q]. *)
Definition queue_after (q : list buffer_item) (tr : list op)
  : list buffer_item :=
  drop (removals tr) (q ++ inserted tr).

(** A thread that is at the start of its loop, before [sem_wait]. *)
Definition at_start (t : thread) : bool :=
  match next_call t with
  | at_sem_wait => true
  | _ => false
  end.

(** A sample run: [./producer_consumer 1 2 1] (two producers, one
    consumer), and a schedule in which [main] sets up and creates the
    threads, both producers insert and the consumer removes once. *)
Definition blank_system : system :=
  mkSystem empty_memory None None None [] [] [].

Definition sample_atoi (s : string) : Z :=
  if String.eqb s "2" then 2 else 1.

Definition sample_argv : list string := ["./producer_consumer"; "1"; "2"; "1"].

Definition sample_boot : system :=
  default blank_system (boot sample_atoi 4 sample_argv).

Definition sample_schedule_to_removal : list actor :=
  [main_thread; main_thread; main_thread; main_thread; main_thread;
   main_thread;
   worker 0; worker 1; worker 2; worker 1; worker 0;
   worker 1; worker 1; worker 1; worker 1;
   worker 0; worker 0; worker 0; worker 0; worker 0;
   worker 1; worker 2; worker 2; worker 2].

Definition sample_schedule : list actor :=
  sample_schedule_to_removal ++ [worker 2; worker 2; worker 0].

Definition sample_state : system :=
  match exec sample_schedule sample_boot with
  | Running s => s
  | _ => blank_system
  end.

(** The same run, stopped when [main] is about to create the first
    thread. *)
Definition sample_state_at_create : system :=
  match exec [main_thread; main_thread; main_thread] sample_boot with
  | Running s => s
  | _ => blank_system
  end.

(** The same run, stopped when the consumer has come back from
    [remove_item] and has not yet written its line. *)
Definition sample_state_at_cout : system :=
  match exec sample_schedule_to_removal sample_boot with
  | Running s => s
  | _ => blank_system
  end.

(** ** Proof steps *)

Ltac unfold_monad :=
  unfold is_full, is_empty, get_size, get_count, set_rear_idx, set_front_idx,
    set_current_count, get_obj, set_obj, bind, ret, wait, undefined; simpl.

Tactic Notation "unfold_monad" "in" hyp(H) :=
  unfold is_full, is_empty, get_size, get_count, set_rear_idx, set_front_idx,
    set_current_count, get_obj, set_obj, bind, ret, wait, undefined in H;
  cbn [objects arrays items max_size current_count front_idx rear_idx
       final_memory] in H.

(** ** Machine arithmetic *)

Lemma int_wrap_id z : Int.in_range z -> Int.wrap z = z.
Proof.
  unfold Int.in_range, Int.wrap, Int.INT_MIN, Int.INT_MAX. intros Hz.
  rewrite Z.mod_small; lia.
Qed.

Lemma int_add_small a b : Int.in_range (a + b) -> Int.add a b = a + b.
Proof. apply int_wrap_id. Qed.

Lemma int_sub_small a b : Int.in_range (a - b) -> Int.sub a b = a - b.
Proof. apply int_wrap_id. Qed.

Lemma rem_is_mod a C : 0 <= a -> 0 < C -> Z.rem a C = a mod C.
Proof. intros Ha HC. apply Z.rem_mod_nonneg; lia. Qed.

(** Two integers less than [C] apart with the same residue are equal. *)
Lemma mod_window_inj C x y :
  0 < C -> 0 <= x - y < C -> x mod C = y mod C -> x = y.
Proof.
  intros HC Hxy Heq.
  assert (H : (x - y) mod C = 0).
  { rewrite Zminus_mod, Heq, Z.sub_diag. apply Z.mod_0_l. lia. }
  rewrite Z.mod_small in H by lia. lia.
Qed.

Lemma mod_succ C x : 0 < C -> (x mod C + 1) mod C = (x + 1) mod C.
Proof. intros HC. rewrite Zplus_mod_idemp_l. reflexivity. Qed.

Lemma int_rem_ok a C :
  0 <= a -> 0 < C -> forall m, int_rem a C m = Ret (a mod C) m.
Proof.
  intros Ha HC m. unfold int_rem.
  destruct (Z.eqb_spec C 0) as [->|_]; [lia|].
  unfold ret. rewrite rem_is_mod by lia. reflexivity.
Qed.

(** ** The live slots *)

Lemma live_slots_spec b a l :
  live_slots b a = (fun v => Some (Some v)) <$> l <->
  Z.to_nat (current_count b) = length l /\
  forall (i : nat) v, l !! i = Some v -> a !! slot b i = Some (Some v).
Proof.
  unfold live_slots. split.
  - intros H.
    assert (Hlen : Z.to_nat (current_count b) = length l).
    { apply (f_equal length) in H.
      rewrite !length_fmap, length_seq in H. exact H. }
    split; [exact Hlen|].
    intros i v Hi.
    apply (f_equal (fun k => k !! i)) in H.
    rewrite !list_lookup_fmap, Hi in H.
    rewrite lookup_seq_lt in H by (apply lookup_lt_Some in Hi; lia).
    simpl in H. injection H as H. exact H.
  - intros [Hlen Hall]. apply list_eq. intros i.
    rewrite !list_lookup_fmap.
    destruct (l !! i) as [v|] eqn:Hi; simpl.
    + rewrite lookup_seq_lt by (apply lookup_lt_Some in Hi; lia).
      simpl. f_equal. apply Hall. exact Hi.
    + rewrite lookup_seq_ge by (apply lookup_ge_None in Hi; lia).
      reflexivity.
Qed.

Lemma rep_length b a l : rep b a l -> current_count b = Z.of_nat (length l).
Proof.
  intros H. pose proof (rep_count _ _ _ H).
  apply rep_live, live_slots_spec in H. lia.
Qed.

Lemma rep_lookup b a l (i : nat) v :
  rep b a l -> l !! i = Some v -> a !! slot b i = Some (Some v).
Proof. intros H. apply rep_live, live_slots_spec in H. apply H. Qed.

(** The relation between the indices that the specification states. *)
Lemma rep_rear_eq b a l :
  rep b a l -> 0 < current_count b ->
  rear_idx b = (front_idx b + current_count b - 1) mod max_size b.
Proof.
  intros H Hpos.
  pose proof (rep_cap _ _ _ H). pose proof (rep_rear _ _ _ H).
  pose proof (rep_rear_live _ _ _ H Hpos). pose proof (rep_next _ _ _ H) as Hn.
  set (C := max_size b) in *.
  rewrite <- (Z.mod_small (rear_idx b) C) at 1 by lia.
  replace (rear_idx b) with (rear_idx b + 1 - 1) at 1 by lia.
  rewrite Zminus_mod, Hn, <- Zminus_mod. reflexivity.
Qed.

(** ** One call of [insert_item] or [remove_item] on a well-formed buffer *)

Lemma rep_shape b a l : rep b a l -> shape b a.
Proof. intros []. constructor; assumption. Qed.

Lemma insert_item_runs m this b a item :
  objects m !! this = Some b -> arrays m !! items b = Some a ->
  shape b a -> current_count b < max_size b ->
  insert_item this item m
  = Ret true (mkMemory (<[this := inserted_obj b]> (objects m))
                       (<[items b := inserted_arr b a item]> (arrays m))).
Proof.
  intros Hobj Harr [Hcap Hlen Hcnt _ Hrear] Hroom.
  unfold Int.INT_MAX in Hcap.
  assert (Hr : 0 <= (rear_idx b + 1) mod max_size b < max_size b)
    by (apply Z.mod_pos_bound; lia).
  unfold insert_item. unfold_monad. rewrite Hobj.
  destruct (Z.eqb_spec (current_count b) (max_size b)) as [Heq|_]; [lia|].
  rewrite Hobj.
  rewrite int_add_small by (unfold Int.in_range, Int.INT_MIN, Int.INT_MAX; lia).
  rewrite int_rem_ok by lia. rewrite Hobj. simpl.
  unfold write_array. simpl. rewrite Harr.
  destruct (Z.leb_spec 0 ((rear_idx b + 1) mod max_size b)); [|lia].
  destruct (Z.ltb_spec ((rear_idx b + 1) mod max_size b) (Z.of_nat (length a)));
    [|lia].
  simpl. rewrite lookup_insert_eq. simpl.
  rewrite insert_insert_eq.
  rewrite int_add_small by (unfold Int.in_range, Int.INT_MIN, Int.INT_MAX; lia).
  reflexivity.
Qed.

Lemma insert_item_rep b a l item :
  rep b a l -> current_count b < max_size b ->
  rep (inserted_obj b) (inserted_arr b a item) (l ++ [item]).
Proof.
  intros Hrep Hroom.
  pose proof (rep_length _ _ _ Hrep) as Hl.
  destruct Hrep as [Hcap Hlen Hcnt Hfront Hrear Hrl Hnext Hlive].
  assert (Hr : 0 <= (rear_idx b + 1) mod max_size b < max_size b)
    by (apply Z.mod_pos_bound; lia).
  unfold inserted_obj, inserted_arr.
  constructor; simpl; try lia.
  - rewrite length_insert. exact Hlen.
  - rewrite Hnext, mod_succ by lia. f_equal. lia.
  - apply live_slots_spec. apply live_slots_spec in Hlive as [_ Hall].
    simpl. split.
    + rewrite length_app. simpl. lia.
    + intros i v Hi. unfold slot. simpl. rewrite Hnext.
      apply lookup_app_Some in Hi as [Hi|[Hge Hi]].
      * rewrite list_lookup_insert_ne; [apply Hall; exact Hi|].
        apply lookup_lt_Some in Hi.
        intros Heq. apply Z2Nat.inj in Heq;
          try (apply Z.mod_pos_bound; lia).
        apply mod_window_inj in Heq; lia.
      * destruct (i - length l)%nat as [|k] eqn:Hk; [|destruct k; discriminate].
        simpl in Hi. injection Hi as <-.
        replace (Z.of_nat i) with (current_count b) by lia.
        apply list_lookup_insert_eq.
        rewrite <- Hnext. lia.
Qed.

Lemma rep_head b a l :
  rep b a l -> 0 < current_count b ->
  exists v l', l = v :: l' /\ a !! Z.to_nat (front_idx b) = Some (Some v).
Proof.
  intros Hrep Hpos.
  pose proof (rep_length _ _ _ Hrep) as Hl.
  destruct l as [|v l']; [simpl in Hl; lia|].
  exists v, l'. split; [reflexivity|].
  pose proof (rep_lookup _ _ _ O v Hrep eq_refl) as H0.
  unfold slot in H0. simpl in H0.
  pose proof (rep_front _ _ _ Hrep).
  rewrite Z.add_0_r, Z.mod_small in H0 by lia. exact H0.
Qed.

Lemma remove_item_runs m this b a l v l' :
  objects m !! this = Some b -> arrays m !! items b = Some a ->
  rep b a l -> l = v :: l' ->
  remove_item this m
  = Ret (v, true) (mkMemory (<[this := removed_obj b]> (objects m)) (arrays m)).
Proof.
  intros Hobj Harr Hrep ->.
  pose proof (rep_length _ _ _ Hrep) as Hl. simpl in Hl.
  destruct (rep_head _ _ _ Hrep ltac:(lia)) as (v0 & l0 & Heq & Hv).
  injection Heq as <- <-.
  pose proof (rep_cap _ _ _ Hrep) as Hcap. pose proof (rep_front _ _ _ Hrep) as Hfront.
  pose proof (rep_len _ _ _ Hrep) as Hlen. pose proof (rep_count _ _ _ Hrep) as Hcnt.
  unfold Int.INT_MAX in Hcap.
  unfold remove_item. unfold_monad. rewrite Hobj.
  destruct (Z.eqb_spec (current_count b) 0) as [Heq|_]; [lia|].
  rewrite Hobj. unfold read_array. rewrite Harr.
  destruct (Z.leb_spec 0 (front_idx b)); [|lia].
  destruct (Z.ltb_spec (front_idx b) (Z.of_nat (length a))); [|lia].
  simpl. rewrite Hv.
  rewrite int_add_small by (unfold Int.in_range, Int.INT_MIN, Int.INT_MAX; lia).
  rewrite int_rem_ok by lia. rewrite Hobj. simpl.
  rewrite lookup_insert_eq. simpl. rewrite insert_insert_eq.
  rewrite int_sub_small by (unfold Int.in_range, Int.INT_MIN, Int.INT_MAX; lia).
  reflexivity.
Qed.

Lemma remove_item_rep b a v l' :
  rep b a (v :: l') -> rep (removed_obj b) a l'.
Proof.
  intros Hrep.
  pose proof (rep_length _ _ _ Hrep) as Hl. simpl in Hl.
  destruct Hrep as [Hcap Hlen Hcnt Hfront Hrear Hrl Hnext Hlive].
  unfold removed_obj.
  constructor; simpl; try lia.
  - apply Z.mod_pos_bound. lia.
  - rewrite Hnext, Zplus_mod_idemp_l. f_equal. lia.
  - apply live_slots_spec. apply live_slots_spec in Hlive as [_ Hall].
    simpl. split; [lia|].
    intros i w Hi. specialize (Hall (S i) w Hi).
    unfold slot in *. simpl. rewrite Zplus_mod_idemp_l.
    replace (front_idx b + 1 + Z.of_nat i) with (front_idx b + Z.of_nat (S i))
      by lia.
    exact Hall.
Qed.

(** ** The invariant along calls *)

Lemma Buffer_ctor_runs m this C :
  0 <= C ->
  Buffer_ctor this C m
  = Ret tt (mkMemory
              (<[this := mkBuffer (fresh (dom (arrays m))) C 0 0 (-1)]> (objects m))
              (<[fresh (dom (arrays m)) := replicate (Z.to_nat C) None]> (arrays m))).
Proof.
  intros HC. unfold Buffer_ctor, new_array, bind, set_obj.
  destruct (Z.ltb_spec C 0); [lia|]. reflexivity.
Qed.

Lemma rep_fresh p C :
  0 < C <= Int.INT_MAX ->
  rep (mkBuffer p C 0 0 (-1)) (replicate (Z.to_nat C) None) [].
Proof.
  intros HC. constructor; simpl; try lia; try reflexivity.
  rewrite length_replicate. lia.
Qed.

Lemma Buffer_ctor_inv m this C :
  0 < C <= Int.INT_MAX ->
  exists m', Buffer_ctor this C m = Ret tt m' /\ buffer_inv m' this C [].
Proof.
  intros HC. eexists. split; [apply Buffer_ctor_runs; lia|].
  eexists _, _. cbn [objects arrays].
  split; [apply lookup_insert_eq|]. cbn [items].
  split; [apply lookup_insert_eq|]. split; [reflexivity|].
  apply rep_fresh. exact HC.
Qed.

Lemma insert_item_inv m this C l item :
  buffer_inv m this C l -> Z.of_nat (length l) < C ->
  exists m', insert_item this item m = Ret true m' /\
             buffer_inv m' this C (l ++ [item]).
Proof.
  intros (b & a & Hobj & Harr & HC & Hrep) Hroom.
  pose proof (rep_length _ _ _ Hrep) as Hl.
  eexists. split.
  - eapply insert_item_runs; eauto using rep_shape. lia.
  - exists (inserted_obj b), (inserted_arr b a item). cbn [objects arrays].
    split; [apply lookup_insert_eq|].
    split; [apply lookup_insert_eq|]. split; [exact HC|].
    apply insert_item_rep; [assumption | lia].
Qed.

Lemma remove_item_inv m this C v l :
  buffer_inv m this C (v :: l) ->
  exists m', remove_item this m = Ret (v, true) m' /\ buffer_inv m' this C l.
Proof.
  intros (b & a & Hobj & Harr & HC & Hrep).
  eexists. split.
  - eapply remove_item_runs; eauto.
  - exists (removed_obj b), a. cbn [objects arrays].
    split; [apply lookup_insert_eq|].
    split; [exact Harr|]. split; [exact HC|].
    apply remove_item_rep with v. assumption.
Qed.

(** A trace that respects the blocking contract runs to its end: the
    values removed are the oldest ones of the queue followed by the values
    inserted, and what is left is the rest of that sequence. *)
Lemma run_inv this C tr : forall m l,
  buffer_inv m this C l -> respects C (Z.of_nat (length l)) tr = true ->
  exists m',
    run this tr m = Ret (take (removals tr) (l ++ inserted tr)) m' /\
    buffer_inv m' this C (drop (removals tr) (l ++ inserted tr)).
Proof.
  induction tr as [|[item|] tr IH]; intros m l Hinv Hok; simpl in *.
  - exists m. rewrite app_nil_r, take_0, drop_0. split; [reflexivity|assumption].
  - apply andb_prop in Hok as [Hroom Hok]. apply Z.ltb_lt in Hroom.
    destruct (insert_item_inv m this C l item Hinv Hroom) as (m1 & Hrun & Hinv1).
    destruct (IH m1 (l ++ [item]) Hinv1) as (m' & Hrun' & Hinv').
    { rewrite length_app. simpl.
      replace (Z.of_nat (length l + 1)) with (Z.of_nat (length l) + 1) by lia.
      exact Hok. }
    exists m'. unfold bind. rewrite Hrun.
    rewrite <- app_assoc in Hrun', Hinv'. simpl in *.
    split; assumption.
  - apply andb_prop in Hok as [Hpos Hok]. apply Z.ltb_lt in Hpos.
    destruct l as [|v l]; [simpl in Hpos; lia|].
    destruct (remove_item_inv m this C v l Hinv) as (m1 & Hrun & Hinv1).
    destruct (IH m1 l Hinv1) as (m' & Hrun' & Hinv').
    { replace (Z.of_nat (length l)) with (Z.of_nat (length (v :: l)) - 1)
        by (simpl; lia).
      exact Hok. }
    exists m'. unfold bind. rewrite Hrun, Hrun'. simpl.
    split; [reflexivity|assumption].
Qed.

Lemma is_full_inv m this C l :
  buffer_inv m this C l ->
  is_full this m = Ret (Z.of_nat (length l) =? C) m.
Proof.
  intros (b & a & Hobj & _ & HC & Hrep).
  unfold is_full, get_obj, bind, ret. rewrite Hobj.
  rewrite (rep_length _ _ _ Hrep), HC. reflexivity.
Qed.

Lemma is_empty_inv m this C l :
  buffer_inv m this C l ->
  is_empty this m = Ret (Z.of_nat (length l) =? 0) m.
Proof.
  intros (b & a & Hobj & _ & HC & Hrep).
  unfold is_empty, get_obj, bind, ret. rewrite Hobj.
  rewrite (rep_length _ _ _ Hrep). reflexivity.
Qed.

Lemma insert_all_inv this C l' : forall m l,
  buffer_inv m this C l -> Z.of_nat (length l + length l') <= C ->
  exists m', insert_all this l' m = Ret tt m' /\ buffer_inv m' this C (l ++ l').
Proof.
  induction l' as [|item l' IH]; intros m l Hinv Hroom; simpl in *.
  - exists m. rewrite app_nil_r. split; [reflexivity|assumption].
  - destruct (insert_item_inv m this C l item Hinv ltac:(lia))
      as (m1 & Hrun & Hinv1).
    destruct (IH m1 (l ++ [item]) Hinv1) as (m' & Hrun' & Hinv').
    { rewrite length_app. simpl. lia. }
    exists m'. unfold bind. rewrite Hrun, Hrun'.
    rewrite <- app_assoc in Hinv'. split; [reflexivity|assumption].
Qed.

Lemma drain_inv this C n : forall m l,
  buffer_inv m this C l -> (n <= length l)%nat ->
  exists m',
    drain this n m = Ret ((fun v => (v, false)) <$> take n l) m' /\
    buffer_inv m' this C (drop n l).
Proof.
  induction n as [|n IH]; intros m l Hinv Hn; simpl.
  - exists m. rewrite ?take_0, ?drop_0. split; [reflexivity|assumption].
  - destruct l as [|v l]; [simpl in Hn; lia|]. simpl in Hn.
    assert (Hlen : Z.of_nat (length (v :: l)) <= C).
    { destruct Hinv as (b & a & _ & _ & HC & Hrep).
      pose proof (rep_length _ _ _ Hrep). pose proof (rep_count _ _ _ Hrep). lia. }
    simpl in Hlen.
    destruct (remove_item_inv m this C v l Hinv) as (m1 & Hrun & Hinv1).
    destruct (IH m1 l Hinv1 ltac:(lia)) as (m' & Hrun' & Hinv').
    exists m'. unfold bind at 1. rewrite Hrun.
    unfold bind at 1. rewrite (is_full_inv _ _ _ _ Hinv1).
    unfold bind. rewrite Hrun'. simpl.
    destruct (Z.eqb_spec (Z.of_nat (length l)) C); [lia|].
    split; [reflexivity|assumption].
Qed.

(** ** The specification's properties of [insert_item] and [remove_item] *)

(** C3. On a well-formed buffer that is not full, [insert_item(item)]
    returns [true]; it writes [item] into the slot after the tail,
    [(rear_idx + 1) % max_size], which becomes the new [rear_idx];
    [current_count] grows by one; [front_idx] and every live item stay
    where they were; the queue held is the old one followed by [item]. *)
Theorem insert_item_postcondition m this C l item :
  buffer_inv m this C l -> Z.of_nat (length l) < C ->
  exists b a b' a' m',
    objects m !! this = Some b /\ arrays m !! items b = Some a /\
    insert_item this item m = Ret true m' /\
    objects m' !! this = Some b' /\ arrays m' !! items b' = Some a' /\
    items b' = items b /\ max_size b' = max_size b /\
    rear_idx b' = Z.rem (rear_idx b + 1) (max_size b) /\
    0 <= rear_idx b' < C /\
    a' = <[Z.to_nat (rear_idx b') := Some item]> a /\
    a' !! Z.to_nat (rear_idx b') = Some (Some item) /\
    current_count b' = current_count b + 1 /\
    front_idx b' = front_idx b /\
    (forall (i : nat) v, l !! i = Some v ->
       a !! slot b i = Some (Some v) /\ a' !! slot b i = Some (Some v)) /\
    buffer_inv m' this C (l ++ [item]).
Proof.
  intros Hinv Hroom.
  destruct Hinv as (b & a & Hobj & Harr & HC & Hrep).
  pose proof (rep_length _ _ _ Hrep) as Hl.
  pose proof (rep_shape _ _ _ Hrep) as [Hcap Hlen Hcnt Hfront Hrear].
  assert (Hr : 0 <= (rear_idx b + 1) mod max_size b < max_size b)
    by (apply Z.mod_pos_bound; lia).
  pose proof (insert_item_rep b a l item Hrep ltac:(lia)) as Hrep'.
  exists b, a, (inserted_obj b), (inserted_arr b a item). eexists.
  split; [exact Hobj|]. split; [exact Harr|].
  split; [eapply insert_item_runs; eauto using rep_shape; lia|].
  cbn [objects arrays inserted_obj items max_size rear_idx current_count front_idx].
  split; [apply lookup_insert_eq|]. split; [apply lookup_insert_eq|].
  split; [reflexivity|]. split; [reflexivity|].
  split; [symmetry; apply rem_is_mod; lia|].
  split; [lia|]. split; [reflexivity|].
  split; [apply list_lookup_insert_eq; lia|].
  split; [reflexivity|]. split; [reflexivity|].
  split.
  - intros i v Hi. split; [eapply rep_lookup; eauto|].
    pose proof (rep_lookup _ _ _ i v Hrep' ltac:(apply lookup_app_l_Some; exact Hi)) as H.
    exact H.
  - exists (inserted_obj b), (inserted_arr b a item). cbn [objects arrays].
    split; [apply lookup_insert_eq|]. split; [apply lookup_insert_eq|].
    split; [exact HC|]. exact Hrep'.
Qed.

Lemma holds_10_20_at_end_reached :
  (do_ Buffer_ctor 1%positive 3;
   do_ insert_all 1%positive [5; 10; 20];
   remove_item 1%positive) empty_memory
  = Ret (5, true) holds_10_20_at_end.
Proof. reflexivity. Qed.

Lemma holds_10_20_at_end_inv :
  buffer_inv holds_10_20_at_end 1%positive 3 [10; 20].
Proof.
  eexists _, _. split; [reflexivity|]. split; [reflexivity|].
  split; [reflexivity|].
  constructor; cbn; try reflexivity; unfold Int.INT_MAX; lia.
Qed.

Lemma insert_item_postcondition_witness :
  (buffer_inv holds_10_20_at_end 1%positive 3 [10; 20] /\
   Z.of_nat (length [10; 20]) < 3) /\
  exists b a b' a' m',
    objects holds_10_20_at_end !! 1%positive = Some b /\
    arrays holds_10_20_at_end !! items b = Some a /\
    insert_item 1%positive 30 holds_10_20_at_end = Ret true m' /\
    objects m' !! 1%positive = Some b' /\ arrays m' !! items b' = Some a' /\
    items b' = items b /\ max_size b' = max_size b /\
    rear_idx b' = Z.rem (rear_idx b + 1) (max_size b) /\
    0 <= rear_idx b' < 3 /\
    a' = <[Z.to_nat (rear_idx b') := Some 30]> a /\
    a' !! Z.to_nat (rear_idx b') = Some (Some 30) /\
    current_count b' = current_count b + 1 /\
    front_idx b' = front_idx b /\
    (forall (i : nat) v, [10; 20] !! i = Some v ->
       a !! slot b i = Some (Some v) /\ a' !! slot b i = Some (Some v)) /\
    buffer_inv m' 1%positive 3 ([10; 20] ++ [30]).
Proof.
  assert (H : Z.of_nat (length [10; 20]) < 3) by (simpl; lia).
  split; [split; [exact holds_10_20_at_end_inv|exact H]|].
  exact (insert_item_postcondition holds_10_20_at_end 1%positive 3 [10; 20] 30
           holds_10_20_at_end_inv H).
Defined.

(** C4. On a well-formed buffer that is not empty, [remove_item] returns
    [true] and hands out the item at [front_idx], which is the oldest
    item of the queue; [front_idx] moves to [(front_idx + 1) % max_size];
    [current_count] drops by one; the array is not written, and the queue
    held afterwards is the rest of the old one, in the same order. *)
Theorem remove_item_postcondition m this C l :
  buffer_inv m this C l -> (0 < length l)%nat ->
  exists b a v l' b' m',
    objects m !! this = Some b /\ arrays m !! items b = Some a /\
    l = v :: l' /\ a !! Z.to_nat (front_idx b) = Some (Some v) /\
    remove_item this m = Ret (v, true) m' /\
    objects m' !! this = Some b' /\ arrays m' = arrays m /\
    items b' = items b /\ max_size b' = max_size b /\
    front_idx b' = Z.rem (front_idx b + 1) (max_size b) /\
    0 <= front_idx b' < C /\
    current_count b' = current_count b - 1 /\
    rear_idx b' = rear_idx b /\
    buffer_inv m' this C l'.
Proof.
  intros Hinv Hpos.
  destruct l as [|v l']; [simpl in Hpos; lia|].
  destruct Hinv as (b & a & Hobj & Harr & HC & Hrep).
  pose proof (rep_length _ _ _ Hrep) as Hl. simpl in Hl.
  pose proof (rep_shape _ _ _ Hrep) as [Hcap Hlen Hcnt Hfront Hrear].
  destruct (rep_head _ _ _ Hrep ltac:(lia)) as (v0 & l0 & Heq & Hv).
  injection Heq as <- <-.
  assert (Hf : 0 <= (front_idx b + 1) mod max_size b < max_size b)
    by (apply Z.mod_pos_bound; lia).
  exists b, a, v, l', (removed_obj b). eexists.
  split; [exact Hobj|]. split; [exact Harr|]. split; [reflexivity|].
  split; [exact Hv|].
  split; [eapply remove_item_runs; eauto|].
  cbn [objects arrays removed_obj items max_size rear_idx current_count front_idx].
  split; [apply lookup_insert_eq|]. split; [reflexivity|].
  split; [reflexivity|]. split; [reflexivity|].
  split; [symmetry; apply rem_is_mod; lia|].
  split; [lia|]. split; [reflexivity|]. split; [reflexivity|].
  exists (removed_obj b), a. cbn [objects arrays].
  split; [apply lookup_insert_eq|]. split; [exact Harr|].
  split; [exact HC|]. apply remove_item_rep with v. exact Hrep.
Qed.

Lemma remove_item_postcondition_witness :
  (buffer_inv holds_10_20_at_end 1%positive 3 [10; 20] /\
   (0 < length [10; 20])%nat) /\
  exists b a v l' b' m',
    objects holds_10_20_at_end !! 1%positive = Some b /\
    arrays holds_10_20_at_end !! items b = Some a /\
    [10; 20] = v :: l' /\ a !! Z.to_nat (front_idx b) = Some (Some v) /\
    remove_item 1%positive holds_10_20_at_end = Ret (v, true) m' /\
    objects m' !! 1%positive = Some b' /\
    arrays m' = arrays holds_10_20_at_end /\
    items b' = items b /\ max_size b' = max_size b /\
    front_idx b' = Z.rem (front_idx b + 1) (max_size b) /\
    0 <= front_idx b' < 3 /\
    current_count b' = current_count b - 1 /\
    rear_idx b' = rear_idx b /\
    buffer_inv m' 1%positive 3 l'.
Proof.
  assert (H : (0 < length [10; 20])%nat) by (simpl; lia).
  split; [split; [exact holds_10_20_at_end_inv|exact H]|].
  exact (remove_item_postcondition holds_10_20_at_end 1%positive 3 [10; 20]
           holds_10_20_at_end_inv H).
Defined.

(** ** FIFO order and the invariant along traces *)

(** C1. A buffer of capacity [C] that is given the items of [l] (at most
    [C] of them) and then emptied by [length l] removals hands out [l] in
    order, is not full after any of the removals and is empty at the end.
    For any trace of calls that respects the blocking contract on a new
    buffer, the values removed are the values inserted, in insertion
    order: the removed sequence followed by what the buffer still holds
    is the inserted sequence, so the two are equal once the buffer is
    drained. *)
Theorem fifo_round_trip m this C l tr :
  0 < C <= Int.INT_MAX ->
  Z.of_nat (length l) <= C ->
  respects C 0 tr = true ->
  (exists m',
     round_trip this C l m = Ret ((fun v => (v, false)) <$> l, true) m') /\
  (exists out pending m',
     (do_ Buffer_ctor this C; run this tr) m = Ret out m' /\
     buffer_inv m' this C pending /\
     out ++ pending = inserted tr /\
     out = take (removals tr) (inserted tr) /\
     (pending = [] -> out = inserted tr)).
Proof.
  intros HC Hl Hok.
  destruct (Buffer_ctor_inv m this C HC) as (m0 & Hctor & Hinv0).
  split.
  - destruct (insert_all_inv this C l m0 [] Hinv0 ltac:(simpl; lia))
      as (m1 & Hins & Hinv1). simpl in Hinv1.
    destruct (drain_inv this C (length l) m1 l Hinv1 ltac:(lia))
      as (m2 & Hdr & Hinv2).
    rewrite firstn_all in Hdr. rewrite drop_all in Hinv2.
    exists m2. unfold round_trip.
    unfold bind at 1. rewrite Hctor.
    unfold bind at 1. rewrite Hins.
    unfold bind at 1. rewrite Hdr.
    unfold bind. rewrite (is_empty_inv _ _ _ _ Hinv2). reflexivity.
  - destruct (run_inv this C tr m0 [] Hinv0 Hok) as (m' & Hrun & Hinv').
    simpl in Hrun, Hinv'.
    exists (take (removals tr) (inserted tr)),
           (drop (removals tr) (inserted tr)), m'.
    split; [unfold bind; rewrite Hctor; exact Hrun|].
    split; [exact Hinv'|].
    split; [apply take_drop|].
    split; [reflexivity|].
    intros Hnil. rewrite <- (take_drop (removals tr) (inserted tr)) at 2.
    rewrite Hnil, app_nil_r. reflexivity.
Qed.

Lemma fifo_round_trip_witness :
  let tr := [Insert 1; Insert 2; Insert 3; Insert 4; Insert 5;
             Remove; Remove; Remove; Remove; Remove] in
  (0 < 5 <= Int.INT_MAX /\ Z.of_nat (length [1; 2; 3; 4; 5]) <= 5 /\
   respects 5 0 tr = true) /\
  (exists m',
     round_trip 1%positive 5 [1; 2; 3; 4; 5] empty_memory
     = Ret ([(1, false); (2, false); (3, false); (4, false); (5, false)], true)
           m') /\
  (exists out pending m',
     (do_ Buffer_ctor 1%positive 5; run 1%positive tr) empty_memory
     = Ret out m' /\
     buffer_inv m' 1%positive 5 pending /\
     out ++ pending = [1; 2; 3; 4; 5] /\
     out = [1; 2; 3; 4; 5] /\
     (pending = [] -> out = [1; 2; 3; 4; 5])).
Proof.
  intros tr.
  assert (H1 : 0 < 5 <= Int.INT_MAX) by (unfold Int.INT_MAX; lia).
  assert (H2 : Z.of_nat (length [1; 2; 3; 4; 5]) <= 5) by (simpl; lia).
  assert (H3 : respects 5 0 tr = true) by reflexivity.
  split; [auto|].
  exact (fifo_round_trip empty_memory 1%positive 5 [1; 2; 3; 4; 5] tr H1 H2 H3).
Defined.

(** C2. After any sequence of calls that respects the blocking contract
    on a new buffer of capacity [C], [current_count] is in [0, C],
    [rear_idx] is [(front_idx + current_count - 1) mod C] when the buffer
    is not empty, and the items inserted and not yet removed sit, oldest
    first, at the indices [front_idx], [front_idx + 1], ... modulo [C]. *)
Theorem invariant_preserved m this C tr :
  0 < C <= Int.INT_MAX ->
  respects C 0 tr = true ->
  exists out m' b a,
    (do_ Buffer_ctor this C; run this tr) m = Ret out m' /\
    objects m' !! this = Some b /\ arrays m' !! items b = Some a /\
    max_size b = C /\ Z.of_nat (length a) = C /\
    0 <= current_count b <= C /\
    0 <= front_idx b < C /\
    (0 < current_count b ->
     rear_idx b = (front_idx b + current_count b - 1) mod C) /\
    current_count b
    = Z.of_nat (length (drop (removals tr) (inserted tr))) /\
    (forall (i : nat) v,
       drop (removals tr) (inserted tr) !! i = Some v ->
       a !! Z.to_nat ((front_idx b + Z.of_nat i) mod C) = Some (Some v)).
Proof.
  intros HC Hok.
  destruct (Buffer_ctor_inv m this C HC) as (m0 & Hctor & Hinv0).
  destruct (run_inv this C tr m0 [] Hinv0 Hok) as (m' & Hrun & Hinv').
  simpl in Hrun, Hinv'.
  destruct Hinv' as (b & a & Hobj & Harr & Hmax & Hrep).
  exists (take (removals tr) (inserted tr)), m', b, a.
  split; [unfold bind; rewrite Hctor; exact Hrun|].
  pose proof (rep_shape _ _ _ Hrep) as [Hcap Hlen Hcnt Hfront Hrear].
  subst C.
  repeat (split; [first [assumption | lia | reflexivity]|]).
  split; [apply (rep_rear_eq _ _ _ Hrep)|].
  split; [apply (rep_length _ _ _ Hrep)|].
  intros i v Hi. apply (rep_lookup _ _ _ i v Hrep Hi).
Qed.

Lemma invariant_preserved_witness :
  let tr := [Insert 7; Insert 8; Remove; Insert 9; Insert 10] in
  (0 < 3 <= Int.INT_MAX /\ respects 3 0 tr = true) /\
  exists out m' b a,
    (do_ Buffer_ctor 1%positive 3; run 1%positive tr) empty_memory
    = Ret out m' /\
    objects m' !! 1%positive = Some b /\ arrays m' !! items b = Some a /\
    max_size b = 3 /\ Z.of_nat (length a) = 3 /\
    0 <= current_count b <= 3 /\
    0 <= front_idx b < 3 /\
    (0 < current_count b ->
     rear_idx b = (front_idx b + current_count b - 1) mod 3) /\
    current_count b = Z.of_nat (length [8; 9; 10]) /\
    (forall (i : nat) v,
       [8; 9; 10] !! i = Some v ->
       a !! Z.to_nat ((front_idx b + Z.of_nat i) mod 3) = Some (Some v)).
Proof.
  intros tr.
  assert (H1 : 0 < 3 <= Int.INT_MAX) by (unfold Int.INT_MAX; lia).
  assert (H2 : respects 3 0 tr = true) by reflexivity.
  split; [auto|].
  exact (invariant_preserved empty_memory 1%positive 3 tr H1 H2).
Defined.

(** ** Copies *)

Lemma memory_eta m : mkMemory (objects m) (arrays m) = m.
Proof. destruct m. reflexivity. Qed.

(** The copy loop, run for the [n] items [xs] found in the source from
    [index] onwards, writes them to the target from [i] onwards. *)
Lemma copy_items_runs dst src C : forall n xs i index m a d,
  length xs = n ->
  arrays m !! src = Some a -> arrays m !! dst = Some d -> src <> dst ->
  0 < C <= Int.INT_MAX -> Z.of_nat (length a) = C ->
  0 <= i -> i + Z.of_nat n <= Z.of_nat (length d) ->
  Z.of_nat (length d) <= Int.INT_MAX ->
  0 <= index < C ->
  (forall (k : nat) v, xs !! k = Some v ->
     a !! Z.to_nat ((index + Z.of_nat k) mod C) = Some (Some v)) ->
  copy_items dst src C n i index m
  = Ret tt (mkMemory (objects m)
              (<[dst := take (Z.to_nat i) d ++ (Some <$> xs)
                        ++ drop (Z.to_nat i + n) d]> (arrays m))).
Proof.
  induction n as [|n IH];
    intros xs i index m a d Hxs Hsrc Hdst Hne HC Ha Hi Hroom Hd Hidx Hall.
  - destruct xs; [|discriminate]. simpl.
    rewrite Nat.add_0_r, take_drop, insert_id by exact Hdst.
    unfold ret. rewrite memory_eta. reflexivity.
  - destruct xs as [|x xs]; [discriminate|]. injection Hxs as Hxs.
    unfold Int.INT_MAX in *.
    pose proof (Hall O x eq_refl) as Hx.
    rewrite Z.add_0_r, Z.mod_small in Hx by lia.
    cbn [copy_items]. unfold bind at 1. unfold read_array. rewrite Hsrc.
    destruct (Z.leb_spec 0 index); [|lia].
    destruct (Z.ltb_spec index (Z.of_nat (length a))); [|lia].
    cbn [andb]. rewrite Hx.
    unfold bind at 1. unfold write_array. rewrite Hdst.
    destruct (Z.leb_spec 0 i); [|lia].
    destruct (Z.ltb_spec i (Z.of_nat (length d))); [|lia].
    cbn [andb].
    rewrite !int_add_small
      by (unfold Int.in_range, Int.INT_MIN, Int.INT_MAX; lia).
    unfold bind at 1. rewrite int_rem_ok by lia.
    erewrite (IH xs (i + 1) ((index + 1) mod C) _ a
                (<[Z.to_nat i := Some x]> d)); cbn [objects arrays];
      try assumption; try lia.
    + f_equal. f_equal. rewrite insert_insert_eq. f_equal.
      replace (Z.to_nat (i + 1)) with (S (Z.to_nat i)) by lia.
      rewrite (take_S_r _ _ (Some x))
        by (apply list_lookup_insert_eq; lia).
      rewrite take_insert_ge by lia.
      rewrite drop_insert_lt by lia.
      rewrite <- app_assoc. simpl.
      replace (S (Z.to_nat i + n)) with (Z.to_nat i + S n)%nat by lia.
      reflexivity.
    + rewrite lookup_insert_ne by congruence. exact Hsrc.
    + apply lookup_insert_eq.
    + rewrite length_insert. lia.
    + rewrite length_insert. lia.
    + apply Z.mod_pos_bound. lia.
    + intros k v Hk. rewrite Zplus_mod_idemp_l.
      replace (index + 1 + Z.of_nat k) with (index + Z.of_nat (S k)) by lia.
      apply Hall. exact Hk.
Qed.

Lemma fresh_not_live (m : memory) p a :
  arrays m !! p = Some a -> p <> fresh (dom (arrays m)).
Proof.
  intros Hp Heq. apply (is_fresh (dom (arrays m))).
  rewrite <- Heq. apply elem_of_dom. eauto.
Qed.

Lemma copy_into_fresh m o a l (p := fresh (dom (arrays m))) :
  arrays m !! items o = Some a -> rep o a l ->
  copy_items p (items o) (max_size o) (Z.to_nat (current_count o)) 0
    (front_idx o)
    (mkMemory (objects m)
       (<[p := replicate (Z.to_nat (max_size o)) None]> (arrays m)))
  = Ret tt (mkMemory (objects m) (<[p := copied_arr o l]> (arrays m))).
Proof.
  intros Harr Hrep.
  pose proof (rep_length _ _ _ Hrep) as Hl.
  pose proof (rep_shape _ _ _ Hrep) as [Hcap Hlen Hcnt Hfront Hrear].
  pose proof (fresh_not_live m _ _ Harr) as Hne. fold p in Hne.
  erewrite (copy_items_runs p (items o) (max_size o) _ l 0 (front_idx o) _ a
              (replicate (Z.to_nat (max_size o)) None));
    cbn [objects arrays]; try assumption; try lia.
  - rewrite insert_insert_eq. unfold copied_arr.
    rewrite take_0, drop_replicate. simpl.
    replace (Z.to_nat (current_count o)) with (length l) by lia.
    reflexivity.
  - rewrite lookup_insert_ne by congruence. exact Harr.
  - apply lookup_insert_eq.
  - rewrite length_replicate. lia.
  - rewrite length_replicate. lia.
  - intros k v Hk. apply (rep_lookup _ _ _ k v Hrep Hk).
Qed.

Lemma Buffer_copy_ctor_runs m this other o a l :
  objects m !! other = Some o -> arrays m !! items o = Some a ->
  rep o a l ->
  Buffer_copy_ctor this other m
  = Ret tt (mkMemory
              (<[this := copied_obj (fresh (dom (arrays m))) o]> (objects m))
              (<[fresh (dom (arrays m)) := copied_arr o l]> (arrays m))).
Proof.
  intros Hobj Harr Hrep.
  pose proof (rep_cap _ _ _ Hrep) as Hcap.
  unfold Buffer_copy_ctor. unfold bind at 1. unfold get_obj. rewrite Hobj.
  unfold bind at 1. unfold new_array.
  destruct (Z.ltb_spec (max_size o) 0); [lia|].
  unfold bind at 1. unfold set_obj. cbn [objects arrays].
  pose proof (copy_into_fresh
           (mkMemory (<[this := copied_obj (fresh (dom (arrays m))) o]> (objects m))
                     (arrays m)) o a l Harr Hrep) as Hcopy.
  cbn [objects arrays] in Hcopy. unfold copied_obj in *. exact Hcopy.
Qed.

Lemma Buffer_assign_runs m this other t d o a l :
  this <> other ->
  objects m !! this = Some t -> arrays m !! items t = Some d ->
  objects m !! other = Some o -> arrays m !! items o = Some a ->
  items t <> items o -> rep o a l ->
  let heap := delete (items t) (arrays m) in
  Buffer_assign this other m
  = Ret this (mkMemory
                (<[this := copied_obj (fresh (dom heap)) o]> (objects m))
                (<[fresh (dom heap) := copied_arr o l]> heap)).
Proof.
  intros Hne Ht Hd Hobj Harr Hptr Hrep heap.
  pose proof (rep_cap _ _ _ Hrep) as Hcap.
  unfold Buffer_assign. destruct (decide (this = other)); [contradiction|].
  unfold bind at 1. unfold get_obj. rewrite Ht.
  unfold bind at 1. unfold delete_array. rewrite Hd.
  unfold bind at 1. cbn [objects arrays]. rewrite Hobj.
  unfold bind at 1. unfold new_array. cbn [objects arrays]. fold heap.
  destruct (Z.ltb_spec (max_size o) 0); [lia|].
  unfold bind at 1. unfold set_obj. cbn [objects arrays].
  unfold bind.
  assert (Harr' : heap !! items o = Some a).
  { unfold heap. rewrite lookup_delete_ne by congruence. exact Harr. }
  pose proof (copy_into_fresh
             (mkMemory (<[this := copied_obj (fresh (dom heap)) o]> (objects m))
                       heap) o a l Harr' Hrep) as Hcopy.
  cbn [objects arrays] in Hcopy. unfold copied_obj in *. rewrite Hcopy.
  reflexivity.
Qed.

Lemma copied_shape p o a l :
  rep o a l -> shape (copied_obj p o) (copied_arr o l).
Proof.
  intros Hrep. pose proof (rep_length _ _ _ Hrep) as Hl.
  pose proof (rep_shape _ _ _ Hrep) as [Hcap Hlen Hcnt Hfront Hrear].
  constructor; cbn [copied_obj max_size current_count front_idx rear_idx];
    try assumption.
  unfold copied_arr. rewrite length_app, length_fmap, length_replicate. lia.
Qed.

(** A copy of a buffer whose oldest item is at index 0 holds the same
    queue as the source. *)
Lemma copied_rep_front_0 p o a l :
  rep o a l -> front_idx o = 0 -> rep (copied_obj p o) (copied_arr o l) l.
Proof.
  intros Hrep Hf0. pose proof (rep_length _ _ _ Hrep) as Hl.
  pose proof (copied_shape p o a l Hrep) as [Hcap Hlen Hcnt Hfront Hrear].
  constructor; try assumption.
  - apply (rep_rear_live _ _ _ Hrep).
  - apply (rep_next _ _ _ Hrep).
  - apply live_slots_spec.
    cbn [copied_obj max_size current_count front_idx rear_idx] in *.
    split; [lia|]. intros i v Hi. unfold slot.
    cbn [copied_obj max_size front_idx]. rewrite Hf0, Z.add_0_l.
    pose proof (lookup_lt_Some _ _ _ Hi).
    rewrite Z.mod_small, Nat2Z.id by lia.
    unfold copied_arr. rewrite lookup_app_l by (rewrite length_fmap; lia).
    rewrite list_lookup_fmap, Hi. reflexivity.
Qed.

(** ** What calls on one buffer leave alone *)

Lemma insert_item_frame m this item t m2 :
  objects m !! this = Some t ->
  final_memory (insert_item this item m) = Some m2 ->
  writes_only this (items t) m m2.
Proof.
  intros Hobj H. unfold insert_item, int_rem, write_array in H.
  unfold_monad in H. rewrite Hobj in H.
  destruct (current_count t =? max_size t).
  { injection H as <-. repeat split; eauto. }
  rewrite Hobj in H. destruct (max_size t =? 0); [discriminate|].
  unfold_monad in H. rewrite Hobj in H. unfold_monad in H.
  destruct (arrays m !! items t) as [a|]; [|discriminate].
  destruct (_ && _); [|discriminate].
  unfold_monad in H. rewrite lookup_insert_eq in H. unfold_monad in H.
  injection H as <-. unfold writes_only. cbn [objects arrays].
  split; [intros x Hx; rewrite !lookup_insert_ne by congruence; reflexivity|].
  split; [intros q Hq; rewrite lookup_insert_ne by congruence; reflexivity|].
  eexists. split; [apply lookup_insert_eq|reflexivity].
Qed.

Lemma remove_item_frame m this t m2 :
  objects m !! this = Some t ->
  final_memory (remove_item this m) = Some m2 ->
  writes_only this (items t) m m2.
Proof.
  intros Hobj H. unfold remove_item, int_rem, read_array in H.
  unfold_monad in H. rewrite Hobj in H.
  destruct (current_count t =? 0).
  { injection H as <-. repeat split; eauto. }
  rewrite Hobj in H.
  destruct (arrays m !! items t) as [a|]; [|discriminate].
  destruct (_ && _); [|discriminate].
  destruct (a !! Z.to_nat (front_idx t)) as [[v|]|]; try discriminate.
  destruct (max_size t =? 0); [discriminate|].
  unfold_monad in H. rewrite Hobj in H. unfold_monad in H.
  rewrite lookup_insert_eq in H. unfold_monad in H.
  injection H as <-. unfold writes_only. cbn [objects arrays].
  split; [intros x Hx; rewrite !lookup_insert_ne by congruence; reflexivity|].
  split; [reflexivity|].
  eexists. split; [apply lookup_insert_eq|reflexivity].
Qed.

Lemma final_memory_bind {A B} (c : M A) (k : A -> M B) m m2 :
  final_memory (bind c k m) = Some m2 ->
  c m = Blocks m2 \/
  exists x m1, c m = Ret x m1 /\ final_memory (k x m1) = Some m2.
Proof.
  unfold bind. destruct (c m) as [x m1|m1| |]; simpl; intros H.
  - right. eauto.
  - left. congruence.
  - discriminate.
  - discriminate.
Qed.

Lemma final_memory_then_ret {A} (c : M A) m m2 :
  final_memory ((do_ c; ret tt) m) = Some m2 ->
  final_memory (c m) = Some m2.
Proof.
  intros H. apply final_memory_bind in H as [H|(x & m1 & H & H')].
  - rewrite H. reflexivity.
  - rewrite H. exact H'.
Qed.

Lemma writes_only_apart m m2 this other t o a :
  objects m !! this = Some t ->
  writes_only this (items t) m m2 ->
  apart m this other o a -> apart m2 this other o a.
Proof.
  intros Ht (Hobjs & Harrs & t' & Ht' & Hitems) (Hne & Ho & Ha & Hsep).
  specialize (Hsep t Ht).
  split; [exact Hne|].
  split; [rewrite Hobjs by congruence; exact Ho|].
  split; [rewrite Harrs by congruence; exact Ha|].
  intros t'' Ht''. rewrite Ht' in Ht''. injection Ht'' as <-. congruence.
Qed.

Lemma observer_frame (f : Buffer -> Z) this m m2 :
  final_memory ((do b <- get_obj this; ret (f b)) m) = Some m2 -> m2 = m.
Proof.
  unfold bind, get_obj, ret. destruct (objects m !! this); simpl; congruence.
Qed.

Lemma observer_bool_frame (f : Buffer -> bool) this m m2 :
  final_memory ((do b <- get_obj this; ret (f b)) m) = Some m2 -> m2 = m.
Proof.
  unfold bind, get_obj, ret. destruct (objects m !! this); simpl; congruence.
Qed.

Lemma read_array_frame p i m m2 :
  final_memory (read_array p i m) = Some m2 -> m2 = m.
Proof.
  unfold read_array. destruct (arrays m !! p) as [a|]; [|discriminate].
  destruct (_ && _); [|discriminate].
  destruct (a !! Z.to_nat i) as [[v|]|]; simpl; congruence.
Qed.

Lemma read_array_ret p i m v m1 :
  read_array p i m = Ret v m1 -> m1 = m.
Proof.
  intros H. apply (read_array_frame p i). rewrite H. reflexivity.
Qed.

Lemma read_array_not_blocks p i m m1 : read_array p i m <> Blocks m1.
Proof.
  unfold read_array. destruct (arrays m !! p) as [a|]; [|discriminate].
  destruct (_ && _); [|discriminate].
  destruct (a !! Z.to_nat i) as [[v|]|]; discriminate.
Qed.

Lemma int_rem_ret a b m r m1 : int_rem a b m = Ret r m1 -> m1 = m.
Proof.
  unfold int_rem, undefined, ret. destruct (b =? 0); congruence.
Qed.

Lemma int_rem_not_blocks a b m m1 : int_rem a b m <> Blocks m1.
Proof.
  unfold int_rem, undefined, ret. destruct (b =? 0); discriminate.
Qed.

Lemma print_items_frame p max count : forall n i index m m2,
  final_memory (print_items p max count n i index m) = Some m2 -> m2 = m.
Proof.
  induction n as [|n IH]; intros i index m m2 H.
  - simpl in H. congruence.
  - cbn [print_items] in H.
    apply final_memory_bind in H as [H|(v & m1 & Hv & H)];
      [exfalso; exact (read_array_not_blocks _ _ _ _ H)|].
    apply read_array_ret in Hv as ->.
    apply final_memory_bind in H as [H|(r & m1 & Hr & H)];
      [exfalso; exact (int_rem_not_blocks _ _ _ _ H)|].
    apply int_rem_ret in Hr as ->.
    apply final_memory_bind in H as [H|(s & m1 & Hs & H)].
    + apply (IH (Int.add i 1) r). rewrite H. reflexivity.
    + simpl in H. injection H as <-.
      apply (IH (Int.add i 1) r). rewrite Hs. reflexivity.
Qed.

Lemma print_buffer_frame this m m2 :
  final_memory (print_buffer this m) = Some m2 -> m2 = m.
Proof.
  unfold print_buffer, is_empty. intros H.
  apply final_memory_bind in H as [H|(e & m1 & He & H)].
  - apply (observer_bool_frame (fun b => current_count b =? 0) this).
    rewrite H. reflexivity.
  - assert (m1 = m) as ->.
    { apply (observer_bool_frame (fun b => current_count b =? 0) this).
      rewrite He. reflexivity. }
    destruct e; [simpl in H; congruence|].
    apply final_memory_bind in H as [H|(b & m1 & Hb & H)].
    + unfold get_obj in H. destruct (objects m !! this); discriminate.
    + assert (m1 = m) as ->.
      { unfold get_obj in Hb. destruct (objects m !! this); congruence. }
      apply final_memory_bind in H as [H|(s & m1 & Hs & H)].
      * eapply print_items_frame. rewrite H. reflexivity.
      * simpl in H. injection H as <-.
        eapply print_items_frame. rewrite Hs. reflexivity.
Qed.

Lemma write_array_ret p i v m m1 :
  write_array p i v m = Ret tt m1 ->
  objects m1 = objects m /\
  (forall q, q <> p -> arrays m1 !! q = arrays m !! q).
Proof.
  unfold write_array. destruct (arrays m !! p) as [a|]; [|discriminate].
  destruct (_ && _); [|discriminate].
  intros H. injection H as <-. cbn [objects arrays].
  split; [reflexivity|]. intros q Hq. apply lookup_insert_ne. congruence.
Qed.

Lemma write_array_not_blocks p i v m m1 : write_array p i v m <> Blocks m1.
Proof.
  unfold write_array. destruct (arrays m !! p) as [a|]; [|discriminate].
  destruct (_ && _); discriminate.
Qed.

Lemma copy_items_frame dst src C : forall n i index m m2,
  final_memory (copy_items dst src C n i index m) = Some m2 ->
  objects m2 = objects m /\
  (forall q, q <> dst -> arrays m2 !! q = arrays m !! q).
Proof.
  induction n as [|n IH]; intros i index m m2 H.
  - simpl in H. injection H as <-. split; reflexivity.
  - cbn [copy_items] in H.
    apply final_memory_bind in H as [H|(v & m1 & Hv & H)];
      [exfalso; exact (read_array_not_blocks _ _ _ _ H)|].
    apply read_array_ret in Hv as ->.
    apply final_memory_bind in H as [H|([] & m1 & Hw & H)];
      [exfalso; exact (write_array_not_blocks _ _ _ _ _ H)|].
    apply write_array_ret in Hw as [Hobjs Harrs].
    apply final_memory_bind in H as [H|(r & m3 & Hr & H)];
      [exfalso; exact (int_rem_not_blocks _ _ _ _ H)|].
    apply int_rem_ret in Hr as ->.
    apply IH in H as [Hobjs' Harrs'].
    split; [congruence|].
    intros q Hq. rewrite Harrs', Harrs by exact Hq. reflexivity.
Qed.

Lemma Buffer_assign_apart m m2 this src other o a :
  apart m this other o a ->
  final_memory (Buffer_assign this src m) = Some m2 ->
  apart m2 this other o a.
Proof.
  intros Hap H. pose proof Hap as (Hne & Ho & Ha & Hsep).
  unfold Buffer_assign in H.
  destruct (decide (this = src)); [simpl in H; congruence|].
  apply final_memory_bind in H as [H|(t & m1 & Ht & H)].
  { unfold get_obj in H. destruct (objects m !! this); discriminate. }
  unfold get_obj in Ht.
  destruct (objects m !! this) as [t0|] eqn:Hthis; [|discriminate].
  injection Ht as -> <-. specialize (Hsep t eq_refl).
  apply final_memory_bind in H as [H|([] & m1 & Hdel & H)].
  { unfold delete_array in H. destruct (arrays m !! items t); discriminate. }
  unfold delete_array in Hdel.
  destruct (arrays m !! items t) as [d|]; [|discriminate].
  injection Hdel as <-.
  apply final_memory_bind in H as [H|(s & m1 & Hs & H)].
  { unfold get_obj in H. destruct (objects _ !! src); discriminate. }
  unfold get_obj in Hs. cbn [objects] in Hs.
  destruct (objects m !! src) as [s0|]; [|discriminate].
  injection Hs as -> <-.
  apply final_memory_bind in H as [H|(p & m1 & Hp & H)].
  { unfold new_array in H. destruct (max_size s <? 0); discriminate. }
  unfold new_array in Hp. destruct (max_size s <? 0); [discriminate|].
  cbn [objects arrays] in Hp. injection Hp as <- <-.
  set (heap := delete (items t) (arrays m)) in *.
  assert (Hlive : heap !! items o = Some a).
  { unfold heap. rewrite lookup_delete_ne by congruence. exact Ha. }
  assert (Hfresh : items o <> fresh (dom heap)).
  { intros Heq. apply (is_fresh (dom heap)). rewrite <- Heq.
    apply elem_of_dom. eauto. }
  apply final_memory_bind in H as [H|([] & m1 & Hset & H)];
    [unfold set_obj in H; discriminate|].
  unfold set_obj in Hset. cbn [objects arrays] in Hset. injection Hset as <-.
  apply final_memory_bind in H as [H|(x & m1 & Hcp & H)].
  - assert (Hf : final_memory
                   (copy_items (fresh (dom heap)) (items s) (max_size s)
                      (Z.to_nat (current_count s)) 0 (front_idx s)
                      (mkMemory
                         (<[this := mkBuffer (fresh (dom heap)) (max_size s)
                                      (current_count s) (front_idx s)
                                      (rear_idx s)]> (objects m))
                         (<[fresh (dom heap) :=
                              replicate (Z.to_nat (max_size s)) None]> heap)))
                 = Some m2) by (rewrite H; reflexivity).
    apply copy_items_frame in Hf as [Hobjs Harrs]. cbn [objects arrays] in *.
    split; [exact Hne|].
    split; [rewrite Hobjs, lookup_insert_ne by congruence; exact Ho|].
    split; [rewrite Harrs, lookup_insert_ne by congruence; exact Hlive|].
    intros t'. rewrite Hobjs, lookup_insert_eq. intros Heq.
    injection Heq as <-. cbn [items]. congruence.
  - simpl in H. injection H as <-.
    assert (Hf : final_memory
                   (copy_items (fresh (dom heap)) (items s) (max_size s)
                      (Z.to_nat (current_count s)) 0 (front_idx s)
                      (mkMemory
                         (<[this := mkBuffer (fresh (dom heap)) (max_size s)
                                      (current_count s) (front_idx s)
                                      (rear_idx s)]> (objects m))
                         (<[fresh (dom heap) :=
                              replicate (Z.to_nat (max_size s)) None]> heap)))
                 = Some m1) by (rewrite Hcp; reflexivity).
    apply copy_items_frame in Hf as [Hobjs Harrs]. cbn [objects arrays] in *.
    split; [exact Hne|].
    split; [rewrite Hobjs, lookup_insert_ne by congruence; exact Ho|].
    split; [rewrite Harrs, lookup_insert_ne by congruence; exact Hlive|].
    intros t'. rewrite Hobjs, lookup_insert_eq. intros Heq.
    injection Heq as <-. cbn [items]. congruence.
Qed.

Lemma Buffer_dtor_apart m m2 this other o a :
  apart m this other o a ->
  final_memory (Buffer_dtor this m) = Some m2 ->
  apart m2 this other o a.
Proof.
  intros (Hne & Ho & Ha & Hsep) H. unfold Buffer_dtor in H.
  apply final_memory_bind in H as [H|(t & m1 & Ht & H)].
  { unfold get_obj in H. destruct (objects m !! this); discriminate. }
  unfold get_obj in Ht.
  destruct (objects m !! this) as [t0|] eqn:Hthis; [|discriminate].
  injection Ht as -> <-. specialize (Hsep t eq_refl).
  apply final_memory_bind in H as [H|([] & m1 & Hdel & H)].
  { unfold delete_array in H. destruct (arrays m !! items t); discriminate. }
  unfold delete_array in Hdel.
  destruct (arrays m !! items t) as [d|]; [|discriminate].
  injection Hdel as <-. cbn [final_memory objects arrays] in H.
  injection H as <-. unfold apart. cbn [objects arrays].
  split; [exact Hne|].
  split; [rewrite lookup_delete_ne by congruence; exact Ho|].
  split; [rewrite lookup_delete_ne by congruence; exact Ha|].
  intros t'. rewrite lookup_delete_eq. discriminate.
Qed.

Lemma do_call_apart m m2 this other o a c :
  apart m this other o a ->
  final_memory (do_call this c m) = Some m2 ->
  apart m2 this other o a.
Proof.
  intros Hap H.
  destruct c as [item| | | | | | |src|]; cbn [do_call] in H;
    try apply final_memory_then_ret in H.
  - destruct (objects m !! this) as [t|] eqn:Ht.
    + eapply writes_only_apart; eauto using insert_item_frame.
    + unfold insert_item, is_full, get_obj, bind in H. rewrite Ht in H.
      discriminate.
  - destruct (objects m !! this) as [t|] eqn:Ht.
    + eapply writes_only_apart; eauto using remove_item_frame.
    + unfold remove_item, is_empty, get_obj, bind in H. rewrite Ht in H.
      discriminate.
  - apply (observer_frame max_size) in H as ->. exact Hap.
  - apply (observer_frame current_count) in H as ->. exact Hap.
  - apply (observer_bool_frame (fun b => current_count b =? 0)) in H as ->.
    exact Hap.
  - apply (observer_bool_frame (fun b => current_count b =? max_size b)) in H
      as ->.
    exact Hap.
  - apply print_buffer_frame in H as ->. exact Hap.
  - eapply Buffer_assign_apart; eauto.
  - eapply Buffer_dtor_apart; eauto.
Qed.

Lemma do_calls_apart this other o a cs : forall m m2,
  apart m this other o a ->
  final_memory (do_calls this cs m) = Some m2 ->
  apart m2 this other o a.
Proof.
  induction cs as [|c cs IH]; intros m m2 Hap H.
  - simpl in H. injection H as <-. exact Hap.
  - cbn [do_calls] in H.
    apply final_memory_bind in H as [H|([] & m1 & Hc & H)].
    + eapply do_call_apart; eauto. rewrite H. reflexivity.
    + eapply IH; [|exact H].
      eapply do_call_apart; eauto. rewrite Hc. reflexivity.
Qed.

Lemma get_count_inv m this C l :
  buffer_inv m this C l -> get_count this m = Ret (Z.of_nat (length l)) m.
Proof.
  intros (b & a & Hobj & _ & _ & Hrep).
  unfold get_count, get_obj, bind, ret. rewrite Hobj.
  rewrite (rep_length _ _ _ Hrep). reflexivity.
Qed.

Lemma apart_inv m2 this other o a C l :
  max_size o = C -> rep o a l -> apart m2 this other o a ->
  objects m2 !! other = Some o /\ arrays m2 !! items o = Some a /\
  get_count other m2 = Ret (Z.of_nat (length l)) m2 /\
  buffer_inv m2 other C l.
Proof.
  intros HC Hrep (_ & Ho & Ha & _).
  assert (Hinv : buffer_inv m2 other C l) by (exists o, a; auto).
  split; [exact Ho|]. split; [exact Ha|].
  split; [apply (get_count_inv _ _ _ _ Hinv)|exact Hinv].
Qed.

(** ** Copy independence *)

(** C7. Let the buffer at [other] hold the queue [l].  The copy
    constructor makes a buffer at [this] with an array of its own; then
    [insert_item] on the copy returns [true] when [l] does not fill the
    capacity and leaves the object at [other], its array, its
    [get_count()] and the queue it holds as they were; and so does any
    sequence of member function calls on the copy (insert, remove, the
    observers, printing, assignment to the copy, its destruction). *)
Theorem copy_independence m this other C l :
  this <> other -> buffer_inv m other C l ->
  exists o a m1,
    objects m !! other = Some o /\ arrays m !! items o = Some a /\
    Buffer_copy_ctor this other m = Ret tt m1 /\
    (forall item, Z.of_nat (length l) < C ->
       exists m2,
         insert_item this item m1 = Ret true m2 /\
         objects m2 !! other = Some o /\ arrays m2 !! items o = Some a /\
         get_count other m2 = Ret (Z.of_nat (length l)) m2 /\
         buffer_inv m2 other C l) /\
    (forall cs m2,
       final_memory (do_calls this cs m1) = Some m2 ->
       objects m2 !! other = Some o /\ arrays m2 !! items o = Some a /\
       get_count other m2 = Ret (Z.of_nat (length l)) m2 /\
       buffer_inv m2 other C l).
Proof.
  intros Hne (o & a & Ho & Ha & HC & Hrep).
  pose proof (Buffer_copy_ctor_runs m this other o a l Ho Ha Hrep) as Hcopy.
  set (p := fresh (dom (arrays m))) in *.
  set (m1 := mkMemory (<[this := copied_obj p o]> (objects m))
                      (<[p := copied_arr o l]> (arrays m))) in *.
  assert (Hp : items o <> p) by (apply (fresh_not_live m _ _ Ha)).
  assert (Hthis : objects m1 !! this = Some (copied_obj p o))
    by apply lookup_insert_eq.
  assert (Hap : apart m1 this other o a).
  { split; [exact Hne|]. unfold m1. cbn [objects arrays].
    split; [rewrite lookup_insert_ne by congruence; exact Ho|].
    split; [rewrite lookup_insert_ne by congruence; exact Ha|].
    intros t. rewrite lookup_insert_eq. intros Heq. injection Heq as <-.
    cbn [copied_obj items]. congruence. }
  exists o, a, m1.
  split; [exact Ho|]. split; [exact Ha|]. split; [exact Hcopy|].
  split.
  - intros item Hroom.
    pose proof (rep_length _ _ _ Hrep) as Hl.
    assert (Hparr : arrays m1 !! items (copied_obj p o) = Some (copied_arr o l))
      by apply lookup_insert_eq.
    pose proof (insert_item_runs m1 this (copied_obj p o) (copied_arr o l) item
                  Hthis Hparr (copied_shape p o a l Hrep)) as Hrun.
    cbn [copied_obj max_size current_count] in Hrun.
    specialize (Hrun ltac:(lia)).
    eexists. split; [exact Hrun|].
    apply (apart_inv _ this other o a C l HC Hrep).
    eapply writes_only_apart; [exact Hthis| |exact Hap].
    apply (insert_item_frame m1 this item _ _ Hthis).
    rewrite Hrun. reflexivity.
  - intros cs m2 Hfin.
    apply (apart_inv _ this other o a C l HC Hrep).
    eapply do_calls_apart; eauto.
Qed.

Lemma holds_10_20_reached :
  (do_ Buffer_ctor 1%positive 5;
   do_ insert_item 1%positive 10;
   insert_item 1%positive 20) empty_memory
  = Ret true holds_10_20.
Proof. reflexivity. Qed.

Lemma holds_10_20_inv : buffer_inv holds_10_20 1%positive 5 [10; 20].
Proof.
  eexists _, _. split; [reflexivity|]. split; [reflexivity|].
  split; [reflexivity|].
  constructor; cbn; try reflexivity; unfold Int.INT_MAX; lia.
Qed.

Lemma copy_independence_witness :
  (2%positive <> 1%positive /\ buffer_inv holds_10_20 1%positive 5 [10; 20]) /\
  exists o a m1,
    objects holds_10_20 !! 1%positive = Some o /\
    arrays holds_10_20 !! items o = Some a /\
    Buffer_copy_ctor 2%positive 1%positive holds_10_20 = Ret tt m1 /\
    (forall item, Z.of_nat (length [10; 20]) < 5 ->
       exists m2,
         insert_item 2%positive item m1 = Ret true m2 /\
         objects m2 !! 1%positive = Some o /\ arrays m2 !! items o = Some a /\
         get_count 1%positive m2 = Ret (Z.of_nat (length [10; 20])) m2 /\
         buffer_inv m2 1%positive 5 [10; 20]) /\
    (forall cs m2,
       final_memory (do_calls 2%positive cs m1) = Some m2 ->
       objects m2 !! 1%positive = Some o /\ arrays m2 !! items o = Some a /\
       get_count 1%positive m2 = Ret (Z.of_nat (length [10; 20])) m2 /\
       buffer_inv m2 1%positive 5 [10; 20]).
Proof.
  assert (H1 : 2%positive <> 1%positive) by discriminate.
  split; [split; [exact H1|exact holds_10_20_inv]|].
  exact (copy_independence holds_10_20 2%positive 1%positive 5 [10; 20]
           H1 holds_10_20_inv).
Defined.

(** ** Printing *)

Lemma append_empty_r (s : string) : s +:+ "" = s.
Proof.
  induction s as [|c s IH]; [reflexivity|].
  change (String c (s +:+ "") = String c s). f_equal. exact IH.
Qed.

Lemma print_items_runs p C count : forall n xs i index m a,
  length xs = n -> arrays m !! p = Some a ->
  0 < C <= Int.INT_MAX -> Z.of_nat (length a) = C ->
  0 <= i -> i + Z.of_nat n = count -> count <= Int.INT_MAX ->
  0 <= index < C ->
  (forall (k : nat) v, xs !! k = Some v ->
     a !! Z.to_nat ((index + Z.of_nat k) mod C) = Some (Some v)) ->
  print_items p C count n i index m
  = Ret (comma_separated (show_int <$> xs)) m.
Proof.
  induction n as [|n IH];
    intros xs i index m a Hxs Harr HC Ha Hi Hcount Hmax Hidx Hall.
  - destruct xs; [|discriminate]. reflexivity.
  - destruct xs as [|x xs]; [discriminate|]. injection Hxs as Hxs.
    unfold Int.INT_MAX in *.
    pose proof (Hall O x eq_refl) as Hx.
    rewrite Z.add_0_r, Z.mod_small in Hx by lia.
    cbn [print_items]. unfold bind at 1. unfold read_array. rewrite Harr.
    destruct (Z.leb_spec 0 index); [|lia].
    destruct (Z.ltb_spec index (Z.of_nat (length a))); [|lia].
    cbn [andb]. rewrite Hx.
    rewrite int_add_small, int_sub_small, int_add_small
      by (unfold Int.in_range, Int.INT_MIN, Int.INT_MAX; lia).
    unfold bind at 1. rewrite int_rem_ok by lia.
    unfold bind.
    rewrite (IH xs (i + 1) ((index + 1) mod C) m a); try assumption; try lia.
    + unfold ret. f_equal. cbn [fmap list_fmap].
      destruct xs as [|y xs].
      * destruct (Z.ltb_spec i (count - 1)); [simpl in *; lia|].
        simpl. rewrite !append_empty_r. reflexivity.
      * destruct (Z.ltb_spec i (count - 1)); [|simpl in *; lia].
        reflexivity.
    + apply Z.mod_pos_bound. lia.
    + intros k v Hk. rewrite Zplus_mod_idemp_l.
      replace (index + 1 + Z.of_nat k) with (index + Z.of_nat (S k)) by lia.
      apply Hall. exact Hk.
Qed.

(** C8. For a well-formed buffer holding the queue [l], [print_buffer]
    writes, between ["Buffer: ["] and ["]"] and a newline, the marker
    ["-- Buffer is empty --"] when [l] is empty, and otherwise the items of
    [l], oldest first, separated by [", "]; the buffer is not changed. *)
Theorem print_buffer_renders m this C l :
  buffer_inv m this C l ->
  print_buffer this m
  = Ret ("Buffer: ["
         +:+ (if decide (l = []) then "-- Buffer is empty --"
              else comma_separated (show_int <$> l))
         +:+ "]" +:+ newline) m.
Proof.
  intros (b & a & Hobj & Harr & HC & Hrep).
  pose proof (rep_length _ _ _ Hrep) as Hl.
  pose proof (rep_shape _ _ _ Hrep) as [Hcap Hlen Hcnt Hfront Hrear].
  unfold print_buffer, is_empty. unfold bind at 1. unfold bind at 1.
  unfold get_obj at 1. rewrite Hobj. unfold ret at 1.
  destruct (Z.eqb_spec (current_count b) 0) as [H0|Hpos].
  - destruct l; [|simpl in Hl; lia]. reflexivity.
  - destruct (decide (l = [])) as [->|_]; [simpl in Hl; lia|].
    unfold bind at 1. unfold get_obj. rewrite Hobj.
    unfold bind.
    rewrite (print_items_runs (items b) (max_size b) (current_count b)
               (Z.to_nat (current_count b)) l 0 (front_idx b) m a);
      try assumption; try lia.
    + reflexivity.
    + intros k v Hk. apply (rep_lookup _ _ _ k v Hrep Hk).
Qed.

Lemma print_buffer_renders_witness :
  buffer_inv holds_10_20 1%positive 5 [10; 20] /\
  print_buffer 1%positive holds_10_20
  = Ret ("Buffer: [10, 20]" +:+ newline) holds_10_20.
Proof.
  split; [exact holds_10_20_inv|].
  exact (print_buffer_renders holds_10_20 1%positive 5 [10; 20] holds_10_20_inv).
Defined.

(** ** Copies of a buffer whose front has moved *)

(** C5 (at an input where the code departs from it).  The source holds
    [2, 3] and hands out 2, then 3.  Its copy, made by the copy
    constructor or by [operator=], has the items moved to the indices 0
    and 1 of its own array but keeps the source's [front_idx = 1] and
    [rear_idx = 2]: its first [remove_item] hands out 3, and its second
    reads a slot that was never written. *)
Theorem copy_keeps_source_indices :
  (do_ Buffer_ctor 1%positive 5;
   do_ insert_all 1%positive [1; 2; 3];
   remove_item 1%positive) empty_memory
  = Ret (1, true) holds_2_3 /\
  buffer_inv holds_2_3 1%positive 5 [2; 3] /\
  (exists m', run 1%positive [Remove; Remove] holds_2_3 = Ret [2; 3] m') /\
  Buffer_copy_ctor 2%positive 1%positive holds_2_3
  = Ret tt (mkMemory
              {[ 1%positive := mkBuffer 1%positive 5 2 1 2;
                 2%positive := mkBuffer 2%positive 5 2 1 2 ]}
              {[ 1%positive := [Some 1; Some 2; Some 3; None; None];
                 2%positive := [Some 2; Some 3; None; None; None] ]}) /\
  (exists m',
     (do_ Buffer_copy_ctor 2%positive 1%positive; run 2%positive [Remove])
       holds_2_3
     = Ret [3] m') /\
  (do_ Buffer_copy_ctor 2%positive 1%positive; run 2%positive [Remove; Remove])
    holds_2_3
  = Undefined /\
  (exists m',
     (do_ Buffer_ctor 2%positive 5;
      do_ Buffer_assign 2%positive 1%positive;
      run 2%positive [Remove]) holds_2_3
     = Ret [3] m') /\
  (do_ Buffer_ctor 2%positive 5;
   do_ Buffer_assign 2%positive 1%positive;
   run 2%positive [Remove; Remove]) holds_2_3
  = Undefined.
Proof.
  split; [reflexivity|].
  split.
  { eexists _, _. split; [reflexivity|]. split; [reflexivity|].
    split; [reflexivity|].
    constructor; cbn; try reflexivity; unfold Int.INT_MAX; lia. }
  split; [eexists; reflexivity|].
  split; [reflexivity|].
  split; [eexists; reflexivity|].
  split; [reflexivity|].
  split; [eexists; reflexivity|].
  reflexivity.
Qed.

(** ** Construction *)

(** C6 fails for [size = 0]: the constructor returns, nothing is
    signalled, and the capacity is 0, not a positive value. *)
Lemma ctor_accepts_zero :
  (do_ Buffer_ctor 1%positive 0; get_size 1%positive) empty_memory
  = Ret 0 (mkMemory {[ 1%positive := mkBuffer 1%positive 0 0 0 (-1) ]}
                    {[ 1%positive := [] ]}) /\
  ~ (forall size, size <= 0 ->
       exists e, Buffer_ctor 1%positive size empty_memory = Throws e).
Proof.
  split; [reflexivity|].
  intros H. destruct (H 0 ltac:(lia)) as [e He]. discriminate He.
Qed.

(** C6, amended.  The constructor checks nothing itself.  A negative
    [size] makes the array allocation throw, so there is no buffer to use.
    With [size = 0] construction succeeds: the capacity is 0, the buffer
    is empty and full at once, and [insert_item] and [remove_item] block. *)
Theorem ctor_nonpositive_size m this size :
  size <= 0 ->
  (size < 0 -> Buffer_ctor this size m = Throws bad_array_new_length) /\
  (size = 0 ->
   exists m',
     Buffer_ctor this size m = Ret tt m' /\
     get_size this m' = Ret 0 m' /\
     is_empty this m' = Ret true m' /\
     is_full this m' = Ret true m' /\
     (forall item, insert_item this item m' = Blocks m') /\
     remove_item this m' = Blocks m').
Proof.
  intros _. split.
  - intros Hneg. unfold Buffer_ctor, new_array, bind.
    destruct (Z.ltb_spec size 0); [reflexivity|lia].
  - intros ->. eexists. split; [apply Buffer_ctor_runs; lia|].
    unfold insert_item, remove_item, get_size, is_empty, is_full, get_obj,
      bind, ret, wait.
    cbn [objects arrays]. rewrite lookup_insert_eq.
    cbn [max_size current_count]. cbn [Z.eqb].
    repeat split; reflexivity.
Qed.

Lemma ctor_nonpositive_size_witness :
  (-3 <= 0 /\ 0 <= 0) /\
  Buffer_ctor 1%positive (-3) empty_memory = Throws bad_array_new_length /\
  exists m',
    Buffer_ctor 1%positive 0 empty_memory = Ret tt m' /\
    get_size 1%positive m' = Ret 0 m' /\
    is_empty 1%positive m' = Ret true m' /\
    is_full 1%positive m' = Ret true m' /\
    (forall item, insert_item 1%positive item m' = Blocks m') /\
    remove_item 1%positive m' = Blocks m'.
Proof.
  assert (H1 : -3 <= 0) by lia. assert (H2 : 0 <= 0) by lia.
  split; [split; assumption|].
  split.
  - apply (proj1 (ctor_nonpositive_size empty_memory 1%positive (-3) H1)). lia.
  - apply (proj2 (ctor_nonpositive_size empty_memory 1%positive 0 H2)).
    reflexivity.
Defined.

(** ** Self-assignment *)

(** C10. [b = b] returns [*this] and changes nothing: not the object,
    and no array. *)
Theorem self_assignment_identity (m : memory) (this : addr) :
  Buffer_assign this this m = Ret this m.
Proof.
  unfold Buffer_assign. destruct (decide (this = this)); [reflexivity|].
  contradiction.
Qed.

(** ** The observers and the boundaries of a well-formed buffer *)

(** X1. On a well-formed buffer holding the queue [l] the observers
    report the capacity, the length of [l], whether [l] is empty and
    whether [l] fills the capacity; they leave the store as it is, and the
    buffer is never empty and full at once. *)
Theorem observers_agree m this C l :
  buffer_inv m this C l ->
  get_size this m = Ret C m /\
  get_count this m = Ret (Z.of_nat (length l)) m /\
  is_empty this m = Ret (bool_decide (l = [])) m /\
  is_full this m = Ret (bool_decide (Z.of_nat (length l) = C)) m /\
  ~ (l = [] /\ Z.of_nat (length l) = C).
Proof.
  intros Hinv. pose proof Hinv as (b & a & Hobj & _ & HC & Hrep).
  pose proof (rep_length _ _ _ Hrep) as Hl.
  pose proof (rep_cap _ _ _ Hrep) as Hcap.
  split; [unfold get_size, get_obj, bind, ret; rewrite Hobj, HC; reflexivity|].
  split; [apply (get_count_inv _ _ _ _ Hinv)|].
  split.
  { rewrite (is_empty_inv _ _ _ _ Hinv). f_equal.
    destruct l as [|x l]; [reflexivity|].
    rewrite bool_decide_eq_false_2 by discriminate.
    apply Z.eqb_neq. cbn [length]. lia. }
  split.
  { rewrite (is_full_inv _ _ _ _ Hinv). f_equal.
    destruct (Z.eqb_spec (Z.of_nat (length l)) C).
    - rewrite bool_decide_eq_true_2 by assumption. reflexivity.
    - rewrite bool_decide_eq_false_2 by assumption. reflexivity. }
  intros [-> Hfull]. simpl in Hfull. lia.
Qed.

Lemma observers_agree_witness :
  buffer_inv holds_10_20 1%positive 5 [10; 20] /\
  get_size 1%positive holds_10_20 = Ret 5 holds_10_20 /\
  get_count 1%positive holds_10_20 = Ret 2 holds_10_20 /\
  is_empty 1%positive holds_10_20 = Ret false holds_10_20 /\
  is_full 1%positive holds_10_20 = Ret false holds_10_20 /\
  ~ ([10; 20] = [] /\ Z.of_nat (length [10; 20]) = 5).
Proof.
  split; [exact holds_10_20_inv|].
  exact (observers_agree holds_10_20 1%positive 5 [10; 20] holds_10_20_inv).
Defined.

(** X2. [insert_item] on a full well-formed buffer waits and changes
    nothing; once one [remove_item] has taken the oldest item, the same
    [insert_item] returns [true] and the new item is the youngest. *)
Theorem full_buffer_blocks_until_remove m this C l item :
  buffer_inv m this C l -> Z.of_nat (length l) = C ->
  insert_item this item m = Blocks m /\
  exists v l' m1 m2,
    l = v :: l' /\
    remove_item this m = Ret (v, true) m1 /\
    insert_item this item m1 = Ret true m2 /\
    buffer_inv m2 this C (l' ++ [item]).
Proof.
  intros Hinv Hfull. split.
  - pose proof (is_full_inv _ _ _ _ Hinv) as Hf.
    unfold insert_item, bind. rewrite Hf.
    destruct (Z.eqb_spec (Z.of_nat (length l)) C); [reflexivity|contradiction].
  - destruct l as [|v l'].
    { destruct Hinv as (b & a & _ & _ & HC & Hrep).
      pose proof (rep_cap _ _ _ Hrep). simpl in Hfull. lia. }
    destruct (remove_item_inv m this C v l' Hinv) as (m1 & Hrem & Hinv1).
    destruct (insert_item_inv m1 this C l' item Hinv1) as (m2 & Hins & Hinv2).
    { simpl in Hfull. lia. }
    exists v, l', m1, m2. auto.
Qed.

(** A full buffer of capacity 3, reached by three calls of
    [insert_item]. *)
Lemma full_3_inv :
  buffer_inv
    (mkMemory {[ 1%positive := mkBuffer 1%positive 3 3 0 2 ]}
              {[ 1%positive := [Some 7; Some 8; Some 9] ]})
    1%positive 3 [7; 8; 9].
Proof.
  eexists _, _. split; [reflexivity|]. split; [reflexivity|].
  split; [reflexivity|].
  constructor; cbn; try reflexivity; unfold Int.INT_MAX; lia.
Qed.

Lemma full_buffer_blocks_until_remove_witness :
  let m := mkMemory {[ 1%positive := mkBuffer 1%positive 3 3 0 2 ]}
                    {[ 1%positive := [Some 7; Some 8; Some 9] ]} in
  (buffer_inv m 1%positive 3 [7; 8; 9] /\ Z.of_nat (length [7; 8; 9]) = 3) /\
  insert_item 1%positive 10 m = Blocks m /\
  exists v l' m1 m2,
    [7; 8; 9] = v :: l' /\
    remove_item 1%positive m = Ret (v, true) m1 /\
    insert_item 1%positive 10 m1 = Ret true m2 /\
    buffer_inv m2 1%positive 3 (l' ++ [10]).
Proof.
  intros m.
  assert (H : Z.of_nat (length [7; 8; 9]) = 3) by reflexivity.
  split; [split; [exact full_3_inv|exact H]|].
  exact (full_buffer_blocks_until_remove m 1%positive 3 [7; 8; 9] 10
           full_3_inv H).
Defined.

(** X3. [remove_item] on an empty well-formed buffer waits and changes
    nothing; once an item has been inserted, [remove_item] returns it and
    the buffer is empty again. *)
Theorem empty_buffer_blocks_until_insert m this C item :
  buffer_inv m this C [] ->
  remove_item this m = Blocks m /\
  exists m1 m2,
    insert_item this item m = Ret true m1 /\
    remove_item this m1 = Ret (item, true) m2 /\
    buffer_inv m2 this C [].
Proof.
  intros Hinv. split.
  - pose proof (is_empty_inv _ _ _ _ Hinv) as He.
    unfold remove_item, bind. rewrite He. reflexivity.
  - assert (Hroom : Z.of_nat (length (@nil buffer_item)) < C).
    { destruct Hinv as (b & a & _ & _ & HC & Hrep).
      pose proof (rep_cap _ _ _ Hrep). simpl. lia. }
    destruct (insert_item_inv m this C [] item Hinv Hroom) as (m1 & Hins & Hinv1).
    simpl in Hinv1.
    destruct (remove_item_inv m1 this C item [] Hinv1) as (m2 & Hrem & Hinv2).
    exists m1, m2. auto.
Qed.

(** An empty buffer of capacity 3 whose indices have moved on: three
    calls of [insert_item] and three of [remove_item] lead to it. *)
Lemma drained_3_inv :
  buffer_inv
    (mkMemory {[ 1%positive := mkBuffer 1%positive 3 0 0 2 ]}
              {[ 1%positive := [Some 7; Some 8; Some 9] ]})
    1%positive 3 [].
Proof.
  eexists _, _. split; [reflexivity|]. split; [reflexivity|].
  split; [reflexivity|].
  constructor; cbn; try reflexivity; unfold Int.INT_MAX; lia.
Qed.

Lemma empty_buffer_blocks_until_insert_witness :
  let m := mkMemory {[ 1%positive := mkBuffer 1%positive 3 0 0 2 ]}
                    {[ 1%positive := [Some 7; Some 8; Some 9] ]} in
  buffer_inv m 1%positive 3 [] /\
  remove_item 1%positive m = Blocks m /\
  exists m1 m2,
    insert_item 1%positive 4 m = Ret true m1 /\
    remove_item 1%positive m1 = Ret (4, true) m2 /\
    buffer_inv m2 1%positive 3 [].
Proof.
  intros m. split; [exact drained_3_inv|].
  exact (empty_buffer_blocks_until_insert m 1%positive 3 4 drained_3_inv).
Defined.

(** ** What a copy is made of *)

Lemma copied_arr_live o l (i : nat) v :
  l !! i = Some v -> copied_arr o l !! i = Some (Some v).
Proof.
  intros Hi. unfold copied_arr.
  rewrite lookup_app_l
    by (rewrite length_fmap; apply lookup_lt_Some in Hi; exact Hi).
  rewrite list_lookup_fmap, Hi. reflexivity.
Qed.

Lemma copied_arr_rest o l (i : nat) :
  (length l <= i)%nat -> Z.of_nat i < max_size o ->
  copied_arr o l !! i = Some None.
Proof.
  intros Hge Hlt. unfold copied_arr.
  rewrite lookup_app_r by (rewrite length_fmap; exact Hge).
  rewrite length_fmap. apply lookup_replicate_2. lia.
Qed.

(** X4. The copy constructor, given a well-formed source holding [l],
    returns.  The copy has the source's [max_size], [current_count],
    [front_idx] and [rear_idx] and an array of its own, not live before,
    of [max_size] slots: the items of [l] in order from index 0, then
    slots never written.  No other object and no other array changes. *)
Theorem copy_ctor_effect m this other C l o :
  buffer_inv m other C l -> objects m !! other = Some o ->
  exists p d m1,
    Buffer_copy_ctor this other m = Ret tt m1 /\
    arrays m !! p = None /\
    objects m1 !! this
    = Some (mkBuffer p (max_size o) (current_count o) (front_idx o)
                     (rear_idx o)) /\
    arrays m1 !! p = Some d /\ Z.of_nat (length d) = C /\
    (forall (i : nat) v, l !! i = Some v -> d !! i = Some (Some v)) /\
    (forall i : nat, (length l <= i)%nat -> Z.of_nat i < C ->
       d !! i = Some None) /\
    (forall x, x <> this -> objects m1 !! x = objects m !! x) /\
    (forall q, q <> p -> arrays m1 !! q = arrays m !! q).
Proof.
  intros (o' & a & Ho & Ha & HC & Hrep) Hobj.
  rewrite Hobj in Ho. injection Ho as <-.
  pose proof (copied_shape (fresh (dom (arrays m))) o a l Hrep) as Hshape.
  exists (fresh (dom (arrays m))), (copied_arr o l). eexists.
  split; [apply (Buffer_copy_ctor_runs m this other o a l Hobj Ha Hrep)|].
  cbn [objects arrays].
  split; [apply not_elem_of_dom, is_fresh|].
  split; [apply lookup_insert_eq|].
  split; [apply lookup_insert_eq|].
  split; [rewrite <- HC; apply (shape_len _ _ Hshape)|].
  split; [intros i v Hi; apply copied_arr_live; exact Hi|].
  split; [intros i Hge Hlt; apply copied_arr_rest; [exact Hge|lia]|].
  split; intros x Hx; apply lookup_insert_ne; congruence.
Qed.

Lemma copy_ctor_effect_witness :
  (buffer_inv holds_2_3 1%positive 5 [2; 3] /\
   objects holds_2_3 !! 1%positive = Some (mkBuffer 1%positive 5 2 1 2)) /\
  exists p d m1,
    Buffer_copy_ctor 2%positive 1%positive holds_2_3 = Ret tt m1 /\
    arrays holds_2_3 !! p = None /\
    objects m1 !! 2%positive = Some (mkBuffer p 5 2 1 2) /\
    arrays m1 !! p = Some d /\ Z.of_nat (length d) = 5 /\
    (forall (i : nat) v, [2; 3] !! i = Some v -> d !! i = Some (Some v)) /\
    (forall i : nat, (length [2; 3] <= i)%nat -> Z.of_nat i < 5 ->
       d !! i = Some None) /\
    (forall x, x <> 2%positive -> objects m1 !! x = objects holds_2_3 !! x) /\
    (forall q, q <> p -> arrays m1 !! q = arrays holds_2_3 !! q).
Proof.
  assert (H1 : buffer_inv holds_2_3 1%positive 5 [2; 3]).
  { eexists _, _. split; [reflexivity|]. split; [reflexivity|].
    split; [reflexivity|].
    constructor; cbn; try reflexivity; unfold Int.INT_MAX; lia. }
  assert (H2 : objects holds_2_3 !! 1%positive
               = Some (mkBuffer 1%positive 5 2 1 2)) by reflexivity.
  split; [split; assumption|].
  exact (copy_ctor_effect holds_2_3 2%positive 1%positive 5 [2; 3] _ H1 H2).
Defined.

(** X5. A copy of a well-formed buffer whose [front_idx] is 0 is a
    well-formed buffer holding the same queue, next to the unchanged
    source; emptying the copy hands out that queue in order. *)
Theorem copy_faithful_at_front_0 m this other C l o :
  this <> other ->
  buffer_inv m other C l -> objects m !! other = Some o ->
  front_idx o = 0 ->
  exists m1 m2,
    Buffer_copy_ctor this other m = Ret tt m1 /\
    buffer_inv m1 this C l /\ buffer_inv m1 other C l /\
    drain this (length l) m1 = Ret ((fun v => (v, false)) <$> l) m2 /\
    buffer_inv m2 this C [] /\ buffer_inv m2 other C l.
Proof.
  intros Hne (o' & a & Ho & Ha & HC & Hrep) Hobj Hf0.
  rewrite Hobj in Ho. injection Ho as <-.
  pose proof (Buffer_copy_ctor_runs m this other o a l Hobj Ha Hrep) as Hcopy.
  set (p := fresh (dom (arrays m))) in *.
  set (m1 := mkMemory (<[this := copied_obj p o]> (objects m))
                      (<[p := copied_arr o l]> (arrays m))) in *.
  assert (Hp : items o <> p) by (apply (fresh_not_live m _ _ Ha)).
  assert (Hthis : buffer_inv m1 this C l).
  { exists (copied_obj p o), (copied_arr o l). unfold m1. cbn [objects arrays].
    split; [apply lookup_insert_eq|].
    split; [apply lookup_insert_eq|]. split; [exact HC|].
    apply (copied_rep_front_0 p o a l Hrep Hf0). }
  assert (Hap : apart m1 this other o a).
  { split; [exact Hne|]. unfold m1. cbn [objects arrays].
    split; [rewrite lookup_insert_ne by congruence; exact Hobj|].
    split; [rewrite lookup_insert_ne by congruence; exact Ha|].
    intros t. rewrite lookup_insert_eq. intros Heq. injection Heq as <-.
    cbn [copied_obj items]. congruence. }
  destruct (drain_inv this C (length l) m1 l Hthis ltac:(lia))
    as (m2 & Hdr & Hinv2).
  rewrite firstn_all in Hdr. rewrite drop_all in Hinv2.
  exists m1, m2.
  split; [exact Hcopy|]. split; [exact Hthis|].
  split; [exists o, a; destruct Hap as (_ & ? & ? & _); auto|].
  split; [exact Hdr|]. split; [exact Hinv2|].
  exists o, a.
  assert (Hw : forall n mm mm' rs, drain this n mm = Ret rs mm' ->
               apart mm this other o a -> apart mm' this other o a).
  { induction n as [|n IH]; intros mm mm' rs Hrun Hapm; simpl in Hrun.
    - injection Hrun as _ <-. exact Hapm.
    - unfold bind at 1 in Hrun.
      destruct (remove_item this mm) as [r mr| | |] eqn:Hr; try discriminate.
      assert (Hapr : apart mr this other o a).
      { destruct (objects mm !! this) as [t|] eqn:Ht.
        - eapply writes_only_apart; [exact Ht| |exact Hapm].
          apply (remove_item_frame mm this t mr Ht). rewrite Hr. reflexivity.
        - unfold remove_item, is_empty, get_obj, bind in Hr.
          rewrite Ht in Hr. discriminate. }
      unfold bind at 1 in Hrun.
      destruct (is_full this mr) as [fl mf| | |] eqn:Hfl; try discriminate.
      assert (mf = mr) as ->.
      { apply (observer_bool_frame
                 (fun b => current_count b =? max_size b) this).
        unfold is_full in Hfl. rewrite Hfl. reflexivity. }
      unfold bind in Hrun.
      destruct (drain this n mr) as [rs' mn| | |] eqn:Hn; try discriminate.
      injection Hrun as _ <-. eapply IH; eauto. }
  destruct (Hw _ _ _ _ Hdr Hap) as (_ & ? & ? & _). auto.
Qed.

Lemma copy_faithful_at_front_0_witness :
  (2%positive <> 1%positive /\
   buffer_inv holds_10_20 1%positive 5 [10; 20] /\
   objects holds_10_20 !! 1%positive = Some (mkBuffer 1%positive 5 2 0 1) /\
   front_idx (mkBuffer 1%positive 5 2 0 1) = 0) /\
  exists m1 m2,
    Buffer_copy_ctor 2%positive 1%positive holds_10_20 = Ret tt m1 /\
    buffer_inv m1 2%positive 5 [10; 20] /\
    buffer_inv m1 1%positive 5 [10; 20] /\
    drain 2%positive (length [10; 20]) m1 = Ret [(10, false); (20, false)] m2 /\
    buffer_inv m2 2%positive 5 [] /\ buffer_inv m2 1%positive 5 [10; 20].
Proof.
  assert (H1 : 2%positive <> 1%positive) by discriminate.
  assert (H2 : objects holds_10_20 !! 1%positive
               = Some (mkBuffer 1%positive 5 2 0 1)) by reflexivity.
  assert (H3 : front_idx (mkBuffer 1%positive 5 2 0 1) = 0) by reflexivity.
  split; [repeat split; try assumption; exact holds_10_20_inv|].
  exact (copy_faithful_at_front_0 holds_10_20 2%positive 1%positive 5 [10; 20]
           _ H1 holds_10_20_inv H2 H3).
Defined.

Lemma holds_2_3_inv : buffer_inv holds_2_3 1%positive 5 [2; 3].
Proof.
  eexists _, _. split; [reflexivity|]. split; [reflexivity|].
  split; [reflexivity|].
  constructor; cbn; try reflexivity; unfold Int.INT_MAX; lia.
Qed.

(** [remove_item] on an object with at least one item counted, whose
    array has the value [v] at [front_idx]. *)
Lemma remove_item_reads m this b a v :
  objects m !! this = Some b -> arrays m !! items b = Some a ->
  shape b a -> 0 < current_count b ->
  a !! Z.to_nat (front_idx b) = Some (Some v) ->
  remove_item this m
  = Ret (v, true) (mkMemory (<[this := removed_obj b]> (objects m)) (arrays m)).
Proof.
  intros Hobj Harr [Hcap Hlen Hcnt Hfront Hrear] Hpos Hv.
  unfold Int.INT_MAX in Hcap.
  unfold remove_item. unfold_monad. rewrite Hobj.
  destruct (Z.eqb_spec (current_count b) 0) as [Heq|_]; [lia|].
  rewrite Hobj. unfold read_array. rewrite Harr.
  destruct (Z.leb_spec 0 (front_idx b)); [|lia].
  destruct (Z.ltb_spec (front_idx b) (Z.of_nat (length a))); [|lia].
  simpl. rewrite Hv.
  rewrite int_add_small by (unfold Int.in_range, Int.INT_MIN, Int.INT_MAX; lia).
  rewrite int_rem_ok by lia. rewrite Hobj. simpl.
  rewrite lookup_insert_eq. simpl. rewrite insert_insert_eq.
  rewrite int_sub_small by (unfold Int.in_range, Int.INT_MIN, Int.INT_MAX; lia).
  reflexivity.
Qed.

(** [remove_item] on an object with at least one item counted, whose
    array was never written at [front_idx]. *)
Lemma remove_item_unwritten m this b a :
  objects m !! this = Some b -> arrays m !! items b = Some a ->
  shape b a -> 0 < current_count b ->
  a !! Z.to_nat (front_idx b) = Some None ->
  remove_item this m = Undefined.
Proof.
  intros Hobj Harr [Hcap Hlen Hcnt Hfront Hrear] Hpos Hv.
  unfold remove_item. unfold_monad. rewrite Hobj.
  destruct (Z.eqb_spec (current_count b) 0) as [Heq|_]; [lia|].
  rewrite Hobj. unfold read_array. rewrite Harr.
  destruct (Z.leb_spec 0 (front_idx b)); [|lia].
  destruct (Z.ltb_spec (front_idx b) (Z.of_nat (length a))); [|lia].
  simpl. rewrite Hv. reflexivity.
Qed.

(** X6. The first [remove_item] on a copy of a well-formed, non-empty
    buffer looks at index [front_idx] of the copy's array, where the
    copy loop put the item number [front_idx] of the queue (counted from
    0, the oldest): that item is handed out when the queue is that long,
    and otherwise the slot was never written and the call is undefined. *)
Theorem copy_first_remove m this other C l o :
  buffer_inv m other C l -> objects m !! other = Some o -> l <> [] ->
  exists m1,
    Buffer_copy_ctor this other m = Ret tt m1 /\
    match l !! Z.to_nat (front_idx o) with
    | Some v => exists m2, remove_item this m1 = Ret (v, true) m2
    | None => remove_item this m1 = Undefined
    end.
Proof.
  intros (o' & a & Ho & Ha & HC & Hrep) Hobj Hne.
  rewrite Hobj in Ho. injection Ho as <-.
  pose proof (rep_length _ _ _ Hrep) as Hl.
  pose proof (rep_shape _ _ _ Hrep) as [Hcap Hlen Hcnt Hfront Hrear].
  pose proof (Buffer_copy_ctor_runs m this other o a l Hobj Ha Hrep) as Hcopy.
  set (p := fresh (dom (arrays m))) in *.
  set (m1 := mkMemory (<[this := copied_obj p o]> (objects m))
                      (<[p := copied_arr o l]> (arrays m))) in *.
  assert (Hthis : objects m1 !! this = Some (copied_obj p o))
    by apply lookup_insert_eq.
  assert (Hparr : arrays m1 !! items (copied_obj p o) = Some (copied_arr o l))
    by apply lookup_insert_eq.
  assert (Hpos : 0 < current_count (copied_obj p o)).
  { cbn [copied_obj current_count]. destruct l; [contradiction|].
    simpl in Hl. lia. }
  exists m1. split; [exact Hcopy|].
  destruct (l !! Z.to_nat (front_idx o)) as [v|] eqn:Hv.
  - eexists.
    apply (remove_item_reads m1 this _ _ v Hthis Hparr
             (copied_shape p o a l Hrep) Hpos).
    cbn [copied_obj front_idx]. apply copied_arr_live. exact Hv.
  - apply (remove_item_unwritten m1 this _ _ Hthis Hparr
             (copied_shape p o a l Hrep) Hpos).
    cbn [copied_obj front_idx]. apply copied_arr_rest.
    + apply lookup_ge_None. exact Hv.
    + lia.
Qed.

Lemma copy_first_remove_witness :
  (buffer_inv holds_2_3 1%positive 5 [2; 3] /\
   objects holds_2_3 !! 1%positive = Some (mkBuffer 1%positive 5 2 1 2) /\
   [2; 3] <> []) /\
  exists m1,
    Buffer_copy_ctor 2%positive 1%positive holds_2_3 = Ret tt m1 /\
    exists m2, remove_item 2%positive m1 = Ret (3, true) m2.
Proof.
  assert (H2 : objects holds_2_3 !! 1%positive
               = Some (mkBuffer 1%positive 5 2 1 2)) by reflexivity.
  assert (H3 : [2; 3] <> []) by discriminate.
  split; [repeat split; try assumption; exact holds_2_3_inv|].
  exact (copy_first_remove holds_2_3 2%positive 1%positive 5 [2; 3] _
           holds_2_3_inv H2 H3).
Defined.

(** X7. [a = b] for two well-formed buffers with arrays of their own
    returns [*this]; the target gets the source's four members and a
    newly allocated array with the source's queue from index 0; the
    target's old array is released, so the number of live arrays stays
    the same; the source still holds its queue, and the target holds it
    too when the source's [front_idx] is 0. *)
Theorem assign_effect m this other C C' l l' t o :
  this <> other ->
  buffer_inv m this C' l' -> buffer_inv m other C l ->
  objects m !! this = Some t -> objects m !! other = Some o ->
  items t <> items o ->
  exists p m1,
    Buffer_assign this other m = Ret this m1 /\
    p = fresh (dom (delete (items t) (arrays m))) /\
    objects m1 !! this
    = Some (mkBuffer p (max_size o) (current_count o) (front_idx o)
                     (rear_idx o)) /\
    arrays m1 = <[p := copied_arr o l]> (delete (items t) (arrays m)) /\
    (p <> items t -> arrays m1 !! items t = None) /\
    size (arrays m1) = size (arrays m) /\
    buffer_inv m1 other C l /\
    (front_idx o = 0 -> buffer_inv m1 this C l).
Proof.
  intros Hne (t' & d & Ht & Hd & _ & _) (o' & a & Ho & Ha & HC & Hrep)
    Hthis Hobj Hptr.
  rewrite Hthis in Ht. injection Ht as <-.
  rewrite Hobj in Ho. injection Ho as <-.
  pose proof (Buffer_assign_runs m this other t d o a l Hne Hthis Hd Hobj Ha
                Hptr Hrep) as Hrun.
  cbv zeta in Hrun.
  set (heap := delete (items t) (arrays m)) in *.
  set (p := fresh (dom heap)) in *.
  assert (Hfresh : heap !! p = None) by (apply not_elem_of_dom, is_fresh).
  assert (Hlive : heap !! items o = Some a).
  { unfold heap. rewrite lookup_delete_ne by congruence. exact Ha. }
  assert (Hp : items o <> p) by congruence.
  exists p. eexists. split; [exact Hrun|]. cbn [objects arrays].
  split; [reflexivity|].
  split; [apply lookup_insert_eq|].
  split; [reflexivity|].
  split.
  { intros Hpt. rewrite lookup_insert_ne by congruence.
    unfold heap. apply lookup_delete_eq. }
  split.
  { rewrite map_size_insert_None by exact Hfresh.
    unfold heap. rewrite map_size_delete_Some by eauto.
    assert (size (arrays m) <> 0%nat).
    { intros H0. apply map_size_empty_inv in H0. rewrite H0 in Hd.
      rewrite lookup_empty in Hd. discriminate. }
    lia. }
  split.
  { exists o, a. cbn [objects arrays].
    split; [rewrite lookup_insert_ne by congruence; exact Hobj|].
    split; [rewrite lookup_insert_ne by congruence; exact Hlive|].
    split; [exact HC|exact Hrep]. }
  intros Hf0. exists (copied_obj p o), (copied_arr o l). cbn [objects arrays].
  split; [apply lookup_insert_eq|].
  split; [apply lookup_insert_eq|]. split; [exact HC|].
  apply (copied_rep_front_0 p o a l Hrep Hf0).
Qed.

Lemma two_buffers_reached :
  (do_ Buffer_ctor 1%positive 5;
   do_ insert_all 1%positive [10; 20];
   do_ Buffer_ctor 2%positive 3;
   insert_item 2%positive 7) empty_memory
  = Ret true two_buffers.
Proof. reflexivity. Qed.

Lemma two_buffers_inv_1 : buffer_inv two_buffers 1%positive 5 [10; 20].
Proof.
  eexists _, _. split; [reflexivity|]. split; [reflexivity|].
  split; [reflexivity|].
  constructor; cbn; try reflexivity; unfold Int.INT_MAX; lia.
Qed.

Lemma two_buffers_inv_2 : buffer_inv two_buffers 2%positive 3 [7].
Proof.
  eexists _, _. split; [reflexivity|]. split; [reflexivity|].
  split; [reflexivity|].
  constructor; cbn; try reflexivity; unfold Int.INT_MAX; lia.
Qed.

Lemma assign_effect_witness :
  let t := mkBuffer 2%positive 3 1 0 0 in
  let o := mkBuffer 1%positive 5 2 0 1 in
  (2%positive <> 1%positive /\
   buffer_inv two_buffers 2%positive 3 [7] /\
   buffer_inv two_buffers 1%positive 5 [10; 20] /\
   objects two_buffers !! 2%positive = Some t /\
   objects two_buffers !! 1%positive = Some o /\
   items t <> items o) /\
  exists p m1,
    Buffer_assign 2%positive 1%positive two_buffers = Ret 2%positive m1 /\
    p = fresh (dom (delete (items t) (arrays two_buffers))) /\
    objects m1 !! 2%positive = Some (mkBuffer p 5 2 0 1) /\
    arrays m1
    = <[p := copied_arr o [10; 20]]> (delete (items t) (arrays two_buffers)) /\
    (p <> items t -> arrays m1 !! items t = None) /\
    size (arrays m1) = size (arrays two_buffers) /\
    buffer_inv m1 1%positive 5 [10; 20] /\
    (front_idx o = 0 -> buffer_inv m1 2%positive 5 [10; 20]).
Proof.
  intros t o.
  assert (H1 : 2%positive <> 1%positive) by discriminate.
  assert (H2 : objects two_buffers !! 2%positive = Some t) by reflexivity.
  assert (H3 : objects two_buffers !! 1%positive = Some o) by reflexivity.
  assert (H4 : items t <> items o) by discriminate.
  split.
  { repeat split; try assumption;
      [exact two_buffers_inv_2 | exact two_buffers_inv_1]. }
  exact (assign_effect two_buffers 2%positive 1%positive 5 3 [10; 20] [7] t o
           H1 two_buffers_inv_2 two_buffers_inv_1 H2 H3 H4).
Defined.

(** ** Construction and destruction *)

Lemma writes_only_trans this p m1 m2 m3 :
  writes_only this p m1 m2 -> writes_only this p m2 m3 ->
  writes_only this p m1 m3.
Proof.
  intros (Ho & Ha & _) (Ho' & Ha' & Ht).
  split; [intros x Hx; rewrite Ho', Ho by exact Hx; reflexivity|].
  split; [intros q Hq; rewrite Ha', Ha by exact Hq; reflexivity|].
  exact Ht.
Qed.

Lemma run_writes_only this tr : forall m t out m2,
  objects m !! this = Some t -> run this tr m = Ret out m2 ->
  writes_only this (items t) m m2.
Proof.
  induction tr as [|[item|] tr IH]; intros m t out m2 Ht Hrun;
    cbn [run] in Hrun.
  - injection Hrun as _ <-. repeat split; eauto.
  - unfold bind in Hrun.
    destruct (insert_item this item m) as [r m1| | |] eqn:Hi; try discriminate.
    assert (Hw : writes_only this (items t) m m1).
    { apply (insert_item_frame m this item t m1 Ht). rewrite Hi. reflexivity. }
    pose proof Hw as (_ & _ & t' & Ht' & Hit).
    eapply writes_only_trans; [exact Hw|].
    rewrite <- Hit. eapply IH; eauto.
  - unfold bind at 1 in Hrun.
    destruct (remove_item this m) as [r m1| | |] eqn:Hr; try discriminate.
    assert (Hw : writes_only this (items t) m m1).
    { apply (remove_item_frame m this t m1 Ht). rewrite Hr. reflexivity. }
    pose proof Hw as (_ & _ & t' & Ht' & Hit).
    unfold bind in Hrun.
    destruct (run this tr m1) as [rs m3| | |] eqn:Hrs; try discriminate.
    injection Hrun as _ <-.
    eapply writes_only_trans; [exact Hw|].
    rewrite <- Hit. eapply IH; eauto.
Qed.

(** X8. At an address that holds no object, constructing a buffer of
    capacity [C], running on it any trace that respects the blocking
    contract and destroying it hands out the FIFO results and leaves the
    store exactly as it was before the construction: the array is
    released and nothing else was touched. *)
Theorem ctor_run_dtor_restores m this C tr :
  objects m !! this = None ->
  0 < C <= Int.INT_MAX ->
  respects C 0 tr = true ->
  (do_ Buffer_ctor this C;
   do out <- run this tr;
   do_ Buffer_dtor this;
   ret out) m
  = Ret (take (removals tr) (inserted tr)) m.
Proof.
  intros Hnone HC Hok.
  pose proof (Buffer_ctor_runs m this C ltac:(lia)) as Hctor.
  destruct (Buffer_ctor_inv m this C HC) as (m0 & Hctor' & Hinv0).
  rewrite Hctor in Hctor'. injection Hctor' as Hm0.
  set (p := fresh (dom (arrays m))) in *.
  destruct (run_inv this C tr m0 [] Hinv0 Hok) as (m' & Hrun & Hinv').
  simpl in Hrun.
  assert (Ht0 : objects m0 !! this = Some (mkBuffer p C 0 0 (-1))).
  { rewrite <- Hm0. apply lookup_insert_eq. }
  pose proof (run_writes_only this tr m0 _ _ m' Ht0 Hrun)
    as (Hobjs & Harrs & t' & Ht' & Hit).
  cbn [items] in *.
  destruct Hinv' as (b & a & Hb & Ha & _ & _).
  rewrite Ht' in Hb. injection Hb as <-. rewrite Hit in Ha.
  unfold bind at 1. rewrite Hctor, Hm0.
  unfold bind at 1. rewrite Hrun.
  unfold Buffer_dtor, bind, get_obj, delete_array, ret.
  rewrite Ht', Hit. cbn [objects arrays]. rewrite Ha. cbn [objects arrays].
  f_equal. rewrite <- (memory_eta m). f_equal.
  - apply map_eq. intros x. destruct (decide (x = this)) as [->|Hx].
    + rewrite lookup_delete_eq, Hnone. reflexivity.
    + rewrite lookup_delete_ne, Hobjs by congruence.
      rewrite <- Hm0. cbn [objects]. apply lookup_insert_ne. congruence.
  - apply map_eq. intros q. destruct (decide (q = p)) as [->|Hq].
    + rewrite lookup_delete_eq. symmetry.
      apply not_elem_of_dom, is_fresh.
    + rewrite lookup_delete_ne, Harrs by congruence.
      rewrite <- Hm0. cbn [arrays]. apply lookup_insert_ne. congruence.
Qed.

Lemma ctor_run_dtor_restores_witness :
  let tr := [Insert 4; Insert 5; Remove; Insert 6; Remove] in
  (objects holds_10_20 !! 2%positive = None /\
   0 < 2 <= Int.INT_MAX /\ respects 2 0 tr = true) /\
  (do_ Buffer_ctor 2%positive 2;
   do out <- run 2%positive tr;
   do_ Buffer_dtor 2%positive;
   ret out) holds_10_20
  = Ret [4; 5] holds_10_20.
Proof.
  intros tr.
  assert (H1 : objects holds_10_20 !! 2%positive = None) by reflexivity.
  assert (H2 : 0 < 2 <= Int.INT_MAX) by (unfold Int.INT_MAX; lia).
  assert (H3 : respects 2 0 tr = true) by reflexivity.
  split; [auto|].
  exact (ctor_run_dtor_restores holds_10_20 2%positive 2 tr H1 H2 H3).
Defined.

(** ** Calls that only read *)

Lemma only_reads_bind {A B} (c : M A) (k : A -> M B) m :
  only_reads (c m) m -> (forall x, only_reads (k x m) m) ->
  only_reads (bind c k m) m.
Proof.
  unfold bind. destruct (c m) as [x m'| | |]; simpl; intros Hc Hk;
    try contradiction; try exact I.
  subst m'. apply Hk.
Qed.

Lemma only_reads_ret {A} (x : A) m : only_reads (ret x m) m.
Proof. reflexivity. Qed.

Lemma only_reads_get_obj this m : only_reads (get_obj this m) m.
Proof. unfold get_obj. destruct (objects m !! this); simpl; auto. Qed.

Lemma only_reads_read_array p i m : only_reads (read_array p i m) m.
Proof.
  unfold read_array. destruct (arrays m !! p) as [a|]; [|exact I].
  destruct (_ && _); [|exact I].
  destruct (a !! Z.to_nat i) as [[v|]|]; simpl; auto.
Qed.

Lemma only_reads_int_rem a b m : only_reads (int_rem a b m) m.
Proof. unfold int_rem, undefined, ret. destruct (b =? 0); simpl; auto. Qed.

Lemma only_reads_print_items p max count : forall n i index m,
  only_reads (print_items p max count n i index m) m.
Proof.
  induction n as [|n IH]; intros i index m; cbn [print_items].
  - apply only_reads_ret.
  - apply only_reads_bind; [apply only_reads_read_array|]. intros v.
    apply only_reads_bind; [apply only_reads_int_rem|]. intros r.
    apply only_reads_bind; [apply IH|]. intros s.
    apply only_reads_ret.
Qed.

(** X9. Whatever the store holds, [get_size], [get_count], [is_empty],
    [is_full] and [print_buffer] never wait, never throw and never write:
    each returns with the store unchanged, or is undefined (no object at
    [this], or for [print_buffer] a slot it may not read). *)
Theorem observers_only_read (m : memory) (this : addr) :
  only_reads (get_size this m) m /\
  only_reads (get_count this m) m /\
  only_reads (is_empty this m) m /\
  only_reads (is_full this m) m /\
  only_reads (print_buffer this m) m.
Proof.
  assert (Hobs : forall {A} (f : Buffer -> A),
            only_reads ((do b <- get_obj this; ret (f b)) m) m).
  { intros A f. apply only_reads_bind; [apply only_reads_get_obj|].
    intros b. apply only_reads_ret. }
  split; [apply Hobs|]. split; [apply Hobs|].
  split; [apply Hobs|]. split; [apply Hobs|].
  unfold print_buffer.
  apply only_reads_bind; [apply Hobs|]. intros [|].
  - apply only_reads_ret.
  - apply only_reads_bind; [apply only_reads_get_obj|]. intros b.
    apply only_reads_bind; [apply only_reads_print_items|]. intros s.
    apply only_reads_ret.
Qed.

(** X10. A buffer constructed next to a well-formed buffer has an array
    of its own: the construction and any later sequence of member
    function calls on the new buffer leave the old one holding its queue,
    with the same [get_count()]. *)
Theorem new_buffer_independent m this other C C' l :
  this <> other -> buffer_inv m other C l -> 0 <= C' ->
  exists m1,
    Buffer_ctor this C' m = Ret tt m1 /\
    buffer_inv m1 other C l /\
    (forall cs m2,
       final_memory (do_calls this cs m1) = Some m2 ->
       get_count other m2 = Ret (Z.of_nat (length l)) m2 /\
       buffer_inv m2 other C l).
Proof.
  intros Hne (o & a & Ho & Ha & HC & Hrep) HC'.
  pose proof (Buffer_ctor_runs m this C' HC') as Hctor.
  set (p := fresh (dom (arrays m))) in *.
  set (m1 := mkMemory (<[this := mkBuffer p C' 0 0 (-1)]> (objects m))
                      (<[p := replicate (Z.to_nat C') None]> (arrays m))) in *.
  assert (Hp : items o <> p) by (apply (fresh_not_live m _ _ Ha)).
  assert (Hap : apart m1 this other o a).
  { split; [exact Hne|]. unfold m1. cbn [objects arrays].
    split; [rewrite lookup_insert_ne by congruence; exact Ho|].
    split; [rewrite lookup_insert_ne by congruence; exact Ha|].
    intros t. rewrite lookup_insert_eq. intros Heq. injection Heq as <-.
    cbn [items]. congruence. }
  exists m1. split; [exact Hctor|].
  split; [apply (apart_inv m1 this other o a C l HC Hrep Hap)|].
  intros cs m2 Hfin.
  apply (apart_inv m2 this other o a C l HC Hrep).
  eapply do_calls_apart; eauto.
Qed.

Lemma new_buffer_independent_witness :
  (2%positive <> 1%positive /\
   buffer_inv holds_10_20 1%positive 5 [10; 20] /\ 0 <= 3) /\
  exists m1,
    Buffer_ctor 2%positive 3 holds_10_20 = Ret tt m1 /\
    buffer_inv m1 1%positive 5 [10; 20] /\
    (forall cs m2,
       final_memory (do_calls 2%positive cs m1) = Some m2 ->
       get_count 1%positive m2 = Ret (Z.of_nat (length [10; 20])) m2 /\
       buffer_inv m2 1%positive 5 [10; 20]).
Proof.
  assert (H1 : 2%positive <> 1%positive) by discriminate.
  assert (H3 : 0 <= 3) by lia.
  split; [repeat split; try assumption; exact holds_10_20_inv|].
  exact (new_buffer_independent holds_10_20 2%positive 1%positive 5 3 [10; 20]
           H1 holds_10_20_inv H3).
Defined.

(** ** What [main] does *)

Lemma create_producers_ids n : forall i,
  0 <= i -> i + Z.of_nat n <= Int.INT_MAX ->
  create_producers n i
  = (fun id => ev_pthread_create (producer id)) <$> seqZ (i + 1) (Z.of_nat n).
Proof.
  induction n as [|n IH]; intros i Hi Hmax; [reflexivity|].
  unfold Int.INT_MAX in Hmax.
  cbn [create_producers].
  rewrite int_add_small by (unfold Int.in_range, Int.INT_MIN, Int.INT_MAX; lia).
  rewrite (seqZ_cons (i + 1)) by lia. cbn [fmap list_fmap]. f_equal.
  rewrite IH by (unfold Int.INT_MAX; lia).
  f_equal. f_equal; lia.
Qed.

(** The process in which [main] starts when it is given its three
    arguments: both thread counts are positive, the buffer is the new
    buffer of capacity 5, and the calls of [main] are all to come. *)
Lemma boot_calls (atoi : string -> Z) (argv : list string) s0 :
  boot atoi 4 argv = Some s0 ->
  0 < atoi (nth 2 argv "") /\ 0 < atoi (nth 3 argv "") /\
  exists m0,
    buffer_inv m0 buffer 5 [] /\
    s0 = mkSystem m0 None None None []
           (ev_sem_init empty_slots 0 5 :: ev_sem_init full_slots 0 0
            :: ev_mutex_init
            :: create_producers (Z.to_nat (atoi (nth 2 argv ""))) 0
            ++ replicate (Z.to_nat (atoi (nth 3 argv "")))
                         (ev_pthread_create consumer)
            ++ [ev_sleep (to_unsigned (atoi (nth 1 argv "")));
                ev_cout ("Main thread: Time's up! Shutting down..."
                         +:+ newline);
                ev_sem_destroy empty_slots;
                ev_sem_destroy full_slots;
                ev_mutex_destroy]) [].
Proof.
  unfold boot, program, static_init. unfold bind at 1.
  destruct (Buffer_ctor_inv empty_memory buffer 5) as (m0 & Hctor & Hinv0).
  { unfold Int.INT_MAX. lia. }
  rewrite Hctor.
  pose proof Hinv0 as (b & a & Hb & Ha & HC & Hrep).
  unfold main. change (negb (4 =? 4)) with false. cbv iota.
  unfold get_size, get_obj. unfold bind at 1. unfold bind at 1.
  rewrite Hb. unfold ret at 1 2. rewrite HC.
  destruct (Z.leb_spec (atoi (nth 2 argv "")) 0) as [Hp|Hp];
    [discriminate|].
  destruct (Z.leb_spec (atoi (nth 3 argv "")) 0) as [Hc|Hc];
    [discriminate|].
  cbn [orb]. unfold ret. intros H. injection H as <-.
  split; [exact Hp|]. split; [exact Hc|].
  exists m0. split; [exact Hinv0|]. reflexivity.
Qed.

Lemma pending_creates_app todo1 todo2 :
  pending_creates (todo1 ++ todo2)
  = pending_creates todo1 ++ pending_creates todo2.
Proof.
  induction todo1 as [|e todo1 IH]; [reflexivity|].
  destruct e; cbn [app pending_creates]; rewrite IH; reflexivity.
Qed.

Lemma pending_creates_fmap (fs : list thread_fn) :
  pending_creates (ev_pthread_create <$> fs) = fs.
Proof.
  induction fs as [|f fs IH]; [reflexivity|].
  cbn [fmap list_fmap pending_creates]. f_equal. exact IH.
Qed.

Lemma pending_creates_replicate n f :
  pending_creates (replicate n (ev_pthread_create f)) = replicate n f.
Proof.
  induction n as [|n IH]; [reflexivity|].
  cbn [replicate pending_creates]. f_equal. exact IH.
Qed.

(** ** Producers and consumers: counting and traces *)

Lemma total_app w ts t : total w (ts ++ [t]) = total w ts + w t.
Proof.
  unfold total. induction ts as [|t0 ts IH]; simpl; [lia|].
  rewrite IH. lia.
Qed.

Lemma total_insert w ts : forall (i : nat) t t',
  ts !! i = Some t ->
  total w (<[i := t']> ts) = total w ts - w t + w t'.
Proof.
  unfold total. induction ts as [|t0 ts IH]; intros i t t' Hi;
    [discriminate|].
  destruct i as [|i]; simpl in *.
  - injection Hi as ->. lia.
  - rewrite (IH i t t' Hi). lia.
Qed.

Lemma total_nonneg w ts : (forall x, 0 <= w x) -> 0 <= total w ts.
Proof.
  intros Hw. unfold total. induction ts as [|x ts IH]; simpl; [lia|].
  specialize (Hw x). lia.
Qed.

Lemma total_ge w ts (i : nat) t :
  (forall x, 0 <= w x) -> ts !! i = Some t -> w t <= total w ts.
Proof.
  intros Hw. revert i.
  induction ts as [|t0 ts IH]; intros i Hi; [discriminate|].
  pose proof (total_nonneg w ts Hw) as H0. unfold total in *.
  destruct i as [|i]; simpl in *.
  - injection Hi as ->. lia.
  - specialize (IH i Hi). specialize (Hw t0). lia.
Qed.

Lemma empty_in_flight_nonneg t : 0 <= empty_in_flight t.
Proof. destruct t as [[id|] []]; cbn; lia. Qed.

Lemma full_in_flight_nonneg t : 0 <= full_in_flight t.
Proof. destruct t as [[id|] []]; cbn; lia. Qed.

Lemma in_region_nonneg t : 0 <= in_region t.
Proof. destruct t as [[id|] []]; cbn; lia. Qed.

(** Only a thread in the region has something to write. *)
Lemma to_write_outside l t : in_region t = 0 -> to_write l t = [].
Proof. destruct t as [[id|] []]; cbn; intros H; (reflexivity || lia). Qed.

Lemma still_to_write_none l ts :
  total in_region ts = 0 -> still_to_write l ts = [].
Proof.
  unfold still_to_write.
  induction ts as [|t ts IH]; intros H; [reflexivity|].
  pose proof (in_region_nonneg t).
  pose proof (total_nonneg in_region ts in_region_nonneg).
  unfold total in *. simpl in *.
  rewrite to_write_outside by lia. apply IH. lia.
Qed.

Lemma still_to_write_app l ts t :
  still_to_write l (ts ++ [t]) = still_to_write l ts ++ to_write l t.
Proof.
  unfold still_to_write. rewrite flat_map_app. simpl.
  rewrite app_nil_r. reflexivity.
Qed.

(** A step of a thread that has nothing to write before and after it
    leaves what is still to write as it is. *)
Lemma still_to_write_quiet l ts : forall (i : nat) t t',
  ts !! i = Some t -> to_write l t = [] -> to_write l t' = [] ->
  still_to_write l (<[i := t']> ts) = still_to_write l ts.
Proof.
  unfold still_to_write.
  induction ts as [|t0 ts IH]; intros i t t' Hi H1 H2; [discriminate|].
  destruct i as [|i]; simpl in *.
  - injection Hi as ->. rewrite H1, H2. reflexivity.
  - f_equal. exact (IH i t t' Hi H1 H2).
Qed.

(** When one thread is in the region, what is still to write is what
    this thread has still to write. *)
Lemma still_to_write_holder ts : forall (i : nat) t,
  ts !! i = Some t -> 0 < in_region t -> total in_region ts = 1 ->
  forall l t', still_to_write l (<[i := t']> ts) = to_write l t'.
Proof.
  induction ts as [|t0 ts IH]; intros i t Hi Ht Htot l t'; [discriminate|].
  pose proof (in_region_nonneg t0).
  pose proof (total_nonneg in_region ts in_region_nonneg).
  destruct i as [|i].
  - simpl in Hi. injection Hi as ->.
    change (still_to_write l (t' :: ts) = to_write l t').
    unfold still_to_write. simpl.
    fold (still_to_write l ts). unfold total in *. simpl in Htot.
    rewrite still_to_write_none by (unfold total; lia).
    apply app_nil_r.
  - simpl in Hi.
    pose proof (total_ge in_region ts i t in_region_nonneg Hi).
    change (still_to_write l (t0 :: <[i := t']> ts) = to_write l t').
    unfold still_to_write. simpl.
    fold (still_to_write l (<[i := t']> ts)).
    unfold total in *. simpl in Htot.
    rewrite to_write_outside by lia.
    apply (IH i t Hi Ht); unfold total; lia.
Qed.

Lemma still_to_write_of_holder ts (i : nat) t l :
  ts !! i = Some t -> 0 < in_region t -> total in_region ts = 1 ->
  still_to_write l ts = to_write l t.
Proof.
  intros Hi Ht Htot.
  rewrite <- (still_to_write_holder ts i t Hi Ht Htot l t).
  rewrite list_insert_id by exact Hi. reflexivity.
Qed.

Lemma print_buffer_text m this C l :
  buffer_inv m this C l -> print_buffer this m = Ret (snapshot l) m.
Proof.
  intros (b & a & Hobj & Harr & HC & Hrep).
  pose proof (rep_length _ _ _ Hrep) as Hl.
  pose proof (rep_shape _ _ _ Hrep) as [Hcap Hlen Hcnt Hfront Hrear].
  unfold print_buffer, is_empty, snapshot. unfold bind at 1. unfold bind at 1.
  unfold get_obj at 1. rewrite Hobj. unfold ret at 1.
  destruct (Z.eqb_spec (current_count b) 0) as [H0|Hpos].
  - destruct l; [|simpl in Hl; lia]. reflexivity.
  - destruct (decide (l = [])) as [->|_]; [simpl in Hl; lia|].
    unfold bind at 1. unfold get_obj. rewrite Hobj.
    unfold bind.
    rewrite (print_items_runs (items b) (max_size b) (current_count b)
               (Z.to_nat (current_count b)) l 0 (front_idx b) m a);
      try assumption; try lia.
    + reflexivity.
    + intros k v Hk. apply (rep_lookup _ _ _ k v Hrep Hk).
Qed.

(** Appending one call to a trace that respects the contract. *)
Lemma trace_snoc C tr : forall q,
  respects C (Z.of_nat (length q)) tr = true ->
  (forall v, Z.of_nat (length (queue_after q tr)) < C ->
     respects C (Z.of_nat (length q)) (tr ++ [Insert v]) = true /\
     transcript q (tr ++ [Insert v])
     = transcript q tr
       ++ [producer_line v v; snapshot (queue_after q tr ++ [v])] /\
     queue_after q (tr ++ [Insert v]) = queue_after q tr ++ [v]) /\
  (forall x l', queue_after q tr = x :: l' ->
     respects C (Z.of_nat (length q)) (tr ++ [Remove]) = true /\
     transcript q (tr ++ [Remove])
     = transcript q tr ++ [consumer_line x; snapshot l'] /\
     queue_after q (tr ++ [Remove]) = l').
Proof.
  induction tr as [|[w|] tr IH]; intros q Hok.
  - unfold queue_after. cbn [removals inserted app transcript respects].
    rewrite !drop_0, ?app_nil_r. split.
    + intros v Hroom. split; [|split; reflexivity].
      apply andb_true_intro. split; [apply Z.ltb_lt; exact Hroom|reflexivity].
    + intros x l' Hx. rewrite Hx.
      split; [|split; reflexivity].
      apply andb_true_intro. split; [apply Z.ltb_lt; simpl; lia|reflexivity].
  - cbn [respects] in Hok. apply andb_prop in Hok as [Hroom Hok].
    assert (Hq : Z.of_nat (length (q ++ [w])) = Z.of_nat (length q) + 1)
      by (rewrite length_app; simpl; lia).
    rewrite <- Hq in Hok.
    destruct (IH (q ++ [w]) Hok) as [Hins Hrem].
    assert (Hqa : forall t, queue_after q (Insert w :: t)
                            = queue_after (q ++ [w]) t).
    { intros t. unfold queue_after. cbn [removals inserted].
      rewrite <- app_assoc. reflexivity. }
    split.
    + intros v Hv. rewrite Hqa in Hv. destruct (Hins v Hv) as (H1 & H2 & H3).
      cbn [app respects transcript]. rewrite Hroom, <- Hq, H1, H2.
      rewrite !Hqa, H3. auto.
    + intros x l' Hx. rewrite Hqa in Hx.
      destruct (Hrem x l' Hx) as (H1 & H2 & H3).
      cbn [app respects transcript]. rewrite Hroom, <- Hq, H1, H2.
      rewrite !Hqa, H3. auto.
  - cbn [respects] in Hok. apply andb_prop in Hok as [Hpos Hok].
    destruct q as [|y q]; [simpl in Hpos; discriminate|].
    assert (Hq : Z.of_nat (length (y :: q)) - 1 = Z.of_nat (length q))
      by (simpl; lia).
    rewrite Hq in Hok.
    destruct (IH q Hok) as [Hins Hrem].
    assert (Hqa : forall t, queue_after (y :: q) (Remove :: t)
                            = queue_after q t) by reflexivity.
    split.
    + intros v Hv. rewrite Hqa in Hv. destruct (Hins v Hv) as (H1 & H2 & H3).
      cbn [app respects transcript]. rewrite Hpos, Hq, H1, H2.
      rewrite !Hqa, H3. auto.
    + intros x l' Hx. rewrite Hqa in Hx.
      destruct (Hrem x l' Hx) as (H1 & H2 & H3).
      cbn [app respects transcript]. rewrite Hpos, Hq, H1, H2.
      rewrite !Hqa, H3. auto.
Qed.

(** ** Producers and consumers: the invariant *)

Lemma in_teardown_not_sleep seconds : ~ In (ev_sleep seconds) teardown.
Proof. intros [H|[H|[H|[]]]]; discriminate. Qed.

Lemma live_todo_before_teardown todo :
  live_todo todo -> In (ev_sem_destroy empty_slots) todo.
Proof.
  induction 1; simpl; auto.
Qed.

Lemma main_step_ok C s :
  invariant C s -> before_teardown s ->
  exists s', main_step s = Steps s' /\ invariant C s'.
Proof.
  intros Hinv Hbt. destruct (Hinv Hbt) as [Hset|Hco].
  - destruct Hset as (Hth & Hcout & Hmx & Hbuf & todo & Hlive & [sec Hsl] & Hph).
    assert (HC : C <= SEM_VALUE_MAX).
    { destruct Hbuf as (b & a & _ & _ & HC & Hrep).
      pose proof (rep_cap _ _ _ Hrep). unfold SEM_VALUE_MAX, Int.INT_MAX in *.
      lia. }
    unfold main_step.
    destruct Hph as [(Htodo & He & Hf)|[(Htodo & He & Hf)|(Htodo & He & Hf)]];
      rewrite Htodo in *; eexists; (split; [reflexivity|]); intros _.
    + left. unfold setting_up.
      cbn [threads cout mutex_lock heap_of main_todo empty_slots_value
           full_slots_value].
      repeat (split; [assumption|]). exists todo. split; [exact Hlive|].
      split.
      { exists sec. destruct Hsl as [H|Hsl]; [discriminate|exact Hsl]. }
      right. left. split; [reflexivity|]. split; [|exact Hf].
      rewrite He. unfold sem_init.
      destruct (Z.leb_spec C SEM_VALUE_MAX); [reflexivity|lia].
    + left. unfold setting_up.
      cbn [threads cout mutex_lock heap_of main_todo empty_slots_value
           full_slots_value].
      repeat (split; [assumption|]). exists todo. split; [exact Hlive|].
      split.
      { exists sec. destruct Hsl as [H|Hsl]; [discriminate|exact Hsl]. }
      right. right. split; [reflexivity|]. split; [exact He|].
      rewrite Hf. reflexivity.
    + right. exists [], C, 0, false.
      cbn [threads cout mutex_lock heap_of main_todo empty_slots_value
           full_slots_value].
      rewrite Hth, Hcout. cbn [total foldr length].
      destruct Hbuf as (b & a & Hb & Ha & HCb & Hrep).
      pose proof (rep_cap _ _ _ Hrep).
      split; [exists b, a; auto|].
      split; [exact He|]. split; [exact Hf|]. split; [reflexivity|].
      split; [lia|]. split; [lia|]. split; [lia|]. split; [reflexivity|].
      split; [reflexivity|]. split; [exact Hlive|].
      split; [reflexivity|].
      intros _. exists []. auto.
  - destruct Hco as (l & e & f & lk & Hbuf & He & Hf & Hlk & He0 & Hf0 & Heq1
                     & Heq2 & Hreg & Hlive & Hnil & Htr).
    unfold main_step.
    inversion Hlive as [fn todo Hlive' Htodo|sec txt Htodo|txt Htodo|Htodo];
      eexists; (split; [reflexivity|]).
    + intros _. right. exists l, e, f, lk.
      cbn [threads cout mutex_lock heap_of main_todo empty_slots_value
           full_slots_value].
      rewrite !total_app, still_to_write_app.
      cbn [empty_in_flight full_in_flight in_region to_write
           start_routine next_call].
      assert (Hw : empty_in_flight (mkThread fn at_sem_wait) = 0
                   /\ full_in_flight (mkThread fn at_sem_wait) = 0)
        by (destruct fn; split; reflexivity).
      destruct Hw as [Hw1 Hw2]. rewrite Hw1, Hw2, !Z.add_0_r, app_nil_r.
      repeat (split; [assumption|]).
      split.
      { intros H. destruct (threads s); discriminate. }
      intros [sec Hsl]. apply Htr. exists sec. rewrite <- Htodo. right.
      exact Hsl.
    + intros _. right. exists l, e, f, lk.
      cbn [threads cout mutex_lock heap_of main_todo empty_slots_value
           full_slots_value].
      repeat (split; [assumption|]). split; [constructor|].
      split; [exact Hnil|].
      intros [sec' [Hsl|Hsl]]; [discriminate|].
      exfalso. exact (in_teardown_not_sleep _ Hsl).
    + intros _. right. exists l, e, f, lk.
      cbn [threads cout mutex_lock heap_of main_todo empty_slots_value
           full_slots_value].
      repeat (split; [assumption|]). split; [constructor|].
      split; [exact Hnil|].
      intros [sec' Hsl]. exfalso. exact (in_teardown_not_sleep _ Hsl).
    + intros Hbt'. unfold before_teardown in Hbt'. cbn [main_todo] in Hbt'.
      destruct Hbt' as [H|[H|[]]]; discriminate.
Qed.

Ltac open_moved Hi :=
  unfold moved;
  cbn [threads cout mutex_lock heap_of main_todo empty_slots_value
       full_slots_value];
  rewrite !(total_insert _ _ _ _ _ Hi);
  cbn [empty_in_flight full_in_flight in_region start_routine next_call].

Lemma thread_step_ok C s i :
  invariant C s -> before_teardown s ->
  thread_step i s = Waits \/
  exists s', thread_step i s = Steps s' /\ invariant C s'.
Proof.
  intros Hinv Hbt. destruct (Hinv Hbt) as [Hset|Hco].
  { destruct Hset as (Hth & _). left. unfold thread_step. rewrite Hth.
    reflexivity. }
  destruct Hco as (l & e & f & lk & Hbuf & He & Hf & Hlk & He0 & Hf0 & Heq1
                   & Heq2 & Hreg & Hlive & Hnil & Htr).
  assert (Hcap : Z.of_nat (length l) <= C /\ C <= SEM_VALUE_MAX).
  { destruct Hbuf as (b & a & _ & _ & HC & Hrep).
    pose proof (rep_cap _ _ _ Hrep). pose proof (rep_count _ _ _ Hrep).
    pose proof (rep_length _ _ _ Hrep).
    unfold SEM_VALUE_MAX, Int.INT_MAX in *. lia. }
  unfold thread_step.
  destruct (threads s !! i) as [[fn at_]|] eqn:Hi; [|left; reflexivity].
  pose proof (total_ge empty_in_flight _ _ _ empty_in_flight_nonneg Hi) as Hge1.
  pose proof (total_ge full_in_flight _ _ _ full_in_flight_nonneg Hi) as Hge2.
  pose proof (total_ge in_region _ _ _ in_region_nonneg Hi) as Hge3.
  assert (Hsome : forall t' (q : list buffer_item),
            <[i := t']> (threads s) = [] -> q = []).
  { intros t' q H. apply (f_equal length) in H. rewrite length_insert in H.
    destruct (threads s); discriminate. }
  assert (Hquiet : forall (s' : system) t',
            main_todo s' = main_todo s -> cout s' = cout s ++ [] ->
            threads s' = <[i := t']> (threads s) ->
            to_write l (mkThread fn at_) = [] -> to_write l t' = [] ->
            main_asleep s' ->
            exists tr,
              respects C 0 tr = true /\
              cout s' ++ still_to_write l (threads s') = transcript [] tr /\
              l = drop (removals tr) (inserted tr)).
  { intros s' t' Htodo Hout Hths H1 H2 [sec Hsl]. rewrite Htodo in Hsl.
    rewrite Hout, Hths, app_nil_r,
      (still_to_write_quiet l _ i _ t' Hi H1 H2).
    apply Htr. exists sec. exact Hsl. }
  assert (Hheld : 0 < in_region (mkThread fn at_) ->
            lk = true /\
            forall q t', still_to_write q (<[i := t']> (threads s))
                         = to_write q t').
  { intros Hin. destruct lk; [|lia]. split; [reflexivity|].
    apply (still_to_write_holder _ i _ Hi Hin Hreg). }
  assert (Hasleep : forall (s' : system),
            main_todo s' = main_todo s -> main_asleep s' -> main_asleep s).
  { intros s' Htodo [sec Hsl]. rewrite Htodo in Hsl. exists sec. exact Hsl. }
  cbn [start_routine next_call].
  destruct at_ as [| | |item| | |], fn as [id|];
    cbn [empty_in_flight full_in_flight in_region start_routine next_call]
      in Hge1, Hge2, Hge3, Hheld.
  - (* producer: sem_wait(&empty_slots) *)
    rewrite He. unfold sem_wait.
    destruct (Z.ltb_spec 0 e); [|left; reflexivity].
    right. eexists. split; [reflexivity|]. intros _. right.
    exists l, (e - 1), f, lk. open_moved Hi.
    repeat (split; [first [assumption|reflexivity|lia]|]).
    split; [apply Hsome|]. eapply Hquiet; reflexivity.
  - (* consumer: sem_wait(&full_slots) *)
    rewrite Hf. unfold sem_wait.
    destruct (Z.ltb_spec 0 f); [|left; reflexivity].
    right. eexists. split; [reflexivity|]. intros _. right.
    exists l, e, (f - 1), lk. open_moved Hi.
    repeat (split; [first [assumption|reflexivity|lia]|]).
    split; [apply Hsome|]. eapply Hquiet; reflexivity.
  - (* producer: pthread_mutex_lock *)
    rewrite Hlk. destruct lk; [left; reflexivity|].
    right. eexists. split; [reflexivity|]. intros _. right.
    exists l, e, f, true. open_moved Hi.
    repeat (split; [first [assumption|reflexivity|lia]|]).
    split; [apply Hsome|]. eapply Hquiet; reflexivity.
  - (* consumer: pthread_mutex_lock *)
    rewrite Hlk. destruct lk; [left; reflexivity|].
    right. eexists. split; [reflexivity|]. intros _. right.
    exists l, e, f, true. open_moved Hi.
    repeat (split; [first [assumption|reflexivity|lia]|]).
    split; [apply Hsome|]. eapply Hquiet; reflexivity.
  - (* producer: insert_item *)
    destruct (Hheld ltac:(lia)) as [-> Hhold].
    destruct (insert_item_inv (heap_of s) buffer C l id Hbuf ltac:(lia))
      as (m1 & Hins & Hbuf1).
    rewrite Hins.
    right. eexists. split; [reflexivity|]. intros _. right.
    exists (l ++ [id]), e, f, true. open_moved Hi. rewrite length_app.
    cbn [length].
    repeat (split; [first [assumption|reflexivity|lia]|]).
    split; [apply Hsome|].
    intros Hsl. apply (Hasleep _ eq_refl) in Hsl.
    destruct (Htr Hsl) as (tr & Hok & Hout & Hq).
    rewrite (still_to_write_of_holder _ i _ l Hi ltac:(cbn; lia) Hreg)
      in Hout.
    cbn [to_write next_call start_routine] in Hout.
    rewrite app_nil_r in Hout.
    destruct (trace_snoc C tr [] Hok) as [Hsnoc _].
    destruct (Hsnoc id) as (H1 & H2 & H3).
    { unfold queue_after. cbn [app]. rewrite <- Hq. lia. }
    unfold queue_after in H2, H3. cbn [app] in H2, H3.
    rewrite <- Hq in H2, H3.
    exists (tr ++ [Insert id]). rewrite Hhold, app_nil_r.
    cbn [to_write next_call start_routine].
    rewrite Hout, H2, H3. auto.
  - (* consumer: remove_item *)
    destruct (Hheld ltac:(lia)) as [-> Hhold].
    destruct l as [|v l']; [simpl in Heq2; lia|].
    destruct (remove_item_inv (heap_of s) buffer C v l' Hbuf)
      as (m1 & Hrem & Hbuf1).
    rewrite Hrem.
    right. eexists. split; [reflexivity|]. intros _. right.
    exists l', e, f, true. open_moved Hi. cbn [length] in *.
    repeat (split; [first [assumption|reflexivity|lia]|]).
    split; [apply Hsome|].
    intros Hsl. apply (Hasleep _ eq_refl) in Hsl.
    destruct (Htr Hsl) as (tr & Hok & Hout & Hq).
    rewrite (still_to_write_of_holder _ i _ (v :: l') Hi ltac:(cbn; lia) Hreg)
      in Hout.
    cbn [to_write next_call start_routine] in Hout.
    rewrite app_nil_r in Hout.
    destruct (trace_snoc C tr [] Hok) as [_ Hsnoc].
    destruct (Hsnoc v l') as (H1 & H2 & H3).
    { unfold queue_after. cbn [app]. rewrite <- Hq. reflexivity. }
    unfold queue_after in H3. cbn [app] in H3.
    exists (tr ++ [Remove]). rewrite Hhold, app_nil_r.
    cbn [to_write next_call start_routine].
    rewrite Hout, H2, H3. auto.
  - (* producer: cout << "Producer " ... *)
    destruct (Hheld ltac:(lia)) as [-> Hhold].
    right. eexists. split; [reflexivity|]. intros _. right.
    exists l, e, f, true. open_moved Hi.
    repeat (split; [first [assumption|reflexivity|lia]|]).
    split; [apply Hsome|].
    intros Hsl. apply (Hasleep _ eq_refl) in Hsl.
    destruct (Htr Hsl) as (tr & Hok & Hout & Hq).
    rewrite (still_to_write_of_holder _ i _ l Hi ltac:(cbn; lia) Hreg)
      in Hout.
    cbn [to_write next_call start_routine] in Hout.
    exists tr. rewrite Hhold. cbn [to_write next_call start_routine].
    rewrite <- app_assoc. auto.
  - (* consumer: cout << "Consumer: Removed item " ... *)
    destruct (Hheld ltac:(lia)) as [-> Hhold].
    right. eexists. split; [reflexivity|]. intros _. right.
    exists l, e, f, true. open_moved Hi.
    repeat (split; [first [assumption|reflexivity|lia]|]).
    split; [apply Hsome|].
    intros Hsl. apply (Hasleep _ eq_refl) in Hsl.
    destruct (Htr Hsl) as (tr & Hok & Hout & Hq).
    rewrite (still_to_write_of_holder _ i _ l Hi ltac:(cbn; lia) Hreg)
      in Hout.
    cbn [to_write next_call start_routine] in Hout.
    exists tr. rewrite Hhold. cbn [to_write next_call start_routine].
    rewrite <- app_assoc. auto.
  - (* producer: print_buffer *)
    destruct (Hheld ltac:(lia)) as [-> Hhold].
    rewrite (print_buffer_text _ _ _ _ Hbuf).
    right. eexists. split; [reflexivity|]. intros _. right.
    exists l, e, f, true. open_moved Hi.
    repeat (split; [first [assumption|reflexivity|lia]|]).
    split; [apply Hsome|].
    intros Hsl. apply (Hasleep _ eq_refl) in Hsl.
    destruct (Htr Hsl) as (tr & Hok & Hout & Hq).
    rewrite (still_to_write_of_holder _ i _ l Hi ltac:(cbn; lia) Hreg)
      in Hout.
    cbn [to_write next_call start_routine] in Hout.
    exists tr. rewrite Hhold. cbn [to_write next_call start_routine].
    rewrite app_nil_r. auto.
  - (* consumer: print_buffer *)
    destruct (Hheld ltac:(lia)) as [-> Hhold].
    rewrite (print_buffer_text _ _ _ _ Hbuf).
    right. eexists. split; [reflexivity|]. intros _. right.
    exists l, e, f, true. open_moved Hi.
    repeat (split; [first [assumption|reflexivity|lia]|]).
    split; [apply Hsome|].
    intros Hsl. apply (Hasleep _ eq_refl) in Hsl.
    destruct (Htr Hsl) as (tr & Hok & Hout & Hq).
    rewrite (still_to_write_of_holder _ i _ l Hi ltac:(cbn; lia) Hreg)
      in Hout.
    cbn [to_write next_call start_routine] in Hout.
    exists tr. rewrite Hhold. cbn [to_write next_call start_routine].
    rewrite app_nil_r. auto.
  - (* producer: pthread_mutex_unlock *)
    rewrite Hlk. destruct lk; [|lia].
    right. eexists. split; [reflexivity|]. intros _. right.
    exists l, e, f, false. open_moved Hi.
    repeat (split; [first [assumption|reflexivity|lia]|]).
    split; [apply Hsome|]. eapply Hquiet; reflexivity.
  - (* consumer: pthread_mutex_unlock *)
    rewrite Hlk. destruct lk; [|lia].
    right. eexists. split; [reflexivity|]. intros _. right.
    exists l, e, f, false. open_moved Hi.
    repeat (split; [first [assumption|reflexivity|lia]|]).
    split; [apply Hsome|]. eapply Hquiet; reflexivity.
  - (* producer: sem_post(&full_slots) *)
    rewrite Hf. unfold sem_post.
    destruct (Z.ltb_spec f SEM_VALUE_MAX); [|lia].
    right. eexists. split; [reflexivity|]. intros _. right.
    exists l, e, (f + 1), lk. open_moved Hi.
    repeat (split; [first [assumption|reflexivity|lia]|]).
    split; [apply Hsome|]. eapply Hquiet; reflexivity.
  - (* consumer: sem_post(&empty_slots) *)
    rewrite He. unfold sem_post.
    destruct (Z.ltb_spec e SEM_VALUE_MAX); [|lia].
    right. eexists. split; [reflexivity|]. intros _. right.
    exists l, (e + 1), f, lk. open_moved Hi.
    repeat (split; [first [assumption|reflexivity|lia]|]).
    split; [apply Hsome|]. eapply Hquiet; reflexivity.
Qed.

Lemma live_todo_creates (pre : list event) todo :
  Forall (fun e => exists f, e = ev_pthread_create f) pre ->
  live_todo todo -> live_todo (pre ++ todo).
Proof.
  induction 1 as [|e pre [f ->] _ IH]; intros Hlive; simpl; [exact Hlive|].
  constructor. apply IH. exact Hlive.
Qed.

Lemma create_producers_creates n : forall i,
  Forall (fun e => exists f, e = ev_pthread_create f) (create_producers n i).
Proof.
  induction n as [|n IH]; intros i; simpl; constructor; eauto.
Qed.

Lemma replicate_consumer_creates n :
  Forall (fun e => exists f, e = ev_pthread_create f)
         (replicate n (ev_pthread_create consumer)).
Proof. induction n as [|n IH]; simpl; constructor; eauto. Qed.

Lemma boot_invariant (atoi : string -> Z) (argv : list string) s0 :
  boot atoi 4 argv = Some s0 -> invariant 5 s0.
Proof.
  intros Hboot.
  destruct (boot_calls atoi argv s0 Hboot) as (_ & _ & m0 & Hinv0 & ->).
  intros _. left. unfold setting_up.
  cbn [threads cout mutex_lock heap_of main_todo empty_slots_value
       full_slots_value].
  repeat (split; [first [reflexivity|assumption]|]).
  eexists. split; [|split; [|left; split; [reflexivity|auto]]].
  - apply live_todo_creates; [apply create_producers_creates|].
    apply live_todo_creates; [apply replicate_consumer_creates|].
    constructor.
  - eexists. right. right. right. apply in_or_app. right. apply in_or_app.
    right. left. reflexivity.
Qed.

Lemma step_dispatch a s :
  before_teardown s ->
  step a s = match a with
             | main_thread => main_step s
             | worker i => thread_step i s
             end.
Proof.
  unfold before_teardown, step. destruct (main_todo s); [intros []|].
  reflexivity.
Qed.

Lemma step_ok C a s :
  invariant C s -> before_teardown s ->
  step a s = Waits \/ exists s', step a s = Steps s' /\ invariant C s'.
Proof.
  intros Hinv Hbt. rewrite (step_dispatch a s Hbt). destruct a as [|i].
  - right. apply main_step_ok; assumption.
  - apply thread_step_ok; assumption.
Qed.

(** A step of a thread changes neither the calls [main] has still to
    make nor the routine of any thread. *)
Lemma thread_step_keeps i s s' :
  thread_step i s = Steps s' ->
  main_todo s' = main_todo s /\
  exists t next,
    threads s !! i = Some t /\
    threads s' = <[i := mkThread (start_routine t) next]> (threads s).
Proof.
  unfold thread_step.
  destruct (threads s !! i) as [[fn at_]|]; [|discriminate].
  cbn [start_routine next_call].
  intros H.
  assert (Hgoal : forall next m e f lk out,
            s' = moved s i fn next m e f lk out ->
            main_todo s' = main_todo s /\
            exists t next0,
              Some (mkThread fn at_) = Some t /\
              threads s' = <[i := mkThread (start_routine t) next0]> (threads s)).
  { intros next m e f lk out ->. split; [reflexivity|].
    exists (mkThread fn at_), next. split; reflexivity. }
  destruct at_, fn as [id|];
    repeat match type of H with
           | context [match ?x with _ => _ end] => destruct x
           end;
    try discriminate; injection H as <-; eapply Hgoal; reflexivity.
Qed.

Lemma step_todo a s s' :
  step a s = Steps s' -> before_teardown s' -> before_teardown s.
Proof.
  unfold step, before_teardown.
  destruct (main_todo s) as [|e todo] eqn:Htodo; [discriminate|].
  destruct a as [|i].
  - unfold main_step. rewrite Htodo.
    destruct e as [txt|[] ? v| |f|sec|[]|]; intros H; injection H as <-;
      cbn [main_todo]; intros Hin; right; exact Hin.
  - intros H. destruct (thread_step_keeps i s s' H) as [-> _].
    rewrite Htodo. auto.
Qed.

(** Along any schedule the invariant holds, and a thread stuck inside
    the buffer or a fault can only come once [main] tears down. *)
Lemma exec_invariant C sched : forall s,
  invariant C s ->
  match exec sched s with
  | Running s' => invariant C s'
  | Stuck_in_buffer s' => ~ before_teardown s'
  | Undefined_behaviour s' => ~ before_teardown s'
  end.
Proof.
  induction sched as [|a sched IH]; intros s Hinv; cbn [exec]; [exact Hinv|].
  destruct (step a s) as [s1| | | |] eqn:Hstep.
  - apply IH. intros Hbt1.
    pose proof (step_todo a s s1 Hstep Hbt1) as Hbt.
    destruct (step_ok C a s Hinv Hbt) as [Hw|(s' & Hs' & Hinv')];
      rewrite Hstep in *; [discriminate|].
    injection Hs' as <-. exact (Hinv' Hbt1).
  - apply IH. exact Hinv.
  - intros Hbt.
    destruct (step_ok C a s Hinv Hbt) as [Hw|(s' & Hs' & _)];
      rewrite Hstep in *; discriminate.
  - intros Hbt.
    destruct (step_ok C a s Hinv Hbt) as [Hw|(s' & Hs' & _)];
      rewrite Hstep in *; discriminate.
  - apply IH. exact Hinv.
Qed.

(** ** Producers and consumers: what every schedule keeps *)

Lemma sample_boot_eq : boot sample_atoi 4 sample_argv = Some sample_boot.
Proof. vm_compute. reflexivity. Qed.

Lemma sample_state_eq : exec sample_schedule sample_boot = Running sample_state.
Proof. vm_compute. reflexivity. Qed.

Lemma sample_state_before_teardown : before_teardown sample_state.
Proof. unfold before_teardown. vm_compute. right. right. left. reflexivity. Qed.

Lemma sample_state_main_asleep : main_asleep sample_state.
Proof. exists 1. vm_compute. left. reflexivity. Qed.

Lemma sample_state_at_create_eq :
  exec [main_thread; main_thread; main_thread] sample_boot
  = Running sample_state_at_create.
Proof. vm_compute. reflexivity. Qed.

Lemma sample_state_at_create_before_teardown :
  before_teardown sample_state_at_create.
Proof.
  unfold before_teardown. vm_compute.
  right. right. right. right. right. left. reflexivity.
Qed.

Lemma sample_state_at_cout_eq :
  exec sample_schedule_to_removal sample_boot = Running sample_state_at_cout.
Proof. vm_compute. reflexivity. Qed.

Lemma sample_state_at_cout_before_teardown :
  before_teardown sample_state_at_cout.
Proof. unfold before_teardown. vm_compute. right. right. left. reflexivity. Qed.

Lemma sample_state_at_cout_main_asleep : main_asleep sample_state_at_cout.
Proof. exists 1. vm_compute. left. reflexivity. Qed.

Lemma reachable_invariant atoi argv s0 sched s :
  boot atoi 4 argv = Some s0 -> exec sched s0 = Running s -> invariant 5 s.
Proof.
  intros Hboot Hexec.
  pose proof (exec_invariant 5 sched s0 (boot_invariant atoi argv s0 Hboot))
    as H.
  rewrite Hexec in H. exact H.
Qed.

(** C9. When [main] is given its three arguments, the process starts
    with no thread and with the buffer whose [get_size()] is 5.  The
    first two steps of [main] leave the value of [empty_slots] at 5, the
    value [get_size()] returns, and the value of [full_slots] at 0, still
    with no thread and with the buffer untouched.  Along every schedule,
    before the teardown: as long as no thread exists each semaphore is
    either not yet initialised or holds exactly this value; when [main]
    comes to the first [pthread_create] the values are 5 and 0; and a
    thread only exists when both semaphores are initialised. *)
Theorem permits_initialised atoi argv s0 :
  boot atoi 4 argv = Some s0 ->
  get_size buffer (heap_of s0) = Ret 5 (heap_of s0) /\
  threads s0 = [] /\
  (exists s1 s2,
     main_step s0 = Steps s1 /\ main_step s1 = Steps s2 /\
     empty_slots_value s1 = Some 5 /\
     empty_slots_value s2 = Some 5 /\ full_slots_value s2 = Some 0 /\
     threads s2 = [] /\ heap_of s2 = heap_of s0) /\
  (forall sched s,
     exec sched s0 = Running s -> before_teardown s ->
     (threads s = [] ->
      (empty_slots_value s = None /\ full_slots_value s = None) \/
      (empty_slots_value s = Some 5 /\ full_slots_value s = None) \/
      (empty_slots_value s = Some 5 /\ full_slots_value s = Some 0)) /\
     (forall f todo,
        threads s = [] -> main_todo s = ev_pthread_create f :: todo ->
        empty_slots_value s = Some 5 /\ full_slots_value s = Some 0) /\
     (threads s <> [] ->
      exists e f,
        empty_slots_value s = Some e /\ full_slots_value s = Some f)).
Proof.
  intros Hboot.
  destruct (boot_calls atoi argv s0 Hboot) as (_ & _ & m0 & Hinv0 & Hs0).
  split.
  { rewrite Hs0. cbn [heap_of].
    destruct Hinv0 as (b & a & Hb & _ & HC & _).
    unfold get_size, get_obj, bind, ret. rewrite Hb, HC. reflexivity. }
  split; [rewrite Hs0; reflexivity|].
  split.
  { rewrite Hs0. eexists _, _.
    split; [reflexivity|]. split; [reflexivity|].
    cbn [empty_slots_value full_slots_value threads heap_of].
    repeat split; reflexivity. }
  intros sched s Hexec Hbt.
  destruct (reachable_invariant atoi argv s0 sched s Hboot Hexec Hbt)
    as [Hset|Hco].
  - destruct Hset as (Hth & _ & _ & _ & todo & _ & _ & Hph).
    split; [|split].
    + intros _.
      destruct Hph as [(_ & He & Hf)|[(_ & He & Hf)|(_ & He & Hf)]]; auto.
    + intros fn todo' _ Htodo.
      destruct Hph as [(H & _)|[(H & _)|(H & _)]]; rewrite H in Htodo;
        discriminate.
    + intros Hne. contradiction.
  - destruct Hco as (l & e & f & lk & Hbuf & He & Hf & _ & _ & _ & Heq1 & Heq2
                     & _ & _ & Hnil & _).
    assert (Hvals : threads s = [] -> e = 5 /\ f = 0).
    { intros Hth. pose proof (Hnil Hth) as ->. rewrite Hth in Heq1, Heq2.
      cbn [total foldr length] in Heq1, Heq2. lia. }
    split; [|split].
    + intros Hth. destruct (Hvals Hth) as [-> ->]. auto.
    + intros fn todo' Hth _. destruct (Hvals Hth) as [-> ->]. auto.
    + intros _. eauto.
Qed.

Lemma permits_initialised_witness :
  (boot sample_atoi 4 sample_argv = Some sample_boot /\
   exec [main_thread; main_thread; main_thread] sample_boot
   = Running sample_state_at_create /\
   before_teardown sample_state_at_create /\
   threads sample_state_at_create = [] /\
   (exists todo,
      main_todo sample_state_at_create
      = ev_pthread_create (producer 1) :: todo) /\
   exec sample_schedule sample_boot = Running sample_state /\
   before_teardown sample_state /\
   threads sample_state <> []) /\
  get_size buffer (heap_of sample_boot) = Ret 5 (heap_of sample_boot) /\
  threads sample_boot = [] /\
  (exists s1 s2,
     main_step sample_boot = Steps s1 /\ main_step s1 = Steps s2 /\
     empty_slots_value s1 = Some 5 /\
     empty_slots_value s2 = Some 5 /\ full_slots_value s2 = Some 0 /\
     threads s2 = [] /\ heap_of s2 = heap_of sample_boot) /\
  (empty_slots_value sample_state_at_create = Some 5 /\
   full_slots_value sample_state_at_create = Some 0) /\
  (exists e f,
     empty_slots_value sample_state = Some e /\
     full_slots_value sample_state = Some f).
Proof.
  assert (Hth : threads sample_state_at_create = [])
    by (vm_compute; reflexivity).
  assert (Htodo : exists todo,
            main_todo sample_state_at_create
            = ev_pthread_create (producer 1) :: todo)
    by (eexists; vm_compute; reflexivity).
  assert (Hne : threads sample_state <> []) by (vm_compute; discriminate).
  split.
  { exact (conj sample_boot_eq
             (conj sample_state_at_create_eq
                (conj sample_state_at_create_before_teardown
                   (conj Hth
                      (conj Htodo
                         (conj sample_state_eq
                            (conj sample_state_before_teardown Hne))))))). }
  destruct (permits_initialised sample_atoi sample_argv sample_boot
              sample_boot_eq) as (H1 & H2 & H3 & H4).
  destruct (H4 _ _ sample_state_at_create_eq
              sample_state_at_create_before_teardown) as (_ & Hat & _).
  destruct (H4 _ _ sample_state_eq sample_state_before_teardown)
    as (_ & _ & Hlater).
  destruct Htodo as [todo Htodo].
  exact (conj H1 (conj H2 (conj H3
           (conj (Hat _ _ Hth Htodo) (Hlater Hne))))).
Defined.

Lemma step_roster a s s' : step a s = Steps s' -> roster s' = roster s.
Proof.
  unfold step, roster.
  destruct (main_todo s) as [|e todo] eqn:Htodo; [discriminate|].
  destruct a as [|i].
  - unfold main_step. rewrite Htodo.
    destruct e as [txt|[] ? v| |f|sec|[]|]; intros H; injection H as <-;
      cbn [main_todo threads pending_creates]; try reflexivity.
    rewrite fmap_app, <- app_assoc. reflexivity.
  - intros H.
    destruct (thread_step_keeps i s s' H) as (-> & t & next & Hi & ->).
    rewrite Htodo, list_fmap_insert. cbn [start_routine].
    rewrite list_insert_id; [reflexivity|].
    rewrite list_lookup_fmap, Hi. reflexivity.
Qed.

Lemma exec_roster sched : forall s, roster (last_state (exec sched s)) = roster s.
Proof.
  induction sched as [|a sched IH]; intros s; cbn [exec]; [reflexivity|].
  destruct (step a s) as [s1| | | |] eqn:Hstep; try apply IH;
    try reflexivity.
  rewrite IH. exact (step_roster a s s1 Hstep).
Qed.

(** X11. When [main] is given its three arguments and starts, both
    thread counts are positive, and, [num_producers] being an [int], in
    every state a schedule leads to the threads created so far, followed
    by those [main] has still to create, are the producers with the ids
    1, 2, ..., [num_producers] in this order and then [num_consumers]
    consumers: the threads are created in this order, none twice, and no
    thread ever changes its routine or its id. *)
Theorem thread_roster atoi argv s0 sched :
  boot atoi 4 argv = Some s0 ->
  atoi (nth 2 argv "") <= Int.INT_MAX ->
  0 < atoi (nth 2 argv "") /\ 0 < atoi (nth 3 argv "") /\
  roster (last_state (exec sched s0))
  = (producer <$> seqZ 1 (atoi (nth 2 argv "")))
    ++ replicate (Z.to_nat (atoi (nth 3 argv ""))) consumer.
Proof.
  intros Hboot Hmax.
  destruct (boot_calls atoi argv s0 Hboot) as (Hp & Hc & m0 & _ & ->).
  split; [exact Hp|]. split; [exact Hc|].
  rewrite exec_roster. unfold roster. cbn [threads main_todo fmap list_fmap app].
  cbn [pending_creates].
  rewrite !pending_creates_app, pending_creates_replicate.
  cbn [pending_creates]. rewrite app_nil_r.
  rewrite create_producers_ids by lia.
  rewrite Z2Nat.id by lia.
  rewrite (list_fmap_compose producer ev_pthread_create).
  rewrite pending_creates_fmap. reflexivity.
Qed.

Lemma thread_roster_witness :
  (boot sample_atoi 4 sample_argv = Some sample_boot /\
   sample_atoi (nth 2 sample_argv "") <= Int.INT_MAX) /\
  0 < sample_atoi (nth 2 sample_argv "") /\
  0 < sample_atoi (nth 3 sample_argv "") /\
  roster (last_state (exec sample_schedule sample_boot))
  = [producer 1; producer 2; consumer].
Proof.
  assert (H : sample_atoi (nth 2 sample_argv "") <= Int.INT_MAX)
    by (vm_compute; discriminate).
  split; [exact (conj sample_boot_eq H)|].
  exact (thread_roster sample_atoi sample_argv sample_boot sample_schedule
           sample_boot_eq H).
Defined.

(** X12. Whatever the scheduler does, while [main] has not begun to
    destroy the semaphores no producer ever waits inside [insert_item]
    and no consumer inside [remove_item] (the permits guarantee room and
    items), and no call is undefined: a schedule can only end stuck in the
    buffer or in undefined behaviour after the teardown has begun, and
    from a state before it every actor either makes its call or waits at
    [sem_wait] or [pthread_mutex_lock]. *)
Theorem workers_never_stuck atoi argv s0 sched :
  boot atoi 4 argv = Some s0 ->
  match exec sched s0 with
  | Running s =>
      before_teardown s ->
      forall a, step a s = Waits \/ exists s', step a s = Steps s'
  | Stuck_in_buffer s => ~ before_teardown s
  | Undefined_behaviour s => ~ before_teardown s
  end.
Proof.
  intros Hboot.
  pose proof (exec_invariant 5 sched s0 (boot_invariant atoi argv s0 Hboot))
    as H.
  destruct (exec sched s0) as [s|s|s]; try exact H.
  intros Hbt a.
  destruct (step_ok 5 a s H Hbt) as [Hw|(s' & Hs' & _)]; eauto.
Qed.

Lemma workers_never_stuck_witness :
  (boot sample_atoi 4 sample_argv = Some sample_boot /\
   before_teardown sample_state) /\
  forall a, step a sample_state = Waits \/
            exists s', step a sample_state = Steps s'.
Proof.
  split; [exact (conj sample_boot_eq sample_state_before_teardown)|].
  pose proof (workers_never_stuck sample_atoi sample_argv sample_boot
                sample_schedule sample_boot_eq) as H.
  rewrite sample_state_eq in H. exact (H sample_state_before_teardown).
Defined.

(** X13. In every state a schedule reaches before the teardown, the
    buffer is well-formed and the permits add up: the value of
    [empty_slots], the empty-slot permits in flight and the items in the
    buffer make the capacity 5, and the value of [full_slots] and the
    full-slot permits in flight make the number of items. *)
Theorem permits_accounted atoi argv s0 sched s e f :
  boot atoi 4 argv = Some s0 -> exec sched s0 = Running s ->
  before_teardown s ->
  empty_slots_value s = Some e -> full_slots_value s = Some f ->
  exists l,
    buffer_inv (heap_of s) buffer 5 l /\
    0 <= e /\ 0 <= f /\
    e + total empty_in_flight (threads s) + Z.of_nat (length l) = 5 /\
    f + total full_in_flight (threads s) = Z.of_nat (length l).
Proof.
  intros Hboot Hexec Hbt He Hf.
  destruct (reachable_invariant atoi argv s0 sched s Hboot Hexec Hbt)
    as [Hset|Hco].
  - destruct Hset as (Hth & _ & _ & Hbuf & todo & _ & _ & Hph).
    exists []. rewrite Hth. cbn [total foldr length].
    destruct Hph as [(_ & He' & _)|[(_ & _ & Hf')|(_ & He' & Hf')]];
      try congruence.
    rewrite He in He'. rewrite Hf in Hf'.
    injection He' as ->. injection Hf' as ->.
    repeat split; try assumption; lia.
  - destruct Hco as (l & e' & f' & lk & Hbuf & He' & Hf' & _ & He0 & Hf0
                     & Heq1 & Heq2 & _).
    rewrite He in He'. rewrite Hf in Hf'.
    injection He' as <-. injection Hf' as <-.
    exists l. auto.
Qed.

Lemma permits_accounted_witness :
  (boot sample_atoi 4 sample_argv = Some sample_boot /\
   exec sample_schedule sample_boot = Running sample_state /\
   before_teardown sample_state /\
   empty_slots_value sample_state = Some 3 /\
   full_slots_value sample_state = Some 1) /\
  exists l,
    buffer_inv (heap_of sample_state) buffer 5 l /\
    0 <= 3 /\ 0 <= 1 /\
    3 + total empty_in_flight (threads sample_state) + Z.of_nat (length l) = 5 /\
    1 + total full_in_flight (threads sample_state) = Z.of_nat (length l).
Proof.
  assert (H1 : empty_slots_value sample_state = Some 3)
    by (vm_compute; reflexivity).
  assert (H2 : full_slots_value sample_state = Some 1)
    by (vm_compute; reflexivity).
  split.
  { exact (conj sample_boot_eq
             (conj sample_state_eq
                (conj sample_state_before_teardown (conj H1 H2)))). }
  exact (permits_accounted sample_atoi sample_argv sample_boot sample_schedule
           sample_state 3 1 sample_boot_eq sample_state_eq
           sample_state_before_teardown H1 H2).
Defined.

(** X14. In every state a schedule reaches before the teardown, at most
    one thread is between [pthread_mutex_lock] and
    [pthread_mutex_unlock]: exactly one when [mutex_lock] is locked, none
    otherwise. *)
Theorem mutual_exclusion atoi argv s0 sched s :
  boot atoi 4 argv = Some s0 -> exec sched s0 = Running s ->
  before_teardown s ->
  total in_region (threads s)
  = match mutex_lock s with Some true => 1 | _ => 0 end.
Proof.
  intros Hboot Hexec Hbt.
  destruct (reachable_invariant atoi argv s0 sched s Hboot Hexec Hbt)
    as [Hset|Hco].
  - destruct Hset as (Hth & _ & Hmx & _). rewrite Hth, Hmx. reflexivity.
  - destruct Hco as (l & e & f & lk & _ & _ & _ & Hlk & _ & _ & _ & _ & Hreg
                     & _).
    rewrite Hlk, Hreg. destruct lk; reflexivity.
Qed.

Lemma mutual_exclusion_witness :
  (boot sample_atoi 4 sample_argv = Some sample_boot /\
   exec sample_schedule sample_boot = Running sample_state /\
   before_teardown sample_state) /\
  total in_region (threads sample_state) = 1.
Proof.
  split.
  { exact (conj sample_boot_eq
             (conj sample_state_eq sample_state_before_teardown)). }
  rewrite (mutual_exclusion sample_atoi sample_argv sample_boot sample_schedule
             sample_state sample_boot_eq sample_state_eq
             sample_state_before_teardown).
  vm_compute. reflexivity.
Defined.

Lemma total_pos_lookup w (ts : list thread) :
  0 < total w ts -> exists (i : nat) t, ts !! i = Some t /\ 0 < w t.
Proof.
  unfold total. induction ts as [|t0 ts IH]; simpl; [lia|].
  intros H. destruct (Z_lt_dec 0 (w t0)) as [Hpos|Hnpos].
  - exists O, t0. auto.
  - destruct IH as (i & t & Hi & Ht); [lia|]. exists (S i), t. auto.
Qed.

Lemma to_write_length l t : (length (to_write l t) <= 2)%nat.
Proof. destruct t as [[id|] []]; cbn; lia. Qed.

Lemma still_to_write_not_writing l ts :
  existsb writing ts = false -> still_to_write l ts = [].
Proof.
  unfold still_to_write.
  induction ts as [|t ts IH]; simpl; [reflexivity|].
  intros H. apply orb_false_elim in H as [Ht Hts].
  rewrite (IH Hts), app_nil_r.
  destruct t as [fn []]; try discriminate; destruct fn; reflexivity.
Qed.

(** X15. While [main] sleeps there is a sequence of buffer calls that
    respects the blocking contract such that the buffer holds the queue
    these calls leave, and the texts written to [cout], followed by what
    the thread that has made the last of these calls has still to write
    before it unlocks (its line and the buffer, or the buffer, or
    nothing), are the transcript of the sequence: for every insertion the
    producer's line and the buffer printed after it, for every removal
    the consumer's line, naming the oldest item, and the buffer printed
    after it.  When no thread is between its buffer call and the end of
    [print_buffer], [cout] is this transcript. *)
Theorem cout_is_transcript atoi argv s0 sched s :
  boot atoi 4 argv = Some s0 -> exec sched s0 = Running s ->
  before_teardown s -> main_asleep s ->
  exists tr,
    respects 5 0 tr = true /\
    buffer_inv (heap_of s) buffer 5 (queue_after [] tr) /\
    cout s ++ still_to_write (queue_after [] tr) (threads s)
    = transcript [] tr /\
    (length (still_to_write (queue_after [] tr) (threads s)) <= 2)%nat /\
    (existsb writing (threads s) = false -> cout s = transcript [] tr).
Proof.
  intros Hboot Hexec Hbt Hsl.
  destruct (reachable_invariant atoi argv s0 sched s Hboot Hexec Hbt)
    as [Hset|Hco].
  - destruct Hset as (Hth & Hcout & _ & Hbuf & _).
    exists []. rewrite Hcout, Hth.
    split; [reflexivity|]. split; [exact Hbuf|]. split; [reflexivity|].
    split; [cbn; lia|]. intros _. reflexivity.
  - destruct Hco as (l & e & f & lk & Hbuf & _ & _ & _ & _ & _ & _ & _ & Hreg
                     & _ & _ & Htr).
    destruct (Htr Hsl) as (tr & Hok & Hout & Hq).
    exists tr. unfold queue_after. cbn [app]. rewrite <- Hq.
    split; [exact Hok|]. split; [exact Hbuf|]. split; [exact Hout|].
    split.
    + destruct lk.
      * destruct (total_pos_lookup in_region (threads s))
          as (k & t & Hk & Ht); [lia|].
        rewrite (still_to_write_of_holder _ k t l Hk Ht Hreg).
        apply to_write_length.
      * rewrite (still_to_write_none l _ Hreg). cbn. lia.
    + intros Hnone. rewrite (still_to_write_not_writing l _ Hnone) in Hout.
      rewrite app_nil_r in Hout. exact Hout.
Qed.

Lemma cout_is_transcript_witness :
  (boot sample_atoi 4 sample_argv = Some sample_boot /\
   exec sample_schedule_to_removal sample_boot
   = Running sample_state_at_cout /\
   before_teardown sample_state_at_cout /\
   main_asleep sample_state_at_cout) /\
  exists tr,
    respects 5 0 tr = true /\
    buffer_inv (heap_of sample_state_at_cout) buffer 5 (queue_after [] tr) /\
    cout sample_state_at_cout
    ++ still_to_write (queue_after [] tr) (threads sample_state_at_cout)
    = transcript [] tr /\
    (length (still_to_write (queue_after [] tr)
               (threads sample_state_at_cout)) <= 2)%nat /\
    (existsb writing (threads sample_state_at_cout) = false ->
     cout sample_state_at_cout = transcript [] tr).
Proof.
  split.
  { exact (conj sample_boot_eq
             (conj sample_state_at_cout_eq
                (conj sample_state_at_cout_before_teardown
                   sample_state_at_cout_main_asleep))). }
  exact (cout_is_transcript sample_atoi sample_argv sample_boot
           sample_schedule_to_removal sample_state_at_cout sample_boot_eq
           sample_state_at_cout_eq sample_state_at_cout_before_teardown
           sample_state_at_cout_main_asleep).
Defined.

Lemma total_all_start w ts :
  (forall t, at_start t = true -> w t = 0) ->
  forallb at_start ts = true -> total w ts = 0.
Proof.
  intros Hw. unfold total. induction ts as [|t ts IH]; simpl; [reflexivity|].
  intros H. apply andb_prop in H as [Ht Hts].
  rewrite (Hw t Ht), (IH Hts). reflexivity.
Qed.

Lemma forallb_lookup {A} (f : A -> bool) (ts : list A) (i : nat) t :
  forallb f ts = true -> ts !! i = Some t -> f t = true.
Proof.
  revert i. induction ts as [|t0 ts IH]; intros i H Hi; [discriminate|].
  simpl in H. apply andb_prop in H as [Ht Hts].
  destruct i as [|i]; simpl in Hi; [congruence|eauto].
Qed.

Lemma forallb_false_lookup {A} (f : A -> bool) (ts : list A) :
  forallb f ts = false -> exists (i : nat) t, ts !! i = Some t /\ f t = false.
Proof.
  induction ts as [|t0 ts IH]; simpl; [discriminate|].
  destruct (f t0) eqn:Ht0; simpl.
  - intros H. destruct (IH H) as (i & t & Hi & Ht). exists (S i), t. auto.
  - intros _. exists O, t0. auto.
Qed.

(** X16. In every state a schedule reaches before the teardown in which
    a producer and a consumer exist, some thread can make its next call:
    the threads never all wait for each other. *)
Theorem some_worker_can_run atoi argv s0 sched s (i j : nat) ti tj id :
  boot atoi 4 argv = Some s0 -> exec sched s0 = Running s ->
  before_teardown s ->
  threads s !! i = Some ti -> start_routine ti = producer id ->
  threads s !! j = Some tj -> start_routine tj = consumer ->
  exists k s', step (worker k) s = Steps s'.
Proof.
  intros Hboot Hexec Hbt Hi Hprod Hj Hcons.
  pose proof (reachable_invariant atoi argv s0 sched s Hboot Hexec) as Hinv.
  destruct (Hinv Hbt) as [Hset|Hco].
  { destruct Hset as (Hth & _). rewrite Hth in Hi. discriminate. }
  destruct Hco as (l & e & f & lk & Hbuf & He & Hf & Hlk & He0 & Hf0 & Heq1
                   & Heq2 & Hreg & _).
  assert (Hrun : forall k, (exists s', thread_step k s = Steps s') ->
                 exists k s', step (worker k) s = Steps s').
  { intros k [s' Hs']. exists k, s'.
    rewrite (step_dispatch (worker k) s Hbt). exact Hs'. }
  destruct lk.
  - (* the thread that holds the mutex goes on *)
    destruct (total_pos_lookup in_region (threads s)) as (k & t & Hk & Ht);
      [lia|].
    apply (Hrun k).
    destruct (thread_step_ok 5 s k Hinv Hbt) as [Hw|(s' & Hs' & _)]; eauto.
    exfalso. unfold thread_step in Hw. rewrite Hk in Hw.
    destruct t as [fn []]; cbn in Ht; try lia; cbn [start_routine next_call] in Hw.
    + destruct fn as [pid|].
      * destruct (insert_item buffer pid (heap_of s)) as [[|] m1| | |];
          discriminate.
      * destruct (remove_item buffer (heap_of s)) as [[v [|]] m1| | |];
          discriminate.
    + destruct fn; discriminate.
    + destruct (print_buffer buffer (heap_of s)); destruct fn; discriminate.
    + rewrite Hlk in Hw. destruct fn; discriminate.
  - destruct (forallb at_start (threads s)) eqn:Hall.
    + (* every thread is at sem_wait: a permit is there for one kind *)
      rewrite (total_all_start empty_in_flight) in Heq1; try exact Hall.
      2:{ intros [fn []] Ht; try discriminate. destruct fn; reflexivity. }
      rewrite (total_all_start full_in_flight) in Heq2; try exact Hall.
      2:{ intros [fn []] Ht; try discriminate. destruct fn; reflexivity. }
      destruct (Z_lt_dec 0 e) as [Hpos|Hzero].
      * apply (Hrun i). unfold thread_step. rewrite Hi.
        pose proof (forallb_lookup _ _ _ _ Hall Hi) as Hs.
        destruct ti as [fn []]; try discriminate. cbn in Hprod. subst fn.
        cbn [start_routine next_call]. rewrite He. unfold sem_wait.
        destruct (Z.ltb_spec 0 e); [eauto|lia].
      * apply (Hrun j). unfold thread_step. rewrite Hj.
        pose proof (forallb_lookup _ _ _ _ Hall Hj) as Hs.
        destruct tj as [fn []]; try discriminate. cbn in Hcons. subst fn.
        cbn [start_routine next_call]. rewrite Hf. unfold sem_wait.
        destruct (Z.ltb_spec 0 f); [eauto|lia].
    + (* a thread past sem_wait finds the mutex free, or posts *)
      destruct (forallb_false_lookup _ _ Hall) as (k & t & Hk & Ht).
      pose proof (total_ge in_region _ _ _ in_region_nonneg Hk) as Hge.
      apply (Hrun k). unfold thread_step. rewrite Hk.
      destruct t as [fn []]; try discriminate; cbn in Hge; try lia;
        cbn [start_routine next_call].
      * rewrite Hlk. destruct fn; eauto.
      * destruct fn.
        -- rewrite Hf. unfold sem_post. destruct (f <? SEM_VALUE_MAX); eauto.
        -- rewrite He. unfold sem_post. destruct (e <? SEM_VALUE_MAX); eauto.
Qed.

Lemma some_worker_can_run_witness :
  (boot sample_atoi 4 sample_argv = Some sample_boot /\
   exec sample_schedule sample_boot = Running sample_state /\
   before_teardown sample_state /\
   threads sample_state !! 0%nat = Some (mkThread (producer 1) at_sem_wait) /\
   start_routine (mkThread (producer 1) at_sem_wait) = producer 1 /\
   threads sample_state !! 2%nat = Some (mkThread consumer at_mutex_unlock) /\
   start_routine (mkThread consumer at_mutex_unlock) = consumer) /\
  exists k s', step (worker k) sample_state = Steps s'.
Proof.
  assert (H1 : threads sample_state !! 0%nat
               = Some (mkThread (producer 1) at_sem_wait))
    by (vm_compute; reflexivity).
  assert (H2 : threads sample_state !! 2%nat
               = Some (mkThread consumer at_mutex_unlock))
    by (vm_compute; reflexivity).
  split.
  { exact (conj sample_boot_eq
             (conj sample_state_eq
                (conj sample_state_before_teardown
                   (conj H1 (conj eq_refl (conj H2 eq_refl)))))). }
  exact (some_worker_can_run sample_atoi sample_argv sample_boot
           sample_schedule sample_state 0 2 _ _ 1 sample_boot_eq
           sample_state_eq sample_state_before_teardown H1 eq_refl H2 eq_refl).
Defined.

(** ** The indices count the calls *)

Lemma removals_le C t : forall k,
  0 <= k -> respects C k t = true ->
  Z.of_nat (removals t) <= k + Z.of_nat (length (inserted t)).
Proof.
  induction t as [|[x|] t IHt]; intros k Hk0 Hk;
    cbn [respects removals inserted length] in *; [lia| |].
  - apply andb_prop in Hk as [_ Hk]. specialize (IHt (k + 1) ltac:(lia) Hk).
    lia.
  - apply andb_prop in Hk as [Hp Hk]. apply Z.ltb_lt in Hp.
    specialize (IHt (k - 1) ltac:(lia) Hk). lia.
Qed.

Lemma run_indices this C tr : forall m b a l,
  objects m !! this = Some b -> arrays m !! items b = Some a ->
  max_size b = C -> rep b a l ->
  respects C (Z.of_nat (length l)) tr = true ->
  exists m' b' a',
    run this tr m = Ret (take (removals tr) (l ++ inserted tr)) m' /\
    objects m' !! this = Some b' /\ arrays m' !! items b' = Some a' /\
    items b' = items b /\ max_size b' = C /\
    rep b' a' (drop (removals tr) (l ++ inserted tr)) /\
    front_idx b' = (front_idx b + Z.of_nat (removals tr)) mod C /\
    (rear_idx b' + 1) mod C
    = (rear_idx b + 1 + Z.of_nat (length (inserted tr))) mod C /\
    (inserted tr = [] -> rear_idx b' = rear_idx b) /\
    (inserted tr <> [] -> 0 <= rear_idx b').
Proof.
  induction tr as [|[item|] tr IH]; intros m b a l Hobj Harr HC Hrep Hok;
    cbn [run removals inserted respects length] in *.
  - exists m, b, a. rewrite app_nil_r, take_0, drop_0, !Z.add_0_r.
    pose proof (rep_front _ _ _ Hrep).
    rewrite Z.mod_small by lia.
    split; [reflexivity|]. split; [exact Hobj|]. split; [exact Harr|].
    split; [reflexivity|]. split; [exact HC|]. split; [exact Hrep|].
    split; [reflexivity|]. split; [reflexivity|].
    split; [reflexivity|]. intros H'. contradiction.
  - apply andb_prop in Hok as [Hroom Hok]. apply Z.ltb_lt in Hroom.
    pose proof (rep_length _ _ _ Hrep) as Hl.
    pose proof (rep_cap _ _ _ Hrep) as Hcap.
    pose proof (insert_item_runs m this b a item Hobj Harr
                  (rep_shape _ _ _ Hrep) ltac:(lia)) as Hrun.
    pose proof (insert_item_rep b a l item Hrep ltac:(lia)) as Hrep1.
    edestruct (IH (mkMemory (<[this := inserted_obj b]> (objects m))
                            (<[items b := inserted_arr b a item]> (arrays m)))
                  (inserted_obj b) (inserted_arr b a item) (l ++ [item]))
      as (m' & b' & a' & Hrun' & Hobj' & Harr' & Hit & Hmx & Hrep' & Hf & Hr
          & Hr0 & Hr1);
      [cbn [objects]; apply lookup_insert_eq
      |cbn [arrays inserted_obj items]; apply lookup_insert_eq
      |exact HC|exact Hrep1
      |rewrite length_app; simpl;
       replace (Z.of_nat (length l + 1)) with (Z.of_nat (length l) + 1) by lia;
       exact Hok|].
    exists m', b', a'. unfold bind. rewrite Hrun.
    rewrite <- app_assoc in Hrun', Hrep'. cbn [app] in Hrun', Hrep'.
    cbn [inserted_obj front_idx rear_idx items] in *.
    split; [exact Hrun'|]. split; [exact Hobj'|]. split; [exact Harr'|].
    split; [exact Hit|]. split; [exact Hmx|]. split; [exact Hrep'|].
    split; [exact Hf|]. split.
    { rewrite Hr, HC, <- Z.add_assoc, Zplus_mod_idemp_l. f_equal. lia. }
    split; [discriminate|]. intros _.
    destruct (inserted tr) as [|x xs] eqn:Hins.
    + rewrite (Hr0 eq_refl). apply Z.mod_pos_bound. lia.
    + apply Hr1. discriminate.
  - apply andb_prop in Hok as [Hpos Hok]. apply Z.ltb_lt in Hpos.
    destruct l as [|v l]; [simpl in Hpos; lia|].
    pose proof (rep_cap _ _ _ Hrep) as Hcap.
    pose proof (remove_item_runs m this b a _ v l Hobj Harr Hrep eq_refl)
      as Hrun.
    pose proof (remove_item_rep b a v l Hrep) as Hrep1.
    edestruct (IH (mkMemory (<[this := removed_obj b]> (objects m)) (arrays m))
                  (removed_obj b) a l)
      as (m' & b' & a' & Hrun' & Hobj' & Harr' & Hit & Hmx & Hrep' & Hf & Hr
          & Hr0 & Hr1);
      [cbn [objects]; apply lookup_insert_eq
      |cbn [arrays removed_obj items]; exact Harr
      |exact HC|exact Hrep1
      |replace (Z.of_nat (length l)) with (Z.of_nat (length (v :: l)) - 1)
         by (simpl; lia);
       exact Hok|].
    exists m', b', a'. unfold bind. rewrite Hrun, Hrun'.
    cbn [removed_obj front_idx rear_idx items] in *.
    split; [reflexivity|]. split; [exact Hobj'|]. split; [exact Harr'|].
    split; [exact Hit|]. split; [exact Hmx|]. split; [exact Hrep'|].
    split.
    { rewrite Hf, HC, Zplus_mod_idemp_l. f_equal. lia. }
    split; [exact Hr|]. split; [exact Hr0|exact Hr1].
Qed.

(** X17. After a trace that respects the blocking contract on a new
    buffer, the array is still the one allocated at construction,
    [front_idx] is the number of removals modulo the capacity,
    [current_count] is the number of insertions less the number of
    removals, and [rear_idx] is the number of insertions less one modulo
    the capacity, or still -1 when nothing was ever inserted. *)
Theorem indices_count_calls m this C tr :
  0 < C <= Int.INT_MAX ->
  respects C 0 tr = true ->
  exists out m' b,
    (do_ Buffer_ctor this C; run this tr) m = Ret out m' /\
    objects m' !! this = Some b /\
    items b = fresh (dom (arrays m)) /\
    max_size b = C /\
    front_idx b = Z.of_nat (removals tr) mod C /\
    current_count b
    = Z.of_nat (length (inserted tr)) - Z.of_nat (removals tr) /\
    (inserted tr = [] -> rear_idx b = -1) /\
    (inserted tr <> [] ->
     rear_idx b = (Z.of_nat (length (inserted tr)) - 1) mod C).
Proof.
  intros HC Hok.
  pose proof (Buffer_ctor_runs m this C ltac:(lia)) as Hctor.
  set (p := fresh (dom (arrays m))) in *.
  edestruct (run_indices this C tr
               (mkMemory (<[this := mkBuffer p C 0 0 (-1)]> (objects m))
                         (<[p := replicate (Z.to_nat C) None]> (arrays m)))
               (mkBuffer p C 0 0 (-1))
               (replicate (Z.to_nat C) None) [])
    as (m' & b & a & Hrun & Hobj & Harr & Hit & Hmx & Hrep & Hf & Hr & Hr0
        & Hr1);
    [cbn [objects]; apply lookup_insert_eq
    |cbn [arrays items]; apply lookup_insert_eq
    |reflexivity|apply rep_fresh; exact HC|exact Hok|].
  cbn [app front_idx rear_idx items] in *.
  exists (take (removals tr) (inserted tr)), m', b.
  split; [unfold bind; rewrite Hctor; exact Hrun|].
  split; [exact Hobj|]. split; [exact Hit|]. split; [exact Hmx|].
  split; [rewrite Hf; f_equal|].
  pose proof (rep_length _ _ _ Hrep) as Hl.
  pose proof (rep_count _ _ _ Hrep) as Hcnt.
  pose proof (rep_rear _ _ _ Hrep) as Hrear.
  rewrite length_drop in Hl.
  assert (Hle : (removals tr <= length (inserted tr))%nat).
  { pose proof (removals_le C tr 0 ltac:(lia) Hok). lia. }
  split; [lia|]. split; [exact Hr0|].
  intros Hne. specialize (Hr1 Hne). rewrite Hmx in *.
  replace (-1 + 1 + Z.of_nat (length (inserted tr)))
    with (Z.of_nat (length (inserted tr))) in Hr by lia.
  rewrite <- (Z.mod_small (rear_idx b) C) by lia.
  replace (rear_idx b) with (rear_idx b + 1 - 1) at 1 by lia.
  rewrite Zminus_mod, Hr, <- Zminus_mod. reflexivity.
Qed.

Lemma indices_count_calls_witness :
  let tr := [Insert 7; Insert 8; Remove; Insert 9; Insert 10; Remove] in
  (0 < 3 <= Int.INT_MAX /\ respects 3 0 tr = true) /\
  exists out m' b,
    (do_ Buffer_ctor 1%positive 3; run 1%positive tr) empty_memory
    = Ret out m' /\
    objects m' !! 1%positive = Some b /\
    items b = fresh (dom (arrays empty_memory)) /\
    max_size b = 3 /\
    front_idx b = Z.of_nat (removals tr) mod 3 /\
    current_count b
    = Z.of_nat (length (inserted tr)) - Z.of_nat (removals tr) /\
    (inserted tr = [] -> rear_idx b = -1) /\
    (inserted tr <> [] ->
     rear_idx b = (Z.of_nat (length (inserted tr)) - 1) mod 3).
Proof.
  intros tr.
  assert (H1 : 0 < 3 <= Int.INT_MAX) by (unfold Int.INT_MAX; lia).
  assert (H2 : respects 3 0 tr = true) by reflexivity.
  split; [auto|].
  exact (indices_count_calls empty_memory 1%positive 3 tr H1 H2).
Defined.

(** ** Destroying a copy and its source *)

Lemma Buffer_dtor_runs m this b a :
  objects m !! this = Some b -> arrays m !! items b = Some a ->
  Buffer_dtor this m
  = Ret tt (mkMemory (delete this (objects m)) (delete (items b) (arrays m))).
Proof.
  intros Hobj Harr.
  unfold Buffer_dtor, bind, get_obj, delete_array. rewrite Hobj, Harr.
  reflexivity.
Qed.

(** X18. A copy and its source own different arrays, so each can be
    destroyed without the other: after the source is destroyed the copy
    still accepts an item, and destroying the copy as well releases both
    arrays and leaves the rest of the store as it was (no array is
    released twice). *)
Theorem copy_outlives_source m this other C l o :
  this <> other -> buffer_inv m other C l -> objects m !! other = Some o ->
  exists m1 m2,
    Buffer_copy_ctor this other m = Ret tt m1 /\
    Buffer_dtor other m1 = Ret tt m2 /\
    objects m2 !! other = None /\ arrays m2 !! items o = None /\
    (forall item, Z.of_nat (length l) < C ->
       exists m', insert_item this item m2 = Ret true m') /\
    Buffer_dtor this m2
    = Ret tt (mkMemory (delete this (delete other (objects m)))
                       (delete (items o) (arrays m))).
Proof.
  intros Hne (o' & a & Ho & Ha & HC & Hrep) Hobj.
  rewrite Hobj in Ho. injection Ho as <-.
  pose proof (rep_length _ _ _ Hrep) as Hl.
  pose proof (Buffer_copy_ctor_runs m this other o a l Hobj Ha Hrep) as Hcopy.
  set (p := fresh (dom (arrays m))) in *.
  set (m1 := mkMemory (<[this := copied_obj p o]> (objects m))
                      (<[p := copied_arr o l]> (arrays m))) in *.
  assert (Hp : items o <> p) by (apply (fresh_not_live m _ _ Ha)).
  assert (Hfresh : arrays m !! p = None) by (apply not_elem_of_dom, is_fresh).
  assert (Ho1 : objects m1 !! other = Some o).
  { unfold m1. cbn [objects]. rewrite lookup_insert_ne by congruence.
    exact Hobj. }
  assert (Ha1 : arrays m1 !! items o = Some a).
  { unfold m1. cbn [arrays]. rewrite lookup_insert_ne by congruence.
    exact Ha. }
  pose proof (Buffer_dtor_runs m1 other o a Ho1 Ha1) as Hd1.
  set (m2 := mkMemory (delete other (objects m1)) (delete (items o) (arrays m1)))
    in *.
  assert (Ht2 : objects m2 !! this = Some (copied_obj p o)).
  { unfold m2, m1. cbn [objects]. rewrite lookup_delete_ne by congruence.
    apply lookup_insert_eq. }
  assert (Ha2 : arrays m2 !! items (copied_obj p o) = Some (copied_arr o l)).
  { unfold m2, m1. cbn [arrays copied_obj items].
    rewrite lookup_delete_ne by congruence. apply lookup_insert_eq. }
  exists m1, m2.
  split; [exact Hcopy|]. split; [exact Hd1|].
  split; [unfold m2; cbn [objects]; apply lookup_delete_eq|].
  split; [unfold m2; cbn [arrays]; apply lookup_delete_eq|].
  split.
  - intros item Hroom. eexists.
    apply (insert_item_runs m2 this _ _ item Ht2 Ha2
             (copied_shape p o a l Hrep)).
    cbn [copied_obj current_count max_size]. lia.
  - rewrite (Buffer_dtor_runs m2 this _ _ Ht2 Ha2). f_equal. f_equal.
    + unfold m2, m1. cbn [objects].
      apply map_eq. intros x.
      destruct (decide (x = this)) as [->|Hx];
        [rewrite !lookup_delete_eq; reflexivity|].
      rewrite !(lookup_delete_ne _ this) by congruence.
      destruct (decide (x = other)) as [->|Hx'];
        [rewrite !lookup_delete_eq; reflexivity|].
      rewrite !(lookup_delete_ne _ other) by congruence.
      apply lookup_insert_ne. congruence.
    + unfold m2, m1. cbn [arrays copied_obj items].
      apply map_eq. intros q.
      destruct (decide (q = p)) as [->|Hq].
      * rewrite lookup_delete_eq, lookup_delete_ne by congruence.
        symmetry. exact Hfresh.
      * rewrite (lookup_delete_ne _ p) by congruence.
        destruct (decide (q = items o)) as [->|Hq'];
          [rewrite !lookup_delete_eq; reflexivity|].
        rewrite !(lookup_delete_ne _ (items o)) by congruence.
        apply lookup_insert_ne. congruence.
Qed.

Lemma copy_outlives_source_witness :
  let o := mkBuffer 1%positive 5 2 0 1 in
  (2%positive <> 1%positive /\
   buffer_inv holds_10_20 1%positive 5 [10; 20] /\
   objects holds_10_20 !! 1%positive = Some o) /\
  exists m1 m2,
    Buffer_copy_ctor 2%positive 1%positive holds_10_20 = Ret tt m1 /\
    Buffer_dtor 1%positive m1 = Ret tt m2 /\
    objects m2 !! 1%positive = None /\ arrays m2 !! items o = None /\
    (forall item, Z.of_nat (length [10; 20]) < 5 ->
       exists m', insert_item 2%positive item m2 = Ret true m') /\
    Buffer_dtor 2%positive m2
    = Ret tt (mkMemory
                (delete 2%positive (delete 1%positive (objects holds_10_20)))
                (delete (items o) (arrays holds_10_20))).
Proof.
  intros o.
  assert (H1 : 2%positive <> 1%positive) by discriminate.
  assert (H2 : objects holds_10_20 !! 1%positive = Some o) by reflexivity.
  split; [exact (conj H1 (conj holds_10_20_inv H2))|].
  exact (copy_outlives_source holds_10_20 2%positive 1%positive 5 [10; 20] o
           H1 holds_10_20_inv H2).
Defined.
